(** * planIT scheduler: the event-lifecycle engine of the Express server

    A shallow embedding of the request handlers of the two server files of
    the repository and of the helpers of the chat endpoint:

    - [Server] follows [src/unnamed/part_000], the server with the [/chat]
      endpoint (conflict query, create, delete, status update, split, the
      weekly aggregation, and of the chat: add, edit, mark, delete, split,
      schedule, [parseTimeRange], [buildSuggestions], [findMonthDay]);
    - [Legacy] follows [src/server.js], the server with share requests
      (its own conflict query, status update and split, the dashboard of
      the last seven days, the answer to a share request).

    Timestamps are JavaScript [Date]s, modelled as their millisecond count
    in [Z]; every number the handlers compute stays an integer far below
    2^53, so the arithmetic of doubles is the arithmetic of [Z] here.
    The MongoDB collection is a list of documents in insertion order
    together with the next fresh ObjectId. *)

From Stdlib Require Import ZArith Lia Ascii String.
From stdpp Require Import base decidable option list sorting gmap strings pretty.

Local Open Scope Z_scope.

(** ** Data model: the mongoose [eventSchema] *)

Inductive Status := completed | missed.
Inductive Level := high | low.
Inductive Difficulty := easy | medium | hard.

#[global] Instance Status_eq_dec : EqDecision Status.
Proof. solve_decision. Defined.
#[global] Instance Level_eq_dec : EqDecision Level.
Proof. solve_decision. Defined.
#[global] Instance Difficulty_eq_dec : EqDecision Difficulty.
Proof. solve_decision. Defined.

(** [status = None] is the schema's [null] (pending); [segmentOf = None]
    is a standalone or parent event.  [end] is a keyword, hence [end_]. *)
Record Event := mkEvent {
  _id : N;
  title : string;
  start : Z;
  end_ : Z;
  importance : Level;
  urgency : Level;
  difficulty : Difficulty;
  userId : N;
  status : option Status;
  isRecurring : bool;
  segmentOf : option N;
  segmentIndex : option Z
}.

#[global] Instance Event_eq_dec : EqDecision Event.
Proof. solve_decision. Defined.

(** [doc.status = st] on one document *)
Definition set_status (st : option Status) (e : Event) : Event :=
  {| _id := _id e; title := title e; start := start e; end_ := end_ e;
     importance := importance e; urgency := urgency e;
     difficulty := difficulty e; userId := userId e; status := st;
     isRecurring := isRecurring e; segmentOf := segmentOf e;
     segmentIndex := segmentIndex e |}.

Record DB := mkDB { docs : list Event; next_oid : N }.

(** What a handler sends back. *)
Inductive Response (A : Type) :=
| Json (payload : A)                  (* res.json(payload) *)
| Error (code : Z) (error : string)   (* res.status(code).json({ error }) *)
| Message (intent message : string).  (* res.json({ intent, message }) *)
Arguments Json {A} payload.
Arguments Error {A} code error.
Arguments Message {A} intent message.

(** ** The storage collaborator: the mongoose calls the handlers make *)

Module Mongo.

(** [Event.find(query).lean()] *)
Definition find (P : Event → Prop) `{∀ e, Decision (P e)} (db : DB)
  : list Event := filter P (docs db).

(** [Event.findOne(query)]: the first match in natural order *)
Definition findOne (P : Event → Prop) `{∀ e, Decision (P e)} (db : DB)
  : option Event := head (find P db).

(** [Event.findById(id)] *)
Definition findById (id : N) (db : DB) : option Event :=
  findOne (λ e, _id e = id) db.

(** [Event.countDocuments(query)] *)
Definition countDocuments (P : Event → Prop) `{∀ e, Decision (P e)}
  (db : DB) : Z := Z.of_nat (length (find P db)).

(** [Event.updateMany(query, { $set: { status } })] *)
Definition updateMany (P : Event → Prop) `{∀ e, Decision (P e)}
  (st : Status) (db : DB) : DB :=
  {| docs := (λ e, if decide (P e) then set_status (Some st) e else e)
               <$> docs db;
     next_oid := next_oid db |}.

(** [Event.findByIdAndUpdate(id, { status })], and [doc.status = st;
    doc.save()] on a fetched document: [_id] is unique in a collection,
    so the write is the map that rewrites the document bearing [id]. *)
Definition findByIdAndUpdate (id : N) (st : Status) (db : DB) : DB :=
  updateMany (λ e, _id e = id) st db.

(** [.sort({ start: -1 })] followed by taking the first document: the
    match with the greatest [start], the earliest such in natural order *)
Definition latest (l : list Event) : option Event :=
  foldl (λ acc e, match acc with
                  | None => Some e
                  | Some a => if start a <? start e then Some e else Some a
                  end) None l.

(** [Event.create(fields)]: the document gets a fresh ObjectId *)
Definition create (mk : N → Event) (db : DB) : DB * Event :=
  let e := mk (next_oid db) in
  ({| docs := docs db ++ [e]; next_oid := N.succ (next_oid db) |}, e).

(** [Event.deleteMany(query)]: the collection without the matches, and the
    [deletedCount] of the result *)
Definition deleteMany (P : Event → Prop) `{∀ e, Decision (P e)} (db : DB)
  : DB * nat :=
  ({| docs := filter (λ e, ¬ P e) (docs db); next_oid := next_oid db |},
   length (filter P (docs db))).

(** [Event.findByIdAndDelete(id)] and [Event.deleteOne({ _id })]: by the
    uniqueness of [_id], the removal of the document bearing [id] *)
Definition deleteById (id : N) (db : DB) : DB * nat :=
  deleteMany (λ e, _id e = id) db.

End Mongo.

(** ** Segmentation: the plan loop shared by both split paths *)

Record Slot := mkSlot { startMs : Z; endMs : Z }.

#[global] Instance Slot_eq_dec : EqDecision Slot.
Proof. solve_decision. Defined.

(** The body of [for (let i = 0; i < n; i++)], with [k] iterations left;
    [remainder] and [cursor] are the loop's mutable variables. *)
Fixpoint plan_loop (k : nat) (i n baseSeg brk remainder cursor : Z)
  : list Slot :=
  match k with
  | O => []
  | S k' =>
      let thisDur := baseSeg + (if 0 <? remainder then 1 else 0) in
      let remainder' := if 0 <? remainder then remainder - 1 else remainder in
      let segStart := cursor in
      let segEnd := segStart + thisDur * 60000 in
      let cursor' := if i <? n - 1 then segEnd + brk * 60000 else segEnd in
      mkSlot segStart segEnd
        :: plan_loop k' (i + 1) n baseSeg brk remainder' cursor'
  end.

(** [baseSeg = Math.floor(usable / n)], [remainder = usable % n] *)
Definition build_plan (s n brk usable : Z) : list Slot :=
  plan_loop (Z.to_nat n) 0 n (usable / n) brk (Z.rem usable n) s.

(** Minutes of one planned segment, and of a whole plan *)
Definition slot_minutes (sl : Slot) : Z := (endMs sl - startMs sl) / 60000.
Definition plan_minutes (plan : list Slot) : Z :=
  foldr (λ sl acc, slot_minutes sl + acc) 0 plan.

(** [`${baseTitle} — Segment ${i + 1}`] *)
Definition segment_title (baseTitle : string) (i : Z) : string :=
  (baseTitle +:+ " — Segment " +:+ pretty (i + 1))%string.

(** [plan.map((slot, i) => Event.create({ ... }))]: one child per slot,
    inheriting the parent's attributes, [segmentOf] the parent's id. *)
Fixpoint create_segments (parent : Event) (titleOf : Z → string) (i : Z)
    (plan : list Slot) (db : DB) : DB * list Event :=
  match plan with
  | [] => (db, [])
  | slot :: rest =>
      let '(db1, c) :=
        Mongo.create (λ oid,
          {| _id := oid; title := titleOf i;
             start := startMs slot; end_ := endMs slot;
             importance := importance parent; urgency := urgency parent;
             difficulty := difficulty parent; userId := userId parent;
             status := None; isRecurring := false;
             segmentOf := Some (_id parent); segmentIndex := Some i |}) db in
      let '(db2, cs) := create_segments parent titleOf (i + 1) rest db1 in
      (db2, c :: cs)
  end.

(** ** Creation of a standalone event, shared by the create handlers *)

Inductive CreateReply :=
| Created (ev : Event)              (* 201, the new document *)
| Duplicate (conflict : Event)      (* 409, with the conflicting document *)
| BadRequest (error : string).      (* 400 *)

(** The fields of [Event.create({ title, start, end, ..., userId })]; the
    schema defaults fill in the rest. *)
Definition new_event (ttl : string) (s e : Z) (imp urg : Level)
    (diff : Difficulty) (uid : N) (oid : N) : Event :=
  {| _id := oid; title := ttl; start := s; end_ := e;
     importance := imp; urgency := urg; difficulty := diff; userId := uid;
     status := None; isRecurring := false;
     segmentOf := None; segmentIndex := None |}.

(** ** Identifiers: [baseId]

    [s.split("-")[0]], the part of [s] before its first dash, and
    [s.includes("-")] *)
Fixpoint split_dash_head (s : string) : string :=
  match s with
  | EmptyString => EmptyString
  | String c r =>
      if Ascii.eqb c "-" then EmptyString else String c (split_dash_head r)
  end.

Fixpoint includes_dash (s : string) : bool :=
  match s with
  | EmptyString => false
  | String c r => if Ascii.eqb c "-" then true else includes_dash r
  end.

(** ** The server with the chat endpoint ([src/unnamed/part_000]) *)

Module Server.

(** [String(v || "").split("-")[0]] *)
Definition baseId (v : string) : string := split_dash_head v.

(** *** [POST /events]: create with the exact-duplicate check *)

(** The query [{ userId, start: s, end: e }] of the create handler and of
    the chat ADD_TASK branch *)
Definition add_conflict (uid : N) (s e : Z) (db : DB) : option Event :=
  Mongo.findOne (λ ev, userId ev = uid ∧ start ev = s ∧ end_ ev = e) db.

(** The query [{ userId, _id: { $ne: ev._id }, start, end }] of the chat
    EDIT_TASK branch *)
Definition edit_conflict (uid self : N) (s e : Z) (db : DB) : option Event :=
  Mongo.findOne
    (λ ev, userId ev = uid ∧ _id ev ≠ self ∧ start ev = s ∧ end_ ev = e) db.

Definition post_events (ttl : string) (s e : Z) (imp urg : Level)
    (diff : option Difficulty) (uid : N) (allowDouble : bool) (db : DB)
  : DB * CreateReply :=
  if bool_decide (e ≤ s) then (db, BadRequest "Invalid date range")
  else
    match (if allowDouble then None else add_conflict uid s e db) with
    | Some conflict => (db, Duplicate conflict)
    | None =>
        let '(db', ev) :=
          Mongo.create
            (new_event ttl s e imp urg (default medium diff) uid) db in
        (db', Created ev)
    end.

(** *** [PATCH /events/:id/status] *)

Record StatusResult := mkStatusResult {
  res_id : N;
  res_status : Status;
  parentUpdated : bool;
  parent : option Event;
  finalized : bool
}.

(** [valid.includes(status)] on the raw body field *)
Definition parse_status (raw : string) : option Status :=
  if decide (raw = "completed") then Some completed
  else if decide (raw = "missed") then Some missed
  else None.

Definition children_of (pid : N) (db : DB) : list Event :=
  Mongo.find (λ c, segmentOf c = Some pid) db.

Definition count_status (st : Status) (l : list Event) : Z :=
  Z.of_nat (length (filter (λ c, status c = Some st) l)).

(** [missed === 0 ? "completed" : "missed"] *)
Definition final_status (children : list Event) : Status :=
  if decide (count_status missed children = 0) then completed else missed.

(** [completed + missed === total] *)
Definition all_counted (children : list Event) : bool :=
  bool_decide (count_status completed children + count_status missed children
               = Z.of_nat (length children)).

Definition patch_status (id : N) (raw : string) (db : DB)
  : DB * Response StatusResult :=
  match parse_status raw with
  | None => (db, Error 400 "Invalid status")
  | Some st =>
      match Mongo.findById id db with
      | None => (db, Error 404 "Event not found")
      | Some event =>
          (* event.status = status; await event.save() *)
          let db1 := Mongo.findByIdAndUpdate id st db in
          let '(db2, pUpdated, par, fin1) :=
            match segmentOf event with
            | Some parentId =>
                let children := children_of parentId db1 in
                if all_counted children then
                  let db2 :=
                    Mongo.findByIdAndUpdate parentId
                      (final_status children) db1 in
                  (db2, true, Mongo.findById parentId db2, true)
                else (db1, false, None, false)
            | None => (db1, false, None, false)
            end in
          let '(db3, fin) :=
            match segmentOf event, st with
            | None, completed =>
                let pending c :=
                  segmentOf c = Some (_id event) ∧ status c = None in
                match Mongo.find pending db2 with
                | [] => (db2, fin1)
                | _ :: _ => (Mongo.updateMany pending completed db2, true)
                end
            | _, _ => (db2, fin1)
            end in
          (db3, Json (mkStatusResult (_id event) st pUpdated par fin))
      end
  end.

(** *** [POST /events/:id/split] *)

Record SplitResult := mkSplitResult {
  parentId : N;
  segments : list Event
}.

(** [titles[i]] when it is a non-blank entry, else the numbered title;
    [titlePrefix] and the entries of [titles] are taken already trimmed,
    [None] standing for an absent or blank one. *)
Definition split_title (baseTitle : string) (titles : list (option string))
    (i : Z) : string :=
  match mjoin (titles !! Z.to_nat i) with
  | Some t => t
  | None => segment_title baseTitle i
  end.

Definition split (id : N) (count breakMinutes : option Z)
    (titlePrefix : option string) (titles : list (option string)) (db : DB)
  : DB * Response SplitResult :=
  match Mongo.findById id db with
  | None => (db, Error 404 "Parent event not found")
  | Some par =>
      let s := start par in
      let e := end_ par in
      if bool_decide (¬ s < e) then (db, Error 400 "Invalid parent time range")
      else
        (* Math.max(1, parseInt(count, 10) || 0) *)
        let n := Z.max 1 (default 0 count) in
        if bool_decide (n < 2)
        then (db, Error 400 "Nothing to split (count must be >= 2)")
        else
          let brk := Z.max 0 (default 0 breakMinutes) in
          let totalMinutes := (e - s) / 60000 in
          let usable := totalMinutes - (n - 1) * brk in
          if bool_decide (usable ≤ 0)
          then (db, Error 400 "Breaks too large for given window")
          else
            let plan := build_plan s n brk usable in
            let baseTitle := default (title par) titlePrefix in
            let '(db', children) :=
              create_segments par (split_title baseTitle titles) 0 plan db in
            (db', Json (mkSplitResult (_id par) children))
  end.

(** *** [POST /chat], SPLIT_TASK branch

    [titleMatch] is the case-insensitive regular expression built from
    [guessTitle(text)]; [mCount] and [mBreak] are the numbers captured by
    [/\binto\s+(\d{1,2})\b/] and [/\bwith\s+(\d{1,3})\s*(m|min|minutes?)
    \s*break/], [None] when the pattern does not occur. *)

Definition split_target (uid : N) (titleMatch : string → bool) (db : DB)
  : option Event :=
  Mongo.latest
    (Mongo.find (λ ev, userId ev = uid ∧ titleMatch (title ev) = true
                       ∧ status ev = None) db).

Definition chat_split (uid : N) (titleMatch : string → bool)
    (mCount mBreak : option Z) (db : DB) : DB * Response (list Event) :=
  match split_target uid titleMatch db with
  | None => (db, Message "SPLIT_TASK" "I can not find a task matching <title>.")
  | Some ev =>
      let count := Z.max 2 (default 2 mCount) in
      let breakMinutes := default 0 mBreak in
      let s := start ev in
      let e := end_ ev in
      let totalMinutes := (e - s) / 60000 in
      let usable := totalMinutes - (count - 1) * breakMinutes in
      if bool_decide (usable ≤ 0)
      then (db, Message "SPLIT_TASK" "Breaks too large for the window.")
      else if bool_decide (totalMinutes < 180)
      then (db, Error 400
              "Event/Task must be at least 3 hours (180 minutes) to split.")
      else
        let plan := build_plan s count breakMinutes usable in
        let '(db', children) :=
          create_segments ev (segment_title (title ev)) 0 plan db in
        (db', Json children)
  end.

(** *** [POST /chat], MARK branch

    Both forms of the command first resolve a parent document by title:
    the regular expression on parents, then the token-by-token AND match on
    parents, then a child whose title matches, followed to its parent.
    [titleMatch] and [tokenMatch] are those two tests on a title. *)

Definition resolve_parent (uid : N) (titleMatch tokenMatch : string → bool)
    (db : DB) : option Event :=
  match Mongo.latest (Mongo.find
          (λ ev, userId ev = uid ∧ segmentOf ev = None
                 ∧ titleMatch (title ev) = true) db) with
  | Some p => Some p
  | None =>
      match Mongo.latest (Mongo.find
              (λ ev, userId ev = uid ∧ segmentOf ev = None
                     ∧ tokenMatch (title ev) = true) db) with
      | Some p => Some p
      | None =>
          match Mongo.latest (Mongo.find
                  (λ ev, userId ev = uid ∧ titleMatch (title ev) = true
                         ∧ segmentOf ev ≠ None) db) with
          | Some child => pid ← segmentOf child; Mongo.findById pid db
          | None => None
          end
      end
  end.

(** The replies of the two mark paths, one constructor per message
    template of the source. *)
Inductive MarkReply :=
| Marked (parentId : N) (st : Status) (kids : nat)
    (* "Marked <title> and its <kids> unresolved segment(s) as <st>." *)
| FutureSegments (futureKids : list Event)
    (* "Cannot mark <title> completed because some segment(s) are still in
       the future: ... Mark as missed or wait until they end." *)
| StillFuture (ev : Event)
    (* "Cannot mark <title> as completed — it ends at <end> (still in the
       future)." *)
| SegmentMarked (child : N) (st : Status) (parentFinal : option Status)
    (* "Marked segment <n> of <title> as <st>.", followed by " Parent
       finalized as <final>." when the parent was finalized *)
| SegmentStillFuture (child : Event)
    (* "Cannot mark segment <n> of <title> as completed — it ends at <end>
       (still in the future)." *)
| NoSegments          (* "No segments found for <title>." *)
| SegmentNotFound     (* "Segment <n> not found for <title> ..." *)
| ParentNotFound.     (* "I can't find a parent task matching <title>." *)

(** "mark <title> complete|missed": lines 1253-1301 *)
Definition mark_parent (now : Z) (desiredStatus : Status) (par : Event)
    (db : DB) : DB * MarkReply :=
  let kids := children_of (_id par) db in
  (* parent.status = desiredStatus; await parent.save() *)
  let finish db1 :=
    (Mongo.findByIdAndUpdate (_id par) desiredStatus db1,
     Marked (_id par) desiredStatus (length kids)) in
  match desiredStatus with
  | completed =>
      match filter (λ k, now < end_ k) kids with
      | _ :: _ as futureKids => (db, FutureSegments futureKids)
      | [] =>
          match kids with
          | _ :: _ =>
              finish (Mongo.updateMany
                        (λ c, segmentOf c = Some (_id par)) completed db)
          | [] =>
              if bool_decide (now < end_ par) then (db, StillFuture par)
              else finish db
          end
      end
  | missed =>
      match kids with
      | _ :: _ =>
          finish (Mongo.updateMany
                    (λ c, segmentOf c = Some (_id par) ∧ status c = None)
                    missed db)
      | [] => finish db
      end
  end.

Definition chat_mark (now : Z) (uid : N) (titleMatch tokenMatch : string → bool)
    (desiredStatus : Status) (db : DB) : DB * MarkReply :=
  match resolve_parent uid titleMatch tokenMatch db with
  | None => (db, ParentNotFound)
  | Some par => mark_parent now desiredStatus par db
  end.

(** "mark segment N of <title> complete|missed": lines 1093-1207.

    [.sort({ segmentIndex: 1, start: 1 })] of the fallback orders the
    children by index ([null] first), then by start. *)
Definition seg_le (a b : Event) : Prop :=
  match segmentIndex a, segmentIndex b with
  | None, None => start a ≤ start b
  | None, Some _ => True
  | Some _, None => False
  | Some i, Some j => i < j ∨ (i = j ∧ start a ≤ start b)
  end.

#[global] Instance seg_le_dec a b : Decision (seg_le a b).
Proof.
  unfold seg_le.
  destruct (segmentIndex a), (segmentIndex b); apply _.
Defined.

(** [.sort({ start: 1 })] followed by taking the first document *)
Definition earliest (l : list Event) : option Event :=
  foldl (λ acc e, match acc with
                  | None => Some e
                  | Some a => if start e <? start a then Some e else Some a
                  end) None l.

(** The write of the chosen child and the finalization that follows it,
    the same statements in both branches of the source *)
Definition mark_child (desiredStatus : Status) (par child : Event) (db : DB)
  : DB * MarkReply :=
  let db1 := Mongo.findByIdAndUpdate (_id child) desiredStatus db in
  let siblings := children_of (_id par) db1 in
  if all_counted siblings then
    (Mongo.findByIdAndUpdate (_id par) (final_status siblings) db1,
     SegmentMarked (_id child) desiredStatus (Some (final_status siblings)))
  else (db1, SegmentMarked (_id child) desiredStatus None).

(** The child a segment number designates: the one stored under that
    [segmentIndex], else the one at that position among the sorted
    children *)
Definition choose_segment (segIndex : Z) (par : Event) (db : DB)
  : MarkReply + Event :=
  match earliest (Mongo.find
          (λ c, segmentOf c = Some (_id par) ∧ segmentIndex c = Some segIndex
                ∧ userId c = userId par) db) with
  | Some child => inr child
  | None =>
      let children := merge_sort seg_le (children_of (_id par) db) in
      match children with
      | [] => inl NoSegments
      | _ :: _ =>
          if bool_decide (segIndex < 0 ∨ Z.of_nat (length children) ≤ segIndex)
          then inl SegmentNotFound
          else
            match children !! Z.to_nat segIndex with
            | Some chosen => inr chosen
            | None => inl SegmentNotFound
            end
      end
  end.

(** In both branches the chosen child goes through the end-time rule for
    completed and is then written. *)
Definition mark_segment (now : Z) (segNum : Z) (desiredStatus : Status)
    (par : Event) (db : DB) : DB * MarkReply :=
  (* Math.max(0, segNum - 1) *)
  let segIndex := Z.max 0 (segNum - 1) in
  match choose_segment segIndex par db with
  | inl reply => (db, reply)
  | inr child =>
      if bool_decide (desiredStatus = completed ∧ now < end_ child)
      then (db, SegmentStillFuture child)
      else mark_child desiredStatus par child db
  end.

Definition chat_mark_segment (now : Z) (uid : N)
    (titleMatch tokenMatch : string → bool) (segNum : Z)
    (desiredStatus : Status) (db : DB) : DB * MarkReply :=
  match resolve_parent uid titleMatch tokenMatch db with
  | None => (db, ParentNotFound)
  | Some par => mark_segment now segNum desiredStatus par db
  end.

(** *** dayjs instants in the operating timezone

    [TZ] (default "Asia/Manila") is taken as a zone at a fixed offset
    [tz] milliseconds east of UTC, which Manila (+08:00) is.  An instant is
    its millisecond count; [.add(n, unit)] adds [n] units of fixed length. *)

Definition MS_MINUTE : Z := 60000.
Definition MS_HOUR : Z := 3600000.
Definition MS_DAY : Z := 86400000.

(** Day number of the local calendar date, and milliseconds since local
    midnight *)
Definition local_day (tz t : Z) : Z := (t + tz) / MS_DAY.
Definition local_time (tz t : Z) : Z := (t + tz) mod MS_DAY.

Definition startOfDay (tz t : Z) : Z := t - local_time tz t.
Definition set_hour (tz h t : Z) : Z :=
  t - (local_time tz t / MS_HOUR) * MS_HOUR + h * MS_HOUR.
Definition set_minute (tz m t : Z) : Z :=
  t - ((local_time tz t mod MS_HOUR) / MS_MINUTE) * MS_MINUTE + m * MS_MINUTE.
Definition set_second (tz s t : Z) : Z :=
  t - ((local_time tz t mod MS_MINUTE) / 1000) * 1000 + s * 1000.

(** *** [buildSuggestions]

    A suggestion is [{ start, end, label, hint }]; [label], the formatted
    text of the slot, is not modelled. *)

Record Suggestion := mkSuggestion {
  sg_start : Z;
  sg_end : Z;
  sg_hint : string
}.

(** [conflicts.reduce((acc, c) => ce.isAfter(acc) ? ce : acc, ...)] *)
Definition latest_end (c0 : Event) (conflicts : list Event) : Z :=
  foldl (λ acc c, if acc <? end_ c then end_ c else acc) (end_ c0) conflicts.

Definition buildSuggestions (tz now : Z) (conflicts : list Event)
    (newEventDurationMin : Z) : list Suggestion :=
  match conflicts with
  | [] => []
  | c0 :: _ =>
      let latestEnd := latest_end c0 conflicts in
      let baseStart := if now <? latestEnd then latestEnd else now in
      let dur := Z.max 1 newEventDurationMin in
      let opt1Start := baseStart in
      let opt1End := opt1Start + dur * MS_MINUTE in
      let opt2Start := baseStart + 1 * MS_HOUR in
      let opt2End := opt2Start + dur * MS_MINUTE in
      let opt3Start :=
        set_second tz 0
          (set_minute tz 0
             (set_hour tz 8 (startOfDay tz (now + 1 * MS_DAY)))) in
      let opt3End := opt3Start + dur * MS_MINUTE in
      [ mkSuggestion opt1Start opt1End "After conflict";
        mkSuggestion opt2Start opt2End "+1 hour";
        mkSuggestion opt3Start opt3End "Tomorrow 8:00 AM" ]
  end.

(** *** [POST /chat], ADD_TASK and EDIT_TASK branches

    [tr] is what [parseTimeRange] returned, the title and the attributes
    what the extractors returned. *)

Inductive ChatReply :=
| AddedTask (ev : Event)
| TaskConflict (intent : string) (conflicts : list Event)
    (suggestions : list Suggestion)
| Rescheduled (ev : Event)
| ChatMessage (intent message : string).

Definition chat_add (tz now : Z) (uid : N) (tr : option (Z * Z))
    (ttl : string) (imp urg : Level) (diff : Difficulty) (db : DB)
  : DB * ChatReply :=
  match tr with
  | None =>
      (db, ChatMessage "ADD_TASK" "I could not find a valid time range.")
  | Some (s, e) =>
      if bool_decide (¬ s < e)
      then (db, ChatMessage "ADD_TASK"
                  "Invalid time range: end must be after start.")
      else if bool_decide (¬ now < s)
      then (db, ChatMessage "ADD_TASK"
                  "I can't add an event that starts in the past.")
      else
        match add_conflict uid s e db with
        | Some conflict =>
            let durMin := Z.max 1 ((e - s) `quot` MS_MINUTE) in
            (db, TaskConflict "ADD_TASK_CONFLICT" [conflict]
                   (buildSuggestions tz now [conflict] durMin))
        | None =>
            let '(db', ev) :=
              Mongo.create (new_event ttl s e imp urg diff uid) db in
            (db', AddedTask ev)
        end
  end.

(** [ev.start = ...; ev.end = ...; ev.urgency = ...; await ev.save()] *)
Definition reschedule (s e : Z) (imp urg : Level) (diff : Difficulty)
    (ev : Event) : Event :=
  {| _id := _id ev; title := title ev; start := s; end_ := e;
     importance := imp; urgency := urg; difficulty := diff;
     userId := userId ev; status := status ev;
     isRecurring := isRecurring ev; segmentOf := segmentOf ev;
     segmentIndex := segmentIndex ev |}.

Definition chat_edit (tz now : Z) (uid : N) (titleMatch : string → bool)
    (tr : option (Z * Z)) (imp urg : Level) (diff : Difficulty) (db : DB)
  : DB * ChatReply :=
  match split_target uid titleMatch db with
  | None => (db, ChatMessage "EDIT_TASK" "I can not find a task matching <title>.")
  | Some ev =>
      match tr with
      | None =>
          (db, ChatMessage "EDIT_TASK" "I could not find the new time range.")
      | Some (s, e) =>
          match edit_conflict uid (_id ev) s e db with
          | Some exactConflict =>
              let durMin := Z.max 1 ((e - s) `quot` MS_MINUTE) in
              (db, TaskConflict "EDIT_TASK_CONFLICT" [exactConflict]
                     (buildSuggestions tz now [exactConflict] durMin))
          | None =>
              let ev' := reschedule s e imp urg diff ev in
              ({| docs := (λ d, if decide (_id d = _id ev) then ev' else d)
                            <$> docs db;
                  next_oid := next_oid db |},
               Rescheduled ev')
          end
      end
  end.

(** *** [findMonthDay]

    A dayjs date at local midnight is its civil date; [month] counts from
    0 as in dayjs.  [dayjs.tz({ year, month, date, ... }, TZ)] is read as
    the constructor of that civil date, which like [new Date(y, m, d)]
    carries a day number outside the month over into the neighbouring
    months; the pattern [\d{1,2}] keeps the day in 0..99, for which one
    step back and three steps forward normalise it. *)

Record Civil := mkCivil { year : Z; month : Z; date : Z }.

#[global] Instance Civil_eq_dec : EqDecision Civil.
Proof. solve_decision. Defined.

Definition is_leap (y : Z) : bool :=
  (y mod 4 =? 0) && (negb (y mod 100 =? 0) || (y mod 400 =? 0)).

Definition daysInMonth (y m : Z) : Z :=
  match m with
  | 1 => if is_leap y then 29 else 28
  | 3 | 5 | 8 | 10 => 30
  | _ => 31
  end.

Definition roll_back (c : Civil) : Civil :=
  if date c <? 1 then
    let '(y', m') :=
      if month c =? 0 then (year c - 1, 11) else (year c, month c - 1) in
    mkCivil y' m' (date c + daysInMonth y' m')
  else c.

Definition roll_forward (c : Civil) : Civil :=
  if daysInMonth (year c) (month c) <? date c then
    let '(y', m') :=
      if month c =? 11 then (year c + 1, 0) else (year c, month c + 1) in
    mkCivil y' m' (date c - daysInMonth (year c) (month c))
  else c.

Definition make_date (y m d : Z) : Civil :=
  roll_forward (roll_forward (roll_forward (roll_back (mkCivil y m d)))).

(** [a.isBefore(b, "day")] *)
Definition before_day (a b : Civil) : Prop :=
  year a < year b
  ∨ (year a = year b
     ∧ (month a < month b ∨ (month a = month b ∧ date a < date b))).

#[global] Instance before_day_dec a b : Decision (before_day a b).
Proof. unfold before_day. apply _. Defined.

(** [d.add(1, "year")]: dayjs keeps the month and clamps the day to the
    length of that month in the new year *)
Definition add_year (c : Civil) : Civil :=
  mkCivil (year c + 1) (month c)
    (Z.min (date c) (daysInMonth (year c + 1) (month c))).

Definition monthMapZero : gmap string Z :=
  list_to_map
    [ ("jan", 0); ("january", 0); ("feb", 1); ("february", 1);
      ("mar", 2); ("march", 2); ("apr", 3); ("april", 3); ("may", 4);
      ("jun", 5); ("june", 5); ("jul", 6); ("july", 6);
      ("aug", 7); ("august", 7); ("sep", 8); ("sept", 8); ("september", 8);
      ("oct", 9); ("october", 9); ("nov", 10); ("november", 10);
      ("dec", 11); ("december", 11) ]%string.

Definition lower_ascii (c : ascii) : ascii :=
  let n := nat_of_ascii c in
  if (65 <=? n)%nat && (n <=? 90)%nat then ascii_of_nat (n + 32) else c.

Fixpoint toLowerCase (s : string) : string :=
  match s with
  | EmptyString => EmptyString
  | String c s' => String (lower_ascii c) (toLowerCase s')
  end.

(** The groups of a successful match of the month-day pattern: the month
    word, the day number, the year after a comma when there is one *)
Record MonthDayMatch := mkMatch { m1 : string; m2 : Z; m3 : option Z }.

(** [today] is the civil date of [dayjs().tz(TZ)]. *)
Definition findMonthDay (today : Civil) (m : option MonthDayMatch)
  : option Civil :=
  mt ← m;
  let monKey := toLowerCase (m1 mt) in
  let day := m2 mt in
  let yr := default (year today) (m3 mt) in
  monIdx ← match monthMapZero !! monKey with
           | Some i => Some i
           | None => monthMapZero !! substring 0 3 monKey
           end;
  let d := make_date yr monIdx day in
  Some (if bool_decide (m3 mt = None ∧ before_day d today)
        then add_year d else d).

(** *** [DELETE /events/:id]: the event and its segments *)

Definition delete_event (id : N) (db : DB) : DB * Response string :=
  match Mongo.findById id db with
  | None => (db, Json "Event deleted")
  | Some ev =>
      let db1 := (Mongo.deleteById id db).1 in
      let db2 := (Mongo.deleteMany (λ c, segmentOf c = Some id) db1).1 in
      (db2, Json "Event deleted")
  end.

(** *** [POST /chat], DELETE branch

    [exactMatch], [titleMatch] and [tokenMatch] are the three tests on a
    title built from [guessTitleForDelete]: the anchored expression, the
    plain one, and the token-by-token AND match.  [isSegmentsCmd] tells
    whether the text mentions segments or parts. *)

Inductive DeleteReply :=
| DeletedSegments (parentId : N) (deletedCount : nat)
    (* "Deleted <n> segment(s) for <title>." *)
| DeletedSegment (ev : Event)
    (* "Deleted segment <title>." *)
| DeletedTask (deletedParent : bool) (deletedSegments : nat)
    (* "Deleted <title> and <n> segment(s)." *)
| DeleteNotFound (intent : string).
    (* "I can not find a (parent) task matching <title>." *)

(** The single event a "delete <title>" designates *)
Definition delete_target (uid : N) (exactMatch titleMatch tokenMatch
    : string → bool) (db : DB) : option Event :=
  match Mongo.latest (Mongo.find
          (λ ev, userId ev = uid ∧ exactMatch (title ev) = true) db) with
  | Some ev => Some ev
  | None =>
      match Mongo.latest (Mongo.find
              (λ ev, userId ev = uid ∧ titleMatch (title ev) = true) db) with
      | Some ev => Some ev
      | None =>
          match Mongo.latest (Mongo.find
                  (λ ev, userId ev = uid ∧ tokenMatch (title ev) = true) db)
          with
          | Some ev => Some ev
          | None =>
              Mongo.latest (Mongo.find
                (λ ev, userId ev = uid ∧ titleMatch (title ev) = true
                       ∧ segmentOf ev ≠ None) db)
          end
      end
  end.

Definition chat_delete (uid : N) (isSegmentsCmd : bool)
    (exactMatch titleMatch tokenMatch : string → bool) (db : DB)
  : DB * DeleteReply :=
  if isSegmentsCmd then
    match resolve_parent uid titleMatch tokenMatch db with
    | None => (db, DeleteNotFound "DELETE_SEGMENTS")
    | Some par =>
        let '(db', deleted) :=
          Mongo.deleteMany (λ c, segmentOf c = Some (_id par)) db in
        (db', DeletedSegments (_id par) deleted)
    end
  else
    match delete_target uid exactMatch titleMatch tokenMatch db with
    | None => (db, DeleteNotFound "DELETE_TASK")
    | Some ev =>
        match segmentOf ev with
        | Some _ => ((Mongo.deleteById (_id ev) db).1, DeletedSegment ev)
        | None =>
            let '(db1, delParent) := Mongo.deleteById (_id ev) db in
            let '(db2, delChildren) :=
              Mongo.deleteMany (λ c, segmentOf c = Some (_id ev)) db1 in
            (db2, DeletedTask (bool_decide (0 < delParent)%nat) delChildren)
        end
    end.

(** *** [parseTimeRange]

    The groups of a match of the range pattern
    [(\d{1,2})(?::(\d{2}))?\s*(am|pm)?-(\d{1,2})(?::(\d{2}))?\s*(am|pm)?]
    on the normalised text: two hours, the optional minutes, the optional
    meridiems. *)

Inductive Meridiem := am | pm.

#[global] Instance Meridiem_eq_dec : EqDecision Meridiem.
Proof. solve_decision. Defined.

Record RangeMatch := mkRange {
  rm_h1 : Z; rm_min1 : option Z; rm_ap1 : option Meridiem;
  rm_h2 : Z; rm_min2 : option Z; rm_ap2 : option Meridiem
}.

(** [to24]: 12am is 0, 12pm is 12 *)
Definition to24 (h : Z) (ap : option Meridiem) : Z :=
  match ap with
  | None => h
  | Some a =>
      let base := Z.rem h 12 in
      match a with pm => base + 12 | am => base end
  end.

Definition set_millisecond (tz ms t : Z) : Z :=
  t - (local_time tz t mod 1000) + ms.

(** [day.hour(H).minute(m).second(0).millisecond(0)] *)
Definition at_time (tz day H m : Z) : Z :=
  set_millisecond tz 0 (set_second tz 0 (set_minute tz m (set_hour tz H day))).

(** The last step: both instants, unless the end is not after the start *)
Definition range_at (tz day H1 m1 H2 m2 : Z) : option (Z * Z) :=
  let s := at_time tz day H1 m1 in
  let e := at_time tz day H2 m2 in
  if bool_decide (s < e) then Some (s, e) else None.

Definition parseTimeRange (tz : Z) (m : option RangeMatch) (baseDay : Z)
  : option (Z * Z) :=
  r ← m;
  let h1 := rm_h1 r in
  let min1 := default 0 (rm_min1 r) in
  let ap1 := rm_ap1 r in
  let h2 := rm_h2 r in
  let min2 := default 0 (rm_min2 r) in
  let ap2 := rm_ap2 r in
  let day := startOfDay tz baseDay in
  let H1 := to24 h1 ap1 in
  let H2 := to24 h2 ap2 in
  let '(H1, H2) :=
    if bool_decide (is_Some ap1 ∧ ap2 = None ∧ h2 ≤ 12)
    then (H1, to24 h2 ap1)
    else if bool_decide (ap1 = None ∧ is_Some ap2 ∧ h1 ≤ 12)
    then (to24 h1 ap2, H2)
    else (H1, H2) in
  let '(H1, H2) :=
    if bool_decide (ap1 = None ∧ ap2 = None) then
      if bool_decide ((H1 ≤ 12 ∧ H2 ≤ 12) ∧ H2 ≤ H1) then
        let H2' := if bool_decide (H2 + 12 ≤ 23) then H2 + 12 else H2 in
        let H1' :=
          if bool_decide (H2' ≤ H1 ∧ H1 + 12 ≤ 23) then H1 + 12 else H1 in
        (H1', H2')
      else (H1, H2)
    else (H1, H2) in
  range_at tz day H1 min1 H2 min2.

(** *** [POST /chat], SCHEDULE branch

    [targetDay] is the day [parseRequestedDate] returned, or the default
    day.  [endOf("day")] is the last millisecond of the local day. *)

Definition endOfDay (tz t : Z) : Z := startOfDay tz t + MS_DAY - 1.

(** The query [{ userId, $or: [{ start: { $gte: dayStart, $lte: dayEnd } },
    { end: { $gte: dayStart, $lte: dayEnd } },
    { start: { $lte: dayStart }, end: { $gte: dayEnd } }] }] *)
Definition schedule_query (uid : N) (dayStart dayEnd : Z) (ev : Event)
  : Prop :=
  userId ev = uid
  ∧ ((dayStart ≤ start ev ∧ start ev ≤ dayEnd)
     ∨ (dayStart ≤ end_ ev ∧ end_ ev ≤ dayEnd)
     ∨ (start ev ≤ dayStart ∧ dayEnd ≤ end_ ev)).

#[global] Instance schedule_query_dec uid ds de ev :
  Decision (schedule_query uid ds de ev).
Proof. unfold schedule_query. apply _. Defined.

(** [.sort({ start: 1 })] *)
Definition start_le (a b : Event) : Prop := start a ≤ start b.

#[global] Instance start_le_dec a b : Decision (start_le a b).
Proof. unfold start_le. apply _. Defined.

Definition chat_schedule (tz : Z) (uid : N) (targetDay : Z) (db : DB)
  : list Event :=
  let dayStart := startOfDay tz targetDay in
  let dayEnd := endOfDay tz targetDay in
  merge_sort start_le (Mongo.find (schedule_query uid dayStart dayEnd) db).

(** *** The week of the dashboard and of the productivity report

    [today.day()]: 0 is Sunday; day 0 of the epoch was a Thursday. *)
Definition day_of_week (tz t : Z) : Z := (local_day tz t + 4) mod 7.

(** [today.subtract((dow + 6) % 7, "day").startOf("day")] *)
Definition monday_of (tz now : Z) : Z :=
  let today := startOfDay tz now in
  let dow := day_of_week tz today in
  startOfDay tz (today - ((dow + 6) mod 7) * MS_DAY).

Definition windowStart (tz now : Z) : Z := monday_of tz now.
Definition windowEnd (tz now : Z) : Z :=
  endOfDay tz (monday_of tz now + 6 * MS_DAY).

(** The [$match] stage:
    [{ userId, end: { $gte: windowStart, $lte: windowEnd } }] *)
Definition weekly_match (tz now : Z) (uid : N) (ev : Event) : Prop :=
  userId ev = uid
  ∧ windowStart tz now ≤ end_ ev ∧ end_ ev ≤ windowEnd tz now.

#[global] Instance weekly_match_dec tz now uid ev :
  Decision (weekly_match tz now uid ev).
Proof. unfold weekly_match. apply _. Defined.

(** *** The aggregation of [GET /dashboard/weekly/:userId] and of
    [computeWeeklyProductivity]

    [$dateToString] with [%Y-%m-%d] in the zone names the local date of
    the end, here its day number; [$toString] of an ObjectId is the id. *)

Definition dayKey (tz : Z) (ev : Event) : Z := local_day tz (end_ ev).
(** The [parentId] field of [$addFields] *)
Definition parentId_of (ev : Event) : N := default (_id ev) (segmentOf ev).
Definition isChild (ev : Event) : Prop := segmentOf ev ≠ None.
Definition isCompleted (ev : Event) : Prop := status ev = Some completed.

(** [{ $sum: { $cond: [P, 1, 0] } }] over the documents of a group *)
Definition sum_cond (P : Event → Prop) `{∀ e, Decision (P e)}
  (g : list Event) : Z := Z.of_nat (length (filter P g)).

Record Row := mkRow { r_day : Z; r_completed : Z; r_missed : Z }.

(** The first [$group], by [{ parentId, dayKey }], and the two [$project]
    stages that follow it, for the group of key [k] *)
Definition group_row (tz : Z) (matched : list Event) (k : N * Z) : Row :=
  let g := filter (λ ev, (parentId_of ev, dayKey tz ev) = k) matched in
  let totalChildren := sum_cond isChild g in
  let completedChildren := sum_cond (λ ev, isChild ev ∧ isCompleted ev) g in
  let standaloneCompleted :=
    sum_cond (λ ev, ¬ isChild ev ∧ isCompleted ev) g in
  let standaloneTotal := sum_cond (λ ev, ¬ isChild ev) g in
  let parentCompleted :=
    if 0 <? totalChildren
    then (if completedChildren =? totalChildren then 1 else 0) else 0 in
  let parentMissed :=
    if 0 <? totalChildren
    then (if completedChildren =? totalChildren then 0 else 1) else 0 in
  let standaloneCompleted' :=
    if 0 <? standaloneTotal then standaloneCompleted else 0 in
  let standaloneMissed :=
    if 0 <? standaloneTotal then standaloneTotal - standaloneCompleted
    else 0 in
  mkRow k.2 (parentCompleted + standaloneCompleted')
            (parentMissed + standaloneMissed).

Definition group_stage (tz : Z) (matched : list Event) : list Row :=
  group_row tz matched
  <$> remove_dups ((λ ev, (parentId_of ev, dayKey tz ev)) <$> matched).

Definition sumZ (l : list Z) : Z := foldr Z.add 0 l.

(** The second [$group], by [dayKey] *)
Definition day_stage (rows : list Row) : list Row :=
  (λ d, let g := filter (λ r, r_day r = d) rows in
        mkRow d (sumZ (r_completed <$> g)) (sumZ (r_missed <$> g)))
  <$> remove_dups (r_day <$> rows).

(** The seven buckets, Monday first: each takes the counts of the row of
    its date, or zeros when the aggregation has no row for it *)
Definition weekly_buckets (tz now : Z) (uid : N) (db : DB) : list Row :=
  let rows :=
    day_stage (group_stage tz (Mongo.find (weekly_match tz now uid) db)) in
  (λ i, let d := local_day tz (monday_of tz now) + i in
        match head (filter (λ r, r_day r = d) rows) with
        | Some r => mkRow d (r_completed r) (r_missed r)
        | None => mkRow d 0 0
        end) <$> seqZ 0 7.

Inductive Verdict := NoData | GoodWeek | NeedsWork.

(** [totals] and [verdict] of [computeWeeklyProductivity] *)
Definition verdict (buckets : list Row) : Verdict :=
  let completed := sumZ (r_completed <$> buckets) in
  let missed := sumZ (r_missed <$> buckets) in
  if completed + missed =? 0 then NoData
  else if Z.max 1 missed <=? completed then GoodWeek else NeedsWork.

End Server.

(** ** The server with share requests ([src/server.js]) *)

Module Legacy.

(** [s.includes("-") ? s.split("-")[0] : s] *)
Definition baseId (v : string) : string :=
  if includes_dash v then split_dash_head v else v.

(** *** [POST /events]: the conflict query is an overlap query,
    [{ userId, start: { $lt: e }, end: { $gt: s } }] *)
Definition conflict_query (uid : N) (s e : Z) (db : DB) : option Event :=
  Mongo.findOne (λ ev, userId ev = uid ∧ start ev < e ∧ s < end_ ev) db.

Definition post_events (ttl : string) (s e : Z) (imp urg : Level)
    (diff : option Difficulty) (uid : N) (allowDouble : bool) (db : DB)
  : DB * CreateReply :=
  if bool_decide (e ≤ s) then (db, BadRequest "Invalid date range")
  else
    let conflict := conflict_query uid s e db in
    (* if (conflict && !allowDouble) *)
    match conflict, allowDouble with
    | Some c, false => (db, Duplicate c)
    | _, _ =>
        let '(db', ev) :=
          Mongo.create
            (new_event ttl s e imp urg (default medium diff) uid) db in
        (db', Created ev)
    end.

(** *** [PATCH /events/:id/status]: a child marked completed completes the
    parent when all children are completed; a parent marked completed
    cascades to its children *)

Record StatusResult := mkStatusResult {
  res_id : N;
  res_status : Status;
  parentUpdated : bool;
  parent : option Event;
  updatedChildIds : list N
}.

Definition patch_status (id : N) (raw : string) (db : DB)
  : DB * Response StatusResult :=
  match Server.parse_status raw with
  | None => (db, Error 400 "Invalid status")
  | Some st =>
      match Mongo.findById id db with
      | None => (db, Error 404 "Event not found")
      | Some event =>
          let db1 := Mongo.findByIdAndUpdate id st db in
          let '(db2, par) :=
            match segmentOf event, st with
            | Some parentId, completed =>
                let total :=
                  Mongo.countDocuments (λ c, segmentOf c = Some parentId) db1 in
                let completedN :=
                  Mongo.countDocuments
                    (λ c, segmentOf c = Some parentId
                          ∧ status c = Some completed) db1 in
                if bool_decide (0 < total ∧ completedN = total) then
                  let db2 := Mongo.findByIdAndUpdate parentId completed db1 in
                  (db2, Mongo.findById parentId db2)
                else (db1, None)
            | _, _ => (db1, None)
            end in
          let '(db3, ids) :=
            match segmentOf event, st with
            | None, completed =>
                match Mongo.find (λ c, segmentOf c = Some (_id event)) db2 with
                | [] => (db2, [])
                | children =>
                    (Mongo.updateMany
                       (λ c, segmentOf c = Some (_id event)
                             ∧ status c ≠ Some completed) completed db2,
                     _id <$> children)
                end
            | _, _ => (db2, [])
            end in
          (db3, Json (mkStatusResult (_id event) st
                        (bool_decide (is_Some par)) par ids))
      end
  end.

(** *** [POST /events/:id/split], by count or by duration

    [mode] is the string of the body; the numbers are what [parseInt]
    gives, [None] when it gives [NaN] or the field is absent.  The
    children also get the empty [sharedWith] of this schema, a field the
    record leaves out; they are not recurring, so the post-save hook of
    the schema returns at once for them. *)

Inductive SplitMode := byCount | byDuration | otherMode.

(** The [while] loop of the [byDuration] mode; [guard] counts down from
    10000 *)
Fixpoint duration_loop (guard : nat) (e len brk cursor : Z) : list Slot :=
  match guard with
  | O => []
  | S guard' =>
      if bool_decide (cursor < e) then
        let segEnd := Z.min e (cursor + len * 60 * 1000) in
        if bool_decide (segEnd ≤ cursor) then []
        else mkSlot cursor segEnd
               :: duration_loop guard' e len brk (segEnd + brk * 60 * 1000)
      else []
  end.

Definition split (id : N) (mode : SplitMode)
    (count segmentMinutes breakMinutes : option Z)
    (titlePrefix : option string) (db : DB)
  : DB * Response Server.SplitResult :=
  match Mongo.findById id db with
  | None => (db, Error 404 "Parent event not found")
  | Some par =>
      let s := start par in
      let e := end_ par in
      if bool_decide (¬ s < e) then (db, Error 400 "Invalid parent time range")
      else
        let totalMinutes := (e - s) / (60 * 1000) in
        if bool_decide (totalMinutes ≤ 0)
        then (db, Error 400 "Parent has zero/negative duration")
        else
          let plan : Response (list Slot) :=
            match mode with
            | byCount =>
                let n := Z.max 1 (default 0 count) in
                let brk := Z.max 0 (default 0 breakMinutes) in
                let totalBreaks := (n - 1) * brk in
                let usable := totalMinutes - totalBreaks in
                if bool_decide (usable ≤ 0)
                then Error 400 "Breaks too large for given window"
                else Json (build_plan s n brk usable)
            | byDuration =>
                let len := Z.max 1 (default 0 segmentMinutes) in
                let brk := Z.max 0 (default 0 breakMinutes) in
                match duration_loop (Z.to_nat 10000) e len brk s with
                | [] => Error 400 "No segments fit in the window"
                | plan => Json plan
                end
            | otherMode =>
                Error 400 "mode must be 'byCount' or 'byDuration'"
            end in
          match plan with
          | Json plan =>
              let baseTitle := default (title par) titlePrefix in
              let '(db', children) :=
                create_segments par (segment_title baseTitle) 0 plan db in
              (db', Json (Server.mkSplitResult (_id par) children))
          | Error code msg => (db, Error code msg)
          | Message i msg => (db, Message i msg)
          end
  end.

(** *** [GET /dashboard/weekly/:userId]: the last seven days

    The bucket of the local day [d]: the resolved events of the user that
    end in the window on that day and are not the parent of any segment
    in the collection. *)

Definition parentIdsWithChildren (db : DB) : list N :=
  omap segmentOf (Mongo.find (λ c, segmentOf c ≠ None) db).

Definition owned (tz now : Z) (uid : N) (db : DB) : list Event :=
  let today := Server.startOfDay tz now in
  let windowStart := Server.startOfDay tz (today - 6 * Server.MS_DAY) in
  let windowEnd := Server.endOfDay tz today in
  Mongo.find (λ ev, userId ev = uid
                    ∧ (windowStart ≤ end_ ev ∧ end_ ev ≤ windowEnd)
                    ∧ (status ev = Some completed ∨ status ev = Some missed))
    db.

(** One step of the [forEach]: the bucket of the event's day, if there is
    one, counts the event *)
Definition count_event (tz : Z) (buckets : list Server.Row) (ev : Event)
  : list Server.Row :=
  let key := Server.local_day tz (end_ ev) in
  match list_find (λ b, Server.r_day b = key) buckets with
  | None => buckets
  | Some (i, b) =>
      let b1 :=
        if decide (status ev = Some completed)
        then Server.mkRow (Server.r_day b) (Server.r_completed b + 1)
               (Server.r_missed b)
        else b in
      let b2 :=
        if decide (status ev = Some missed)
        then Server.mkRow (Server.r_day b1) (Server.r_completed b1)
               (Server.r_missed b1 + 1)
        else b1 in
      <[i := b2]> buckets
  end.

Definition dashboard_weekly (tz now : Z) (uid : N) (db : DB)
  : list Server.Row :=
  let today := Server.startOfDay tz now in
  let withChildren := parentIdsWithChildren db in
  let buckets :=
    (λ i, Server.mkRow
            (Server.local_day tz (today - (6 - i) * Server.MS_DAY)) 0 0)
    <$> seqZ 0 7 in
  foldl (count_event tz) buckets
    (filter (λ ev, _id ev ∉ withChildren) (owned tz now uid db)).

(** *** [PATCH /share-requests/:id/respond]: what the answer does to the
    events

    [src] is the populated [request.eventId], [None] when the event is
    gone, [recipient] the populated [request.recipientId._id].  The status
    of the request lives in the collection of the requests, not here. *)

Inductive Choice := keep | replace | decline | otherChoice.

Inductive RespondReply :=
| Declined                 (* "Request declined" *)
| SourceNotFound           (* 404 "Source event not found" *)
| Kept (event : Event)     (* "Event kept alongside existing" *)
| Replaced (event : Event) (* "Conflicts replaced with incoming" *)
| InvalidChoice.           (* 400 "Invalid choice" *)

(** The copy made for the recipient: the schema defaults apply to the
    fields that are not given, so the copy is not recurring and the
    post-save hook of the schema returns at once for it *)
Definition incoming (src : Event) (recipient : N) (oid : N) : Event :=
  new_event (title src) (start src) (end_ src) (importance src)
    (urgency src) (difficulty src) recipient oid.

Definition respond (choice : Choice) (src : option Event) (recipient : N)
    (db : DB) : DB * RespondReply :=
  match choice with
  | decline => (db, Declined)
  | _ =>
      match src with
      | None => (db, SourceNotFound)
      | Some src =>
          match choice with
          | keep =>
              let '(db', newEvent) :=
                Mongo.create (incoming src recipient) db in
              (db', Kept newEvent)
          | replace =>
              let '(db1, _) :=
                Mongo.deleteMany
                  (λ ev, userId ev = recipient ∧ start ev < end_ src
                         ∧ start src < end_ ev) db in
              let '(db', newEvent) :=
                Mongo.create (incoming src recipient) db1 in
              (db', Replaced newEvent)
          | _ => (db, InvalidChoice)
          end
      end
  end.

End Legacy.

(** ** Vocabulary of the statements *)

(** [totalMinutes = Math.floor((e - s) / 60000)] of a parent, the minutes
    of one child, and of a list of children *)
Definition totalMinutes (par : Event) : Z := (end_ par - start par) / 60000.
Definition segment_minutes (c : Event) : Z := (end_ c - start c) / 60000.
Definition total_segment_minutes (cs : list Event) : Z :=
  foldr (λ c acc, segment_minutes c + acc) 0 cs.
Definition slot_of (c : Event) : Slot := mkSlot (start c) (end_ c).

(** What the split of [par] into [n] segments with breaks of [b] minutes
    conserves: the count, the minutes, and where the last segment ends. *)
Definition conserves (par : Event) (n b : Z) (cs : list Event) : Prop :=
  Z.of_nat (length cs) = n
  ∧ total_segment_minutes cs + (n - 1) * b = totalMinutes par
  ∧ end_ <$> last cs = Some (start par + totalMinutes par * 60000).

Definition resolved (c : Event) : Prop := status c ≠ None.
Definition pending (c : Event) : Prop := status c = None.

(** The status a parent takes at finalization: completed when no child is
    missed, else missed *)
Definition finalization (kids : list Event) : Status :=
  if decide (Forall (λ c, status c ≠ Some missed) kids)
  then completed else missed.

(** The two notions of conflict with a candidate [{ ownerId, start, end }] *)
Definition exact_match (uid : N) (s e : Z) (c : Event) : Prop :=
  userId c = uid ∧ start c = s ∧ end_ c = e.
Definition overlaps (uid : N) (s e : Z) (c : Event) : Prop :=
  userId c = uid ∧ start c < e ∧ s < end_ c.

(** The conflicting events a reply reports *)
Definition reported (r : CreateReply) : list Event :=
  match r with Duplicate c => [c] | _ => [] end.
Definition chat_reported (r : Server.ChatReply) : list Event :=
  match r with Server.TaskConflict _ cs _ => cs | _ => [] end.

(** No child has children: whenever [c] names [p] as its parent, [p] is
    not itself a segment. *)
Definition two_level (db : DB) : Prop :=
  Forall (λ c, Forall (λ p, segmentOf c = Some (_id p) → segmentOf p = None)
                 (docs db)) (docs db).

(** [L] is the latest end among the conflicts. *)
Definition latest_conflict_end (L : Z) (conflicts : list Event) : Prop :=
  (∃ c, c ∈ conflicts ∧ end_ c = L) ∧ Forall (λ c, end_ c ≤ L) conflicts.

(** What marking the parent [pid] missed does to one document: the parent
    itself and its pending children become missed, every other document
    stays as it is. *)
Definition cascade_missed (pid : N) (c : Event) : Event :=
  if decide (_id c = pid) then set_status (Some missed) c
  else if decide (segmentOf c = Some pid ∧ status c = None)
       then set_status (Some missed) c
       else c.

(** One document before and after a status operation: unchanged, or, if
    the operation may touch it, the same document with a resolved status *)
Definition status_step (touch : Event → Prop) (c c' : Event) : Prop :=
  c' = c ∨ (touch c ∧ ∃ st, c' = set_status (Some st) c).

(** The documents a status update of [id] (found as [ev]) may touch: the
    marked one, its parent, and its pending children *)
Definition patch_touches (id : N) (ev : Event) (c : Event) : Prop :=
  _id c = id ∨ segmentOf ev = Some (_id c)
  ∨ (segmentOf c = Some id ∧ status c = None).

(** ... the status update of [src/server.js]: the marked one, its parent,
    and its children that are not completed *)
Definition legacy_touches (id : N) (ev : Event) (c : Event) : Prop :=
  _id c = id ∨ segmentOf ev = Some (_id c)
  ∨ (segmentOf c = Some id ∧ status c ≠ Some completed).

(** ... a chat mark of the parent [par]: the parent, and its children, all
    of them for completed, the pending ones for missed *)
Definition mark_touches (st : Status) (par : Event) (c : Event) : Prop :=
  _id c = _id par
  ∨ (segmentOf c = Some (_id par) ∧ (st = completed ∨ status c = None)).

(** ... a chat mark of the segment [child] of [par] *)
Definition segment_touches (par child : Event) (c : Event) : Prop :=
  _id c = _id child ∨ _id c = _id par.

(** A well-formed collection: ids are unique, and every id and every
    parent reference was handed out before [next_oid]. *)
Definition store_wf (db : DB) : Prop :=
  NoDup (_id <$> docs db)
  ∧ Forall (λ c, (_id c < next_oid db)%N
                 ∧ ∀ p, segmentOf c = Some p → (p < next_oid db)%N) (docs db).

(** ** Sample documents *)

(** A document of user 7 with the given id, interval, status and parent *)
Definition sample (i : N) (ttl : string) (s e : Z) (st : option Status)
    (p : option N) (k : option Z) : Event :=
  mkEvent i ttl s e high low medium 7 st false p k.

(** A 200-minute task *)
Definition task200 : Event :=
  sample 1 "Study react" 0 (200 * 60000) None None None.
Definition db200 : DB := mkDB [task200] 2.

(** The birthday event that [/signup] creates, from 08:00:00.000 to the
    [endOf("day")], 23:59:59.999: 959 minutes and 59.999 seconds *)
Definition birthday : Event :=
  sample 1 "Ana's Birthday" 0 57599999 None None None.
Definition db_birthday : DB := mkDB [birthday] 2.

(** A 10-hour parent (id 1) with three 200-minute segments (ids 2, 3, 4)
    in the given statuses *)
Definition segment (i : N) (k : Z) (st : option Status) : Event :=
  sample i "Study react — Segment" (k * 200 * 60000) ((k + 1) * 200 * 60000)
    st (Some 1%N) (Some k).
Definition family (p a b c : option Status) : DB :=
  mkDB [ sample 1 "Study react" 0 (600 * 60000) p None None;
         segment 2 0 a; segment 3 1 b; segment 4 2 c ] 5.

(** The status stored under an id *)
Definition status_of (id : N) (db : DB) : option Status :=
  Mongo.findById id db ≫= status.

(** One event of user 7 over [[s, e)], alone in the collection *)
Definition booked (s e : Z) : Event :=
  sample 1 "Standup" s e None None None.
Definition db_booked (s e : Z) : DB := mkDB [booked s e] 2.

(** Tasks of 179, 180 and 400 minutes, and the 400-minute task after a
    split in two *)
Definition task179 : Event :=
  sample 1 "Study react" 0 (179 * 60000) None None None.
Definition db179 : DB := mkDB [task179] 2.
Definition task180 : Event :=
  sample 1 "Study react" 0 (180 * 60000) None None None.
Definition db180 : DB := mkDB [task180] 2.
Definition task400 : Event :=
  sample 1 "Study react" 0 (400 * 60000) None None None.
Definition db400 : DB := mkDB [task400] 2.
Definition db400_split : DB :=
  (Server.split 1 (Some 2) (Some 0) None [] db400).1.

(** The title test of "split study react": the expression /Study react/i
    on the titles of the samples *)
Definition study_react (ttl : string) : bool :=
  String.prefix "Study react" ttl.

(** A completed standalone task *)
Definition db_done : DB :=
  mkDB [sample 1 "Standup" 0 3600000 (Some completed) None None] 2.

(** ** Vocabulary of the further statements *)

(** What marking the event [id] completed through the status update does
    to one document: the event and its pending children become completed *)
Definition cascade_completed (id : N) (c : Event) : Event :=
  if decide (_id c = id) then set_status (Some completed) c
  else if decide (segmentOf c = Some id ∧ status c = None)
       then set_status (Some completed) c
       else c.

(** ... and what it does in the chat path and in [src/server.js]: the
    event and all its children become completed *)
Definition complete_family (id : N) (c : Event) : Event :=
  if decide (_id c = id ∨ segmentOf c = Some id)
  then set_status (Some completed) c else c.

(** The write of a single status *)
Definition mark_one (id : N) (st : Status) (c : Event) : Event :=
  if decide (_id c = id) then set_status (Some st) c else c.

(** The success payload of a reply, if it is one *)
Definition payload {A} (r : Response A) : option A :=
  match r with Json a => Some a | _ => None end.

(** A mark reply that reports a write *)
Definition mark_written (r : Server.MarkReply) : bool :=
  match r with
  | Server.Marked _ _ _ | Server.SegmentMarked _ _ _ => true
  | _ => false
  end.


(** ** Sample time ranges

    The range patterns of [2-4pm], [2-4], [4-2] and [11-1pm]. *)
Definition range_2_4pm : Server.RangeMatch :=
  Server.mkRange 2 None None 4 None (Some Server.pm).
Definition range_2_4 : Server.RangeMatch :=
  Server.mkRange 2 None None 4 None None.
Definition range_4_2 : Server.RangeMatch :=
  Server.mkRange 4 None None 2 None None.
Definition range_11_1pm : Server.RangeMatch :=
  Server.mkRange 11 None None 1 None (Some Server.pm).

(** The offset of Asia/Manila, the [TZ] of the server *)
Definition manila : Z := 8 * 3600000.


(** ** Vocabulary of the weekly report *)

(** The documents the [$match] stage lets through *)
Definition week_matched (tz now : Z) (uid : N) (db : DB) : list Event :=
  Mongo.find (Server.weekly_match tz now uid) db.

(** The tasks that have a segment ending on the local day [d] *)
Definition split_parents_on (tz : Z) (matched : list Event) (d : Z)
  : list N :=
  remove_dups
    (omap (λ ev, if decide (Server.dayKey tz ev = d) then segmentOf ev
                 else None) matched).

(** Every segment of [p] that ends on day [d] is completed *)
Definition segments_done_on (tz : Z) (matched : list Event) (d : Z) (p : N)
  : Prop :=
  Forall (λ ev, segmentOf ev = Some p → Server.dayKey tz ev = d →
                Server.isCompleted ev) matched.

#[global] Instance segments_done_on_dec tz matched d p :
  Decision (segments_done_on tz matched d p).
Proof. unfold segments_done_on, Server.isCompleted. apply _. Defined.

(** A week of user 7: a completed split task [p] whose two segments end on
    the same day, and a pending standalone task on the next day.  The
    present moment is 1000 ms into the epoch, a Thursday. *)
Definition db_week : DB :=
  mkDB [sample 1 "Study react" 0 7200000 (Some completed) None None;
        sample 2 "Study react (seg 1)" 0 3600000 (Some completed) (Some 1%N)
          (Some 0);
        sample 3 "Study react (seg 2)" 3600000 7200000 (Some completed)
          (Some 1%N) (Some 1);
        sample 4 "Gym" 86400000 90000000 None None None] 5.


(** The buckets carry the consecutive days from [D0] on *)
Definition consecutive (D0 : Z) (bs : list Server.Row) : Prop :=
  ∀ i b, bs !! i = Some b → Server.r_day b = D0 + Z.of_nat i.

(** What a bucket of the last seven days counts for day [d] and status
    [st]: the events of the user with that status that end on that day
    and that no document names as its parent *)
Definition counted_on (tz : Z) (uid : N) (db : DB) (d : Z) (st : Status)
    (ev : Event) : Prop :=
  userId ev = uid ∧ status ev = Some st
  ∧ Server.local_day tz (end_ ev) = d
  ∧ Forall (λ c, segmentOf c ≠ Some (_id ev)) (docs db).

#[global] Instance counted_on_dec tz uid db d st ev :
  Decision (counted_on tz uid db d st ev).
Proof. unfold counted_on. apply _. Defined.

(** Two days of user 7: a completed task with two segments, one completed
    and one missed, and a missed standalone task *)
Definition db_days : DB :=
  mkDB [sample 1 "Study react" 0 7200000 (Some completed) None None;
        sample 2 "Study react (seg 1)" 0 3600000 (Some completed) (Some 1%N)
          (Some 0);
        sample 3 "Study react (seg 2)" 3600000 7200000 (Some missed)
          (Some 1%N) (Some 1);
        sample 4 "Gym" 86400000 90000000 (Some missed) None None] 5.


(** * Properties *)

(** A handler has answered: its result pair is the one in the goal. *)
Local Ltac answered := intros [= <- <-].

(** ** Segmentation *)

Section PlanLoop.

Variables (n baseSeg brk : Z).

Lemma plan_loop_length k i r c :
  length (plan_loop k i n baseSeg brk r c) = k.
Proof.
  revert i r c. induction k as [|k IH]; intros i r c; simpl; [done|].
  by rewrite IH.
Qed.

(** Minutes covered by the segments: [k] base lengths plus one extra
    minute for each of the first [min remainder k] segments. *)
Lemma plan_loop_minutes k i r c :
  0 ≤ r →
  plan_minutes (plan_loop k i n baseSeg brk r c)
  = Z.of_nat k * baseSeg + Z.min r (Z.of_nat k).
Proof.
  revert i r c. induction k as [|k IH]; intros i r c Hr.
  - simpl. lia.
  - cbn [plan_loop plan_minutes foldr].
    fold (plan_minutes (plan_loop k (i + 1) n baseSeg brk
                     (if 0 <? r then r - 1 else r)
                     (if i <? n - 1
                      then c + (baseSeg + (if 0 <? r then 1 else 0)) * 60000
                           + brk * 60000
                      else c + (baseSeg + (if 0 <? r then 1 else 0)) * 60000))).
    unfold slot_minutes at 1. cbn [startMs endMs].
    replace (c + (baseSeg + (if 0 <? r then 1 else 0)) * 60000 - c)
      with ((baseSeg + (if 0 <? r then 1 else 0)) * 60000) by lia.
    rewrite Z.div_mul by lia.
    destruct (Z.ltb_spec 0 r); rewrite IH by lia; lia.
Qed.

(** The end of the last segment: the cursor has advanced over every
    segment and over the [k] breaks between the [k + 1] segments. *)
Lemma plan_loop_last k i r c :
  0 ≤ r → i + Z.of_nat (S k) = n →
  endMs <$> last (plan_loop (S k) i n baseSeg brk r c)
  = Some (c + (Z.of_nat (S k) * baseSeg + Z.min r (Z.of_nat (S k))) * 60000
            + Z.of_nat k * brk * 60000).
Proof.
  revert i r c. induction k as [|k IH]; intros i r c Hr Hi.
  - cbn [plan_loop last fmap option_fmap option_map endMs].
    destruct (Z.ltb_spec 0 r); f_equal; lia.
  - specialize (IH (i + 1) (if 0 <? r then r - 1 else r)
              (if i <? n - 1
               then c + (baseSeg + (if 0 <? r then 1 else 0)) * 60000
                    + brk * 60000
               else c + (baseSeg + (if 0 <? r then 1 else 0)) * 60000)).
    cbn [plan_loop] in IH |- *. rewrite last_cons_cons, IH.
    + destruct (Z.ltb_spec i (n - 1)); [|lia].
      destruct (Z.ltb_spec 0 r); f_equal; lia.
    + destruct (Z.ltb_spec 0 r); lia.
    + lia.
Qed.

End PlanLoop.

Lemma build_plan_length s n brk usable :
  0 ≤ n → Z.of_nat (length (build_plan s n brk usable)) = n.
Proof. intros. unfold build_plan. rewrite plan_loop_length. lia. Qed.

Lemma build_plan_minutes s n brk usable :
  0 < n → 0 ≤ usable → plan_minutes (build_plan s n brk usable) = usable.
Proof.
  intros Hn Hu. unfold build_plan.
  rewrite Z.rem_mod_nonneg by lia.
  pose proof (Z.mod_pos_bound usable n Hn) as Hm.
  rewrite plan_loop_minutes by lia.
  rewrite Z2Nat.id by lia.
  pose proof (Z.div_mod usable n ltac:(lia)). lia.
Qed.

Lemma build_plan_last s n brk usable :
  0 < n → 0 ≤ usable →
  endMs <$> last (build_plan s n brk usable)
  = Some (s + usable * 60000 + (n - 1) * brk * 60000).
Proof.
  intros Hn Hu. unfold build_plan.
  rewrite Z.rem_mod_nonneg by lia.
  pose proof (Z.mod_pos_bound usable n Hn) as Hm.
  destruct (Z.to_nat n) as [|k] eqn:Hk; [lia|].
  rewrite plan_loop_last by lia.
  pose proof (Z.div_mod usable n ltac:(lia)).
  f_equal. nia.
Qed.

(** The children that [create_segments] inserts are the slots of the plan,
    appended to the collection with fresh ids. *)
Lemma create_segments_spec par titleOf plan : ∀ i db,
  let '(db', cs) := create_segments par titleOf i plan db in
  slot_of <$> cs = plan
  ∧ docs db' = docs db ++ cs
  ∧ next_oid db' = (next_oid db + N.of_nat (length plan))%N
  ∧ Forall (λ c, segmentOf c = Some (_id par) ∧ status c = None
                 ∧ userId c = userId par) cs
  ∧ Forall (λ c, (next_oid db ≤ _id c)%N) cs.
Proof.
  induction plan as [|sl plan IH]; intros i db.
  - simpl. rewrite app_nil_r. repeat split; [lia|constructor..].
  - cbn [create_segments Mongo.create].
    specialize (IH (i + 1) {|
      docs := docs db ++ [{| _id := next_oid db; title := titleOf i;
        start := startMs sl; end_ := endMs sl;
        importance := importance par; urgency := urgency par;
        difficulty := difficulty par; userId := userId par;
        status := None; isRecurring := false;
        segmentOf := Some (_id par); segmentIndex := Some i |}];
      next_oid := N.succ (next_oid db) |}).
    destruct (create_segments par titleOf (i + 1) plan _) as [db2 cs].
    destruct IH as (Hs & Hd & Hn & Hf & Hfresh). cbn [docs next_oid] in *.
    repeat split.
    + rewrite fmap_cons, Hs. by destruct sl.
    + rewrite Hd, <- app_assoc. done.
    + rewrite Hn. cbn [length]. lia.
    + constructor; [done|exact Hf].
    + constructor; [cbn; lia|].
      eapply Forall_impl; [exact Hfresh|]. cbn. intros c Hc. lia.
Qed.

Lemma total_segment_minutes_plan cs :
  total_segment_minutes cs = plan_minutes (slot_of <$> cs).
Proof. induction cs as [|c cs IH]; simpl; [done|]. by rewrite IH. Qed.

Lemma last_slot_of cs : endMs <$> last (slot_of <$> cs) = end_ <$> last cs.
Proof. rewrite fmap_last. by destruct (last cs). Qed.

(** The children of a plan built for a positive [usable] conserve the
    minutes of the parent. *)
Lemma conserves_plan par n b cs :
  2 ≤ n → 0 ≤ b → 0 < totalMinutes par - (n - 1) * b →
  slot_of <$> cs
  = build_plan (start par) n b (totalMinutes par - (n - 1) * b) →
  conserves par n b cs.
Proof.
  intros Hn Hb Hu Hcs. unfold conserves.
  rewrite total_segment_minutes_plan, <- last_slot_of, Hcs.
  rewrite build_plan_minutes, build_plan_last by lia.
  rewrite <- (length_fmap slot_of), Hcs, build_plan_length by lia.
  repeat split; [lia|]. f_equal. lia.
Qed.

Lemma last_end_bounds par :
  end_ par - 60000 < start par + totalMinutes par * 60000 ≤ end_ par
  ∧ ((end_ par - start par) mod 60000 = 0 →
     start par + totalMinutes par * 60000 = end_ par).
Proof.
  unfold totalMinutes.
  pose proof (Z.div_mod (end_ par - start par) 60000 ltac:(lia)).
  pose proof (Z.mod_pos_bound (end_ par - start par) 60000 ltac:(lia)).
  lia.
Qed.

Lemma split_accepts par n b db id titlePrefix titles :
  start par < end_ par → 2 ≤ n → 0 ≤ b →
  0 < totalMinutes par - (n - 1) * b →
  Mongo.findById id db = Some par →
  ∃ db' cs,
    Server.split id (Some n) (Some b) titlePrefix titles db
    = (db', Json (Server.mkSplitResult (_id par) cs))
    ∧ docs db' = docs db ++ cs
    ∧ slot_of <$> cs
      = build_plan (start par) n b (totalMinutes par - (n - 1) * b).
Proof.
  intros Hr Hn Hb Hu Hf. unfold Server.split. rewrite Hf.
  cbv zeta. cbn [default from_option Datatypes.id]. rewrite !Z.max_r by lia.
  fold (totalMinutes par).
  rewrite !bool_decide_eq_false_2 by lia.
  pose proof (create_segments_spec par
    (Server.split_title (default (title par) titlePrefix) titles)
    (build_plan (start par) n b (totalMinutes par - (n - 1) * b)) 0 db) as Hc.
  destruct (create_segments _ _ _ _ _) as [db' cs].
  destruct Hc as (Hs & Hd & _ & _). eauto.
Qed.

Lemma chat_split_accepts par n b db uid titleMatch :
  2 ≤ n → 0 ≤ b → 0 < totalMinutes par - (n - 1) * b →
  180 ≤ totalMinutes par →
  Server.split_target uid titleMatch db = Some par →
  ∃ db' cs,
    Server.chat_split uid titleMatch (Some n) (Some b) db = (db', Json cs)
    ∧ docs db' = docs db ++ cs
    ∧ slot_of <$> cs
      = build_plan (start par) n b (totalMinutes par - (n - 1) * b).
Proof.
  intros Hn Hb Hu Hmin Hf. unfold Server.chat_split. rewrite Hf.
  cbv zeta. cbn [default from_option Datatypes.id]. rewrite Z.max_r by lia.
  fold (totalMinutes par).
  rewrite !bool_decide_eq_false_2 by lia.
  pose proof (create_segments_spec par (segment_title (title par))
    (build_plan (start par) n b (totalMinutes par - (n - 1) * b)) 0 db) as Hc.
  destruct (create_segments _ _ _ _ _) as [db' cs].
  destruct Hc as (Hs & Hd & _ & _). eauto.
Qed.

(** C1, as amended.  For a parent with [end > start], a count [n >= 2], a
    break [b >= 0] and positive usable minutes, both split paths (the chat
    path when the parent also has its 180 minutes) return [n] segments
    whose minutes plus the [n - 1] breaks are exactly
    [totalMinutes = floor((end - start) / 60000)]; the last segment ends at
    [start + totalMinutes] minutes, which is the parent's end when the
    parent lasts a whole number of minutes and less than a minute before
    it otherwise. *)
Theorem split_conserves_minutes (par : Event) (n b : Z)
    (Hrange : start par < end_ par) (Hn : 2 ≤ n) (Hb : 0 ≤ b)
    (Husable : 0 < totalMinutes par - (n - 1) * b) :
  (∀ db id titlePrefix titles,
      Mongo.findById id db = Some par →
      ∃ db' r,
        Server.split id (Some n) (Some b) titlePrefix titles db
        = (db', Json r)
        ∧ conserves par n b (Server.segments r))
  ∧ (∀ db uid titleMatch,
      Server.split_target uid titleMatch db = Some par →
      180 ≤ totalMinutes par →
      ∃ db' cs,
        Server.chat_split uid titleMatch (Some n) (Some b) db = (db', Json cs)
        ∧ conserves par n b cs)
  ∧ end_ par - 60000 < start par + totalMinutes par * 60000 ≤ end_ par
  ∧ ((end_ par - start par) mod 60000 = 0 →
     start par + totalMinutes par * 60000 = end_ par).
Proof.
  split; [|split; [|apply last_end_bounds]].
  - intros db id tp titles Hf.
    destruct (split_accepts par n b db id tp titles) as (db' & cs & He & _ & Hs);
      try done.
    exists db', (Server.mkSplitResult (_id par) cs). split; [done|].
    by apply conserves_plan.
  - intros db uid tm Hf Hmin.
    destruct (chat_split_accepts par n b db uid tm) as (db' & cs & He & _ & Hs);
      try done.
    exists db', cs. split; [done|]. by apply conserves_plan.
Qed.

Lemma split_conserves_minutes_witness :
  ∃ db' r,
    Server.split 1 (Some 3) (Some 10) None [] db200 = (db', Json r)
    ∧ conserves task200 3 10 (Server.segments r).
Proof.
  refine (proj1 (split_conserves_minutes task200 3 10 _ _ _ _)
            db200 1%N None [] _);
    vm_compute; (reflexivity || discriminate).
Defined.

(** C1 as stated fails: the birthday event has [end > start], and with
    [n = 2], [b = 0] its usable minutes are 959, yet the last of the two
    segments ends at 23:59:00.000, not at the parent's 23:59:59.999. *)
Lemma split_last_end_counterexample :
  start birthday < end_ birthday
  ∧ 0 < totalMinutes birthday - (2 - 1) * 0
  ∧ ∃ db' r,
      Server.split 1 (Some 2) (Some 0) None [] db_birthday = (db', Json r)
      ∧ total_segment_minutes (Server.segments r) + (2 - 1) * 0
        = totalMinutes birthday
      ∧ end_ <$> last (Server.segments r) = Some 57540000
      ∧ end_ <$> last (Server.segments r) ≠ Some (end_ birthday).
Proof.
  split; [by vm_compute|]. split; [by vm_compute|].
  eexists _, _. split; [vm_compute; reflexivity|].
  split; [by vm_compute|]. split; [by vm_compute|].
  vm_compute. discriminate.
Qed.

(** ** The store *)

Section Store.

Context (P : Event → Prop) `{∀ e, Decision (P e)}.

Lemma findOne_Some db c :
  Mongo.findOne P db = Some c → c ∈ docs db ∧ P c.
Proof.
  unfold Mongo.findOne, Mongo.find. intros Hh.
  apply head_Some_elem_of in Hh. apply list_elem_of_filter in Hh. tauto.
Qed.

Lemma findOne_None db :
  Mongo.findOne P db = None ↔ ∀ c, c ∈ docs db → ¬ P c.
Proof.
  unfold Mongo.findOne, Mongo.find. rewrite head_None. split.
  - intros Hnil c Hc HP. by eapply filter_nil_not_elem_of.
  - intros Hall. induction (docs db) as [|x l IH]; [done|].
    rewrite filter_cons_False by (apply Hall; left).
    apply IH. intros c Hc. apply Hall. by right.
Qed.

Lemma length_filter_all (l : list Event) :
  length (filter P l) = length l ↔ Forall P l.
Proof.
  induction l as [|x l IH]; [by split; [constructor|]|].
  destruct (decide (P x)) as [Hx|Hx].
  - rewrite filter_cons_True by done. cbn [length].
    rewrite Forall_cons. split.
    + intros Hl. split; [done|]. apply IH. lia.
    + intros [_ Hl]. f_equal. by apply IH.
  - rewrite filter_cons_False by done. cbn [length].
    pose proof (length_filter P l). split; [lia|].
    intros Hl. by apply Forall_cons in Hl as [? _].
Qed.

Lemma length_filter_none (l : list Event) :
  length (filter P l) = 0%nat ↔ Forall (λ c, ¬ P c) l.
Proof.
  induction l as [|x l IH]; [by split; [constructor|]|].
  destruct (decide (P x)) as [Hx|Hx].
  - rewrite filter_cons_True by done. cbn [length]. split; [lia|].
    intros Hl. by apply Forall_cons in Hl as [? _].
  - rewrite filter_cons_False by done. rewrite Forall_cons. tauto.
Qed.

End Store.

(** A write by id is seen by a later read of that id, and by no other. *)
Lemma findById_update_same id st db :
  Mongo.findById id (Mongo.findByIdAndUpdate id st db)
  = set_status (Some st) <$> Mongo.findById id db.
Proof.
  unfold Mongo.findById, Mongo.findOne, Mongo.find, Mongo.findByIdAndUpdate,
    Mongo.updateMany. cbn [docs].
  induction (docs db) as [|x l IH]; [done|].
  rewrite fmap_cons. destruct (decide (_id x = id)) as [Hx|Hx].
  - by rewrite !filter_cons_True by done.
  - by rewrite !filter_cons_False by done.
Qed.

Lemma findById_update_other id id' st db :
  id' ≠ id →
  Mongo.findById id' (Mongo.findByIdAndUpdate id st db) = Mongo.findById id' db.
Proof.
  intros Hne.
  unfold Mongo.findById, Mongo.findOne, Mongo.find, Mongo.findByIdAndUpdate,
    Mongo.updateMany. cbn [docs].
  induction (docs db) as [|x l IH]; [done|].
  rewrite fmap_cons. destruct (decide (_id x = id)) as [Hx|Hx].
  - rewrite !filter_cons_False by (cbn; congruence). done.
  - destruct (decide (_id x = id')) as [Hx'|Hx'].
    + by rewrite !filter_cons_True by done.
    + by rewrite !filter_cons_False by done.
Qed.

(** ** Finalization of a parent from its children *)

Lemma count_partition (l : list Event) :
  Server.count_status completed l + Server.count_status missed l
  + Z.of_nat (length (filter pending l)) = Z.of_nat (length l).
Proof.
  unfold Server.count_status, pending.
  induction l as [|c l IH]; [done|].
  destruct (status c) as [[|]|] eqn:Hs.
  - rewrite (filter_cons_True (λ c, status c = Some completed)) by done.
    rewrite !filter_cons_False by congruence. cbn [length]. lia.
  - rewrite (filter_cons_True (λ c, status c = Some missed)) by done.
    rewrite !filter_cons_False by congruence. cbn [length]. lia.
  - rewrite (filter_cons_True (λ c, status c = None)) by done.
    rewrite !filter_cons_False by congruence. cbn [length]. lia.
Qed.

Lemma all_counted_resolved (l : list Event) :
  Server.all_counted l = true ↔ Forall resolved l.
Proof.
  unfold Server.all_counted. rewrite bool_decide_eq_true.
  pose proof (count_partition l) as Hp.
  pose proof (length_filter_none pending l) as Hn.
  unfold resolved, pending in *. split.
  - intros Hc. apply Hn. lia.
  - intros Hr. apply Hn in Hr. lia.
Qed.

Lemma all_counted_pending (l : list Event) :
  Server.all_counted l = false ↔ Exists pending l.
Proof.
  rewrite <- not_true_iff_false, all_counted_resolved.
  unfold resolved, pending. split.
  - intros Hn. apply not_Forall_Exists in Hn; [|apply _].
    eapply Exists_impl; [exact Hn|]. cbn. intros c Hc.
    by destruct (status c); [destruct Hc|].
  - intros He Hf. apply Exists_exists in He as (c & Hc & Hp).
    rewrite Forall_forall in Hf. by apply (Hf c).
Qed.

Lemma final_status_finalization (l : list Event) :
  Server.final_status l = finalization l.
Proof.
  unfold Server.final_status, finalization, Server.count_status.
  pose proof (length_filter_none (λ c, status c = Some missed) l) as Hn.
  destruct (decide (Z.of_nat _ = 0)) as [Hz|Hz];
    destruct (decide (Forall _ l)) as [Hf|Hf]; try done.
  - exfalso. apply Hf, Hn. lia.
  - exfalso. apply Hz. apply Hn in Hf. lia.
Qed.

Lemma legacy_all_completed pid db :
  Mongo.countDocuments
    (λ c, segmentOf c = Some pid ∧ status c = Some completed) db
  = Mongo.countDocuments (λ c, segmentOf c = Some pid) db
  ↔ Forall (λ c, status c = Some completed) (Server.children_of pid db).
Proof.
  unfold Mongo.countDocuments, Server.children_of, Mongo.find.
  rewrite <- (length_filter_all (λ c, status c = Some completed)).
  rewrite list_filter_filter.
  rewrite (list_filter_iff (λ c, segmentOf c = Some pid ∧ _)
             (λ c, status c = Some completed ∧ segmentOf c = Some pid))
    by tauto.
  lia.
Qed.

(** The marked child is one of the children of its parent. *)
Lemma child_among_children id pid st ev db :
  Mongo.findById id db = Some ev → segmentOf ev = Some pid →
  set_status (Some st) ev
  ∈ Server.children_of pid (Mongo.findByIdAndUpdate id st db).
Proof.
  intros Hf Hp. apply findOne_Some in Hf as [Hin Hid].
  unfold Server.children_of, Mongo.find, Mongo.findByIdAndUpdate,
    Mongo.updateMany. cbn [docs].
  apply list_elem_of_filter. split; [done|].
  apply list_elem_of_fmap. exists ev. split; [|done].
  by rewrite decide_True.
Qed.



(** The three cases named by the claim, on the handler of [part_000]:
    marking the last pending child of [completed, completed, _] as missed
    finalizes the parent to missed, marking it completed finalizes the
    parent to completed, and marking the last child of
    [completed, pending, _] as missed leaves the parent pending. *)
Lemma finalization_cases :
  (∃ db' r,
      Server.patch_status 4 "missed"
        (family None (Some completed) (Some completed) None) = (db', Json r)
      ∧ status_of 1 db' = Some missed ∧ Server.finalized r = true)
  ∧ (∃ db' r,
      Server.patch_status 4 "completed"
        (family None (Some completed) (Some completed) None) = (db', Json r)
      ∧ status_of 1 db' = Some completed ∧ Server.finalized r = true)
  ∧ (∃ db' r,
      Server.patch_status 4 "missed"
        (family None (Some completed) None None) = (db', Json r)
      ∧ status_of 1 db' = None ∧ Server.finalized r = false).
Proof.
  repeat split; eexists _, _;
    (split; [vm_compute; reflexivity|split; vm_compute; reflexivity]).
Qed.


(** ** Conflict detection *)


(** The boundary case of the claim, at every instant [T]: against an
    existing event over [[T, T + 60m)] the candidate [[T, T + 60m)] is a
    conflict for [part_000]; against one over [[T + 1m, T + 61m)] it is
    not. *)
Lemma conflict_exactness (T : Z) :
  Server.add_conflict 7 T (T + 60 * 60000) (db_booked T (T + 60 * 60000))
  = Some (booked T (T + 60 * 60000))
  ∧ Server.add_conflict 7 T (T + 60 * 60000)
      (db_booked (T + 1 * 60000) (T + 61 * 60000)) = None.
Proof.
  unfold Server.add_conflict, Mongo.findOne, Mongo.find, db_booked.
  cbn [docs]. split.
  - by rewrite filter_cons_True by done.
  - rewrite filter_cons_False; [done|]. cbn. lia.
Qed.



(** ** The 180-minute floor *)

(** On the chat path a target shorter than 180 minutes is never split:
    the reply carries no segments and the collection is unchanged. *)
Lemma chat_split_floor uid titleMatch mCount mBreak db ev :
  Server.split_target uid titleMatch db = Some ev →
  totalMinutes ev < 180 →
  ∃ r, Server.chat_split uid titleMatch mCount mBreak db = (db, r)
       ∧ ∀ cs, r ≠ Json cs.
Proof.
  intros Ht Hmin. unfold Server.chat_split. rewrite Ht. cbv zeta.
  fold (totalMinutes ev).
  case_bool_decide; [by eexists|].
  rewrite bool_decide_eq_true_2 by done. by eexists.
Qed.

(** C4, at the failing input.  [POST /events/:id/split] on a 179-minute
    parent with count 2 and no break is accepted and inserts two segments,
    where the chat path answers 400 "Event/Task must be at least 3 hours
    (180 minutes) to split."; a 180-minute parent is accepted by both. *)
Theorem rest_split_ignores_floor :
  totalMinutes task179 = 179
  ∧ (∃ db' r,
      Server.split 1 (Some 2) (Some 0) None [] db179 = (db', Json r)
      ∧ length (Server.segments r) = 2%nat
      ∧ docs db' = docs db179 ++ Server.segments r)
  ∧ Server.chat_split 7 study_react (Some 2) None db179
    = (db179,
       Error 400 "Event/Task must be at least 3 hours (180 minutes) to split.")
  ∧ (∃ db' r,
      Server.split 1 (Some 2) (Some 0) None [] db180 = (db', Json r)
      ∧ length (Server.segments r) = 2%nat)
  ∧ (∃ db' cs,
      Server.chat_split 7 study_react (Some 2) None db180 = (db', Json cs)
      ∧ length cs = 2%nat).
Proof.
  split; [by vm_compute|].
  split; [eexists _, _; split; [vm_compute; reflexivity|by vm_compute]|].
  split; [by vm_compute|].
  split; eexists _, _; (split; [vm_compute; reflexivity|by vm_compute]).
Qed.

(** ** Nesting of segments *)

Lemma unique_id (l : list Event) x y :
  NoDup (_id <$> l) → x ∈ l → y ∈ l → _id x = _id y → x = y.
Proof.
  induction l as [|a l IH]; intros Hnd Hx Hy Hid; [by apply elem_of_nil in Hx|].
  rewrite fmap_cons in Hnd. apply NoDup_cons in Hnd as [Ha Hnd].
  apply elem_of_cons in Hx as [->|Hx], Hy as [->|Hy]; [done| | |by apply IH].
  - destruct Ha. rewrite Hid. by apply list_elem_of_fmap_2.
  - destruct Ha. rewrite <- Hid. by apply list_elem_of_fmap_2.
Qed.

Lemma two_level_forall db :
  two_level db
  ↔ ∀ c p, c ∈ docs db → p ∈ docs db →
           segmentOf c = Some (_id p) → segmentOf p = None.
Proof.
  unfold two_level. rewrite Forall_forall. split.
  - intros Hall c p Hc Hp. specialize (Hall c Hc).
    rewrite Forall_forall in Hall. by apply Hall.
  - intros Hall c Hc. apply Forall_forall. intros p Hp. by apply Hall.
Qed.

(** Segments created under a target that is not itself a segment keep the
    collection two-level. *)
Lemma create_segments_two_level par titleOf plan i db db' cs :
  store_wf db → two_level db → par ∈ docs db → segmentOf par = None →
  create_segments par titleOf i plan db = (db', cs) →
  two_level db'.
Proof.
  intros [Hnd Hwf] Hinv Hpar Hroot Hc.
  pose proof (create_segments_spec par titleOf plan i db) as Hspec.
  rewrite Hc in Hspec. destruct Hspec as (_ & Hd & _ & Hkids & Hfresh).
  rewrite Forall_forall in Hwf, Hkids, Hfresh.
  rewrite two_level_forall in Hinv. apply two_level_forall.
  intros c p Hcin Hpin Hseg. rewrite Hd in Hcin, Hpin.
  apply elem_of_app in Hcin as [Hcin|Hcin], Hpin as [Hpin|Hpin].
  - exact (Hinv c p Hcin Hpin Hseg).
  - exfalso. destruct (Hwf c Hcin) as [_ Href].
    specialize (Href _ Hseg). specialize (Hfresh p Hpin). lia.
  - destruct (Hkids c Hcin) as (Hcp & _). rewrite Hcp in Hseg.
    injection Hseg as Hid.
    by rewrite (unique_id (docs db) par p Hnd Hpar Hpin Hid) in Hroot.
  - exfalso. destruct (Hkids c Hcin) as (Hcp & _). rewrite Hcp in Hseg.
    injection Hseg as Hid. destruct (Hwf par Hpar) as [Hlt _].
    specialize (Hfresh p Hpin). lia.
Qed.

(** Both split paths keep the collection two-level when the target is a
    standalone or parent event. *)
Lemma split_of_root_two_level id count brk titlePrefix titles db db' r par :
  store_wf db → two_level db →
  Mongo.findById id db = Some par → segmentOf par = None →
  Server.split id count brk titlePrefix titles db = (db', r) →
  two_level db'.
Proof.
  intros Hwf Hinv Hf Hroot. unfold Server.split. rewrite Hf. cbv zeta.
  repeat case_bool_decide; try by answered.
  destruct (create_segments _ _ _ _ _) as [db2 cs] eqn:Hc.
  answered. eapply create_segments_two_level; [done..| |done|exact Hc].
  by apply findOne_Some in Hf as [? _].
Qed.

Lemma latest_elem_of (l : list Event) x :
  Mongo.latest l = Some x → x ∈ l.
Proof.
  unfold Mongo.latest.
  assert (∀ acc, foldl (λ acc e, match acc with
                                 | None => Some e
                                 | Some a =>
                                     if start a <? start e then Some e
                                     else Some a
                                 end) acc l = Some x →
                 acc = Some x ∨ x ∈ l) as Hgen.
  { induction l as [|a l IH]; intros acc; cbn [foldl]; [by left|].
    intros Hf. apply IH in Hf as [Hf|Hf]; [|by right; right].
    destruct acc as [a0|].
    - destruct (start a0 <? start a); injection Hf as <-;
        [right; left|left]; done.
    - injection Hf as <-. right; left. }
  intros Hf. by apply Hgen in Hf as [?|?].
Qed.

(** The target of the chat split and edit lookups is a pending document
    of the user whose title matches, whatever its [segmentOf]. *)
Lemma split_target_elem_of uid titleMatch db ev :
  Server.split_target uid titleMatch db = Some ev →
  ev ∈ docs db ∧ userId ev = uid ∧ titleMatch (title ev) = true
  ∧ status ev = None.
Proof.
  unfold Server.split_target, Mongo.find. intros Hl.
  apply latest_elem_of, list_elem_of_filter in Hl. tauto.
Qed.

Lemma chat_split_of_root_two_level uid titleMatch mCount mBreak db db' r par :
  store_wf db → two_level db →
  Server.split_target uid titleMatch db = Some par →
  segmentOf par = None →
  Server.chat_split uid titleMatch mCount mBreak db = (db', r) →
  two_level db'.
Proof.
  intros Hwf Hinv Hf Hroot. unfold Server.chat_split. rewrite Hf. cbv zeta.
  repeat case_bool_decide; try by answered.
  destruct (create_segments _ _ _ _ _) as [db2 cs] eqn:Hc.
  answered. eapply create_segments_two_level; [done..| |done|exact Hc].
  by apply split_target_elem_of in Hf as [? _].
Qed.

(** C8, at the failing input.  After "Study react" (id 1) is split in two
    (ids 2 and 3), no child has children.  [POST /events/3/split] is
    accepted although event 3 is a segment, and so is the chat command
    "split study react", whose lookup takes the matching pending event
    with the latest start, segment 2 (id 3); either way the new events
    name the segment as their parent. *)
Theorem split_of_segment_nests :
  two_level db400_split
  ∧ (segmentOf <$> Mongo.findById 3 db400_split) = Some (Some 1%N)
  ∧ (∃ db' r,
      Server.split 3 (Some 2) (Some 0) None [] db400_split = (db', Json r)
      ∧ Server.parentId r = 3%N
      ∧ Forall (λ g, segmentOf g = Some 3%N) (Server.segments r)
      ∧ length (Server.segments r) = 2%nat
      ∧ ¬ two_level db')
  ∧ (_id <$> Server.split_target 7 study_react db400_split) = Some 3%N
  ∧ (∃ db' cs,
      Server.chat_split 7 study_react (Some 2) None db400_split
      = (db', Json cs)
      ∧ Forall (λ g, segmentOf g = Some 3%N) cs
      ∧ length cs = 2%nat
      ∧ ¬ two_level db').
Proof.
  split; [by apply (bool_decide_unpack _); vm_compute|].
  split; [by vm_compute|].
  split.
  { eexists _, _. split; [vm_compute; reflexivity|].
    split; [by vm_compute|].
    split; [by apply (bool_decide_unpack _); vm_compute|].
    split; [by vm_compute|].
    intros Hinv. apply (bool_decide_pack _) in Hinv. by vm_compute in Hinv. }
  split; [by vm_compute|].
  eexists _, _. split; [vm_compute; reflexivity|].
  split; [by apply (bool_decide_unpack _); vm_compute|].
  split; [by vm_compute|].
  intros Hinv. apply (bool_decide_pack _) in Hinv. by vm_compute in Hinv.
Qed.

(** ** Suggestions *)

Lemma fold_latest_end (l : list Event) : ∀ a,
  let R := foldl (λ acc c, if acc <? end_ c then end_ c else acc) a l in
  a ≤ R ∧ Forall (λ c, end_ c ≤ R) l ∧ (R = a ∨ ∃ c, c ∈ l ∧ end_ c = R).
Proof.
  induction l as [|x l IH]; intros a; cbn [foldl].
  - split; [lia|]. split; [constructor|by left].
  - specialize (IH (if a <? end_ x then end_ x else a)).
    cbv zeta in IH. destruct IH as (Hle & Hall & Hex).
    destruct (Z.ltb_spec a (end_ x)) as [Hlt|Hge].
    + split; [lia|]. split; [constructor; [lia|done]|].
      right. destruct Hex as [->|(c & Hc & Hec)].
      * exists x. split; [left|done].
      * exists c. split; [by right|done].
    + split; [lia|]. split; [constructor; [lia|done]|].
      destruct Hex as [->|(c & Hc & Hec)]; [by left|].
      right. exists c. split; [by right|done].
Qed.

Lemma latest_end_spec c0 l :
  latest_conflict_end (Server.latest_end c0 (c0 :: l)) (c0 :: l).
Proof.
  unfold Server.latest_end, latest_conflict_end.
  pose proof (fold_latest_end (c0 :: l) (end_ c0)) as (Hle & Hall & Hex).
  split; [|done].
  destruct Hex as [Heq|Hex]; [|done].
  exists c0. split; [left|done].
Qed.

(** 08:00:00.000 of the local day after [now] *)
Lemma tomorrow_at_eight tz now :
  let t := Server.set_second tz 0
             (Server.set_minute tz 0
                (Server.set_hour tz 8
                   (Server.startOfDay tz (now + 1 * Server.MS_DAY)))) in
  Server.local_day tz t = Server.local_day tz now + 1
  ∧ Server.local_time tz t = 8 * Server.MS_HOUR.
Proof.
  cbv zeta.
  unfold Server.set_second, Server.set_minute, Server.set_hour,
    Server.startOfDay, Server.local_day, Server.local_time,
    Server.MS_DAY, Server.MS_HOUR, Server.MS_MINUTE.
  Z.to_euclidean_division_equations. lia.
Qed.

(** C5.  For a non-empty list of conflicts and a duration [D >= 1],
    [buildSuggestions] returns exactly three suggestions, in this order:
    one starting at the later of the latest conflict end and now, one
    starting an hour after the first, one starting at 08:00 local time on
    the next calendar day; each lasts [D] minutes. *)
Theorem suggestions_three_slots (tz now D : Z) (conflicts : list Event)
    (Hne : conflicts ≠ []) (HD : 1 ≤ D) :
  ∃ L s1 s2 s3,
    latest_conflict_end L conflicts
    ∧ Server.buildSuggestions tz now conflicts D = [s1; s2; s3]
    ∧ Server.sg_start s1 = Z.max L now
    ∧ Server.sg_end s1 = Server.sg_start s1 + D * 60000
    ∧ Server.sg_start s2 = Server.sg_start s1 + 3600000
    ∧ Server.sg_end s2 = Server.sg_start s2 + D * 60000
    ∧ Server.local_day tz (Server.sg_start s3) = Server.local_day tz now + 1
    ∧ Server.local_time tz (Server.sg_start s3) = 8 * 3600000
    ∧ Server.sg_end s3 = Server.sg_start s3 + D * 60000.
Proof.
  destruct conflicts as [|c0 l]; [done|].
  pose proof (latest_end_spec c0 l) as HL.
  pose proof (tomorrow_at_eight tz now) as [Hday Htime].
  exists (Server.latest_end c0 (c0 :: l)). eexists _, _, _.
  split; [exact HL|]. split; [reflexivity|].
  cbn [Server.sg_start Server.sg_end].
  rewrite (Z.max_r 1 D) by lia. unfold Server.MS_MINUTE, Server.MS_HOUR in *.
  repeat split; try done; try lia.
  destruct (Z.ltb_spec now (Server.latest_end c0 (c0 :: l))); lia.
Qed.

Lemma suggestions_three_slots_witness :
  ∃ L s1 s2 s3,
    latest_conflict_end L [booked 0 3600000]
    ∧ Server.buildSuggestions (8 * 3600000) 1000 [booked 0 3600000] 60
      = [s1; s2; s3]
    ∧ Server.sg_start s1 = Z.max L 1000
    ∧ Server.sg_end s1 = Server.sg_start s1 + 60 * 60000
    ∧ Server.sg_start s2 = Server.sg_start s1 + 3600000
    ∧ Server.sg_end s2 = Server.sg_start s2 + 60 * 60000
    ∧ Server.local_day (8 * 3600000) (Server.sg_start s3)
      = Server.local_day (8 * 3600000) 1000 + 1
    ∧ Server.local_time (8 * 3600000) (Server.sg_start s3) = 8 * 3600000
    ∧ Server.sg_end s3 = Server.sg_start s3 + 60 * 60000.
Proof.
  apply (suggestions_three_slots (8 * 3600000) 1000 60 [booked 0 3600000]);
    [discriminate|lia].
Defined.

(** ** The end-time rule for completed *)

Lemma filter_Exists_cons {A} (P : A → Prop) `{∀ x, Decision (P x)}
    (l : list A) :
  Exists P l → ∃ x l', filter P l = x :: l'.
Proof.
  intros He. apply Exists_exists in He as (x & Hx & HP).
  destruct (filter P l) as [|y l'] eqn:Hf; [|eauto].
  exfalso. by eapply filter_nil_not_elem_of.
Qed.

Lemma filter_Forall_nil {A} (P : A → Prop) `{∀ x, Decision (P x)}
    (l : list A) :
  Forall (λ x, ¬ P x) l → filter P l = [].
Proof.
  induction 1 as [|x l Hx Hl IH]; [done|].
  by rewrite filter_cons_False.
Qed.

(** C6, as amended.  In the chat mark paths a completed mark is refused
    with a "still in the future" message, and nothing is written, when the
    end of the designated segment, or of a standalone event, is strictly
    after now; on a parent with segments it is refused when some segment
    ends after now and accepted when all have ended, the parent's own end
    not being looked at.  A missed mark is accepted at any time.  The
    status-update handler reads no clock: it accepts completed and missed
    marks alike, whenever the event ends. *)
Theorem completed_mark_temporal_rule (now : Z) (db : DB) (par : Event) :
  (∀ segNum child,
      Server.choose_segment (Z.max 0 (segNum - 1)) par db = inr child →
      (now < end_ child →
       Server.mark_segment now segNum completed par db
       = (db, Server.SegmentStillFuture child))
      ∧ Server.mark_segment now segNum missed par db
        = Server.mark_child missed par child db)
  ∧ (Server.children_of (_id par) db = [] → now < end_ par →
     Server.mark_parent now completed par db = (db, Server.StillFuture par))
  ∧ (Exists (λ k, now < end_ k) (Server.children_of (_id par) db) →
     ∃ futureKids,
       Server.mark_parent now completed par db
       = (db, Server.FutureSegments futureKids))
  ∧ (Server.children_of (_id par) db ≠ [] →
     Forall (λ k, ¬ now < end_ k) (Server.children_of (_id par) db) →
     ∃ db' k,
       Server.mark_parent now completed par db
       = (db', Server.Marked (_id par) completed k))
  ∧ (∃ db' k,
       Server.mark_parent now missed par db
       = (db', Server.Marked (_id par) missed k))
  ∧ (∀ id raw st ev,
      Server.parse_status raw = Some st → Mongo.findById id db = Some ev →
      ∃ db' r,
        Server.patch_status id raw db = (db', Json r)
        ∧ Server.res_status r = st).
Proof.
  split; [intros segNum child Hc; split|repeat split].
  - intros Hfut. unfold Server.mark_segment. cbv zeta. rewrite Hc.
    by rewrite bool_decide_eq_true_2.
  - unfold Server.mark_segment. cbv zeta. rewrite Hc.
    by rewrite bool_decide_eq_false_2 by (by intros [? _]).
  - intros Hk Hfut. unfold Server.mark_parent. cbv zeta. rewrite Hk.
    cbn. by rewrite bool_decide_eq_true_2.
  - intros He.
    destruct (filter_Exists_cons (λ k, now < end_ k) _ He) as (x & l' & Hf).
    unfold Server.mark_parent. cbv zeta. rewrite Hf. eauto.
  - intros Hne Hall.
    apply (filter_Forall_nil (λ k, now < end_ k)) in Hall.
    unfold Server.mark_parent. cbv zeta. rewrite Hall.
    destruct (Server.children_of (_id par) db); [done|eauto].
  - unfold Server.mark_parent. cbv zeta.
    destruct (Server.children_of (_id par) db); eauto.
  - intros id raw st ev Hraw Hev. unfold Server.patch_status.
    rewrite Hraw, Hev.
    destruct (match segmentOf ev with Some _ => _ | None => _ end)
      as [[[db2 pu] pa] f1].
    destruct (match segmentOf ev with Some _ => _ | None => _ end)
      as [db3 f]. eauto.
Qed.

Lemma completed_mark_temporal_rule_witness :
  Server.mark_parent 0 completed (booked 3600000 7200000)
    (db_booked 3600000 7200000)
  = (db_booked 3600000 7200000, Server.StillFuture (booked 3600000 7200000)).
Proof.
  apply (proj1 (proj2 (completed_mark_temporal_rule 0
                         (db_booked 3600000 7200000)
                         (booked 3600000 7200000))));
    [reflexivity|cbn; lia].
Defined.

(** C6 as stated fails on the status-update handler: at time 0 the event
    over [[1h, 2h)] ends in the future, yet the request to mark it
    completed is accepted and the status is written. *)
Lemma patch_completes_future_event_counterexample :
  0 < end_ (booked 3600000 7200000)
  ∧ ∃ db' r,
      Server.patch_status 1 "completed" (db_booked 3600000 7200000)
      = (db', Json r)
      ∧ Server.res_status r = completed
      ∧ status_of 1 db' = Some completed.
Proof.
  split; [by vm_compute|].
  eexists _, _. split; [vm_compute; reflexivity|]. by vm_compute.
Qed.

(** ** The missed cascade of the chat mark path *)

(** C10.  In the chat mark path, marking a parent missed is never
    refused, whatever the end times and the clock: every child whose
    status is null becomes missed, children already completed or missed
    and all other documents are left unchanged, and the parent itself
    becomes missed. *)
Theorem missed_parent_cascade (now : Z) (par : Event) (db : DB) :
  ∃ db',
    Server.mark_parent now missed par db
    = (db', Server.Marked (_id par) missed
              (length (Server.children_of (_id par) db)))
    ∧ docs db' = cascade_missed (_id par) <$> docs db
    ∧ (∀ uid titleMatch tokenMatch,
        Server.resolve_parent uid titleMatch tokenMatch db = Some par →
        Server.chat_mark now uid titleMatch tokenMatch missed db
        = Server.mark_parent now missed par db).
Proof.
  unfold Server.mark_parent. cbv zeta.
  destruct (Server.children_of (_id par) db) as [|k kids] eqn:Hk.
  - eexists. split; [reflexivity|]. split.
    + cbn [Mongo.findByIdAndUpdate Mongo.updateMany docs].
      apply list_fmap_ext. intros i c Hc. unfold cascade_missed.
      destruct (decide (_id c = _id par)); [done|].
      rewrite decide_False; [done|]. intros [Hseg _].
      apply (filter_nil_not_elem_of _ _ c Hk Hseg).
      by eapply list_elem_of_lookup_2.
    + intros uid tm tk Hr. unfold Server.chat_mark, Server.mark_parent.
      cbv zeta. by rewrite Hr, Hk.
  - eexists. split; [reflexivity|]. split.
    + cbn [Mongo.findByIdAndUpdate Mongo.updateMany docs].
      rewrite <- list_fmap_compose.
      apply list_fmap_ext. intros i c Hc. unfold cascade_missed. cbn.
      destruct (decide (segmentOf c = Some (_id par) ∧ status c = None));
        cbn; destruct (decide (_id c = _id par)); done.
    + intros uid tm tk Hr. unfold Server.chat_mark, Server.mark_parent.
      cbv zeta. by rewrite Hr, Hk.
Qed.

(** On the sample family with children [completed, pending, missed] the
    pending child and the parent become missed and nothing else moves. *)
Lemma missed_parent_cascade_witness :
  ∃ db',
    Server.mark_parent 0 missed (sample 1 "Study react" 0 (600 * 60000)
                                   None None None)
      (family None (Some completed) None (Some missed)) = (db', Server.Marked 1 missed 3)
    ∧ db' = family (Some missed) (Some completed) (Some missed) (Some missed).
Proof.
  destruct (missed_parent_cascade 0
              (sample 1 "Study react" 0 (600 * 60000) None None None)
              (family None (Some completed) None (Some missed)))
    as (db' & He & _).
  exists db'. split; [exact He|].
  vm_compute in He. injection He as <-. vm_compute. reflexivity.
Defined.

(** ** Status transitions *)

Section StatusSteps.

Lemma status_step_refl T (l : list Event) : Forall2 (status_step T) l l.
Proof. apply Forall_Forall2_diag, Forall_forall. intros c _. by left. Qed.

Lemma status_step_resolved T c c' :
  status_step T c c' → resolved c → resolved c'.
Proof. intros [->|(_ & st & ->)] Hr; [done|]. by unfold resolved. Qed.

Lemma status_step_untouched T c c' :
  status_step T c c' → ¬ T c → c' = c.
Proof. intros [->|(Ht & _)] Hn; [done|]. by destruct Hn. Qed.

(** One [updateMany] is a step on every document. *)
Lemma updateMany_step (P T : Event → Prop) `{∀ e, Decision (P e)} st db :
  (∀ c, P c → T c) →
  Forall2 (status_step T) (docs db) (docs (Mongo.updateMany P st db)).
Proof.
  intros HPT. cbn [Mongo.updateMany docs].
  apply Forall2_fmap_r, Forall_Forall2_diag, Forall_forall.
  intros c _. cbn. destruct (decide (P c)); [right|by left].
  split; [by apply HPT|by eexists].
Qed.

(** Steps compose, when what the second operation may touch, seen on the
    document after the first, was already allowed on the document before. *)
Lemma status_step_trans (T T' : Event → Prop) (l1 l2 l3 : list Event) :
  (∀ c c', status_step T c c' → T' c' → T c) →
  Forall2 (status_step T) l1 l2 →
  Forall2 (status_step T') l2 l3 →
  Forall2 (status_step T) l1 l3.
Proof.
  intros HT H12. revert l3.
  induction H12 as [|c1 c2 l1 l2 Hc H12 IH]; intros l3 H23.
  - by inversion H23.
  - inversion H23 as [|? c3 ? l3' Hc' H23']; subst.
    constructor; [|by apply IH].
    destruct Hc' as [->|(Ht' & st' & ->)]; [done|].
    right. split; [by eapply HT|].
    destruct Hc as [->|(_ & st & ->)]; by eexists.
Qed.

End StatusSteps.

Lemma patch_status_steps id raw db db' r ev :
  Mongo.findById id db = Some ev →
  Server.patch_status id raw db = (db', r) →
  Forall2 (status_step (patch_touches id ev)) (docs db) (docs db').
Proof.
  intros Hev. unfold Server.patch_status.
  destruct (Server.parse_status raw) as [st|];
    [|answered; apply status_step_refl].
  rewrite Hev.
  set (db1 := Mongo.findByIdAndUpdate id st db).
  assert (Forall2 (status_step (patch_touches id ev)) (docs db) (docs db1))
    as H1.
  { apply updateMany_step. intros c Hc. by left. }
  destruct (segmentOf ev) as [pid|] eqn:Hseg.
  - destruct (Server.all_counted _).
    + answered.
      eapply status_step_trans; [|exact H1|].
      2:{ apply (updateMany_step _ (λ c, _id c = pid)). done. }
      intros c c' Hs Hc'. right; left. rewrite Hseg.
      destruct Hs as [->|(_ & s & ->)]; cbn in Hc'; congruence.
    + by answered.
  - destruct st.
    + destruct (Mongo.find _ db1) as [|k ks].
      * by answered.
      * answered.
        eapply status_step_trans; [|exact H1|].
        2:{ apply (updateMany_step _
                     (λ c, segmentOf c = Some (_id ev) ∧ status c = None)).
            done. }
        intros c c' Hs [Hc1 Hc2]. right; right.
        apply findOne_Some in Hev as [_ Hid].
        destruct Hs as [->|(_ & s & ->)]; [|done].
        split; [congruence|done].
    + by answered.
Qed.

Lemma legacy_patch_status_steps id raw db db' r ev :
  Mongo.findById id db = Some ev →
  Legacy.patch_status id raw db = (db', r) →
  Forall2 (status_step (legacy_touches id ev)) (docs db) (docs db').
Proof.
  intros Hev. unfold Legacy.patch_status.
  destruct (Server.parse_status raw) as [st|];
    [|answered; apply status_step_refl].
  rewrite Hev.
  set (db1 := Mongo.findByIdAndUpdate id st db).
  assert (Forall2 (status_step (legacy_touches id ev)) (docs db) (docs db1))
    as H1.
  { apply updateMany_step. intros c Hc. by left. }
  destruct (segmentOf ev) as [pid|] eqn:Hseg; destruct st;
    try by answered.
  - case_bool_decide; answered; [|done].
    eapply status_step_trans; [|exact H1|].
    2:{ apply (updateMany_step _ (λ c, _id c = pid)). done. }
    intros c c' Hs Hc'. right; left. rewrite Hseg.
    destruct Hs as [->|(_ & s & ->)]; cbn in Hc'; congruence.
  - destruct (Mongo.find _ db1) as [|k ks]; answered; [done|].
    eapply status_step_trans; [|exact H1|].
    2:{ apply (updateMany_step _
                 (λ c, segmentOf c = Some (_id ev)
                       ∧ status c ≠ Some completed)).
        done. }
    intros c c' Hs [Hc1 Hc2].
    apply findOne_Some in Hev as [_ Hid].
    destruct Hs as [->|(Ht & s & ->)]; [|done].
    right; right. split; [congruence|done].
Qed.

Lemma mark_parent_steps now st par db db' r :
  Server.mark_parent now st par db = (db', r) →
  Forall2 (status_step (mark_touches st par)) (docs db) (docs db').
Proof.
  unfold Server.mark_parent. cbv zeta.
  assert (∀ dbx,
    Forall2 (status_step (mark_touches st par)) (docs db) (docs dbx) →
    Forall2 (status_step (mark_touches st par)) (docs db)
      (docs (Mongo.findByIdAndUpdate (_id par) st dbx))) as Hfinish.
  { intros dbx Hx. eapply status_step_trans; [|exact Hx|].
    2:{ apply (updateMany_step _ (λ c, _id c = _id par)). done. }
    intros c c' Hs Hc'. left.
    destruct Hs as [->|(_ & s & ->)]; by rewrite <- Hc'. }
  destruct st.
  - destruct (filter _ _).
    + destruct (Server.children_of (_id par) db).
      * case_bool_decide; answered;
          [apply status_step_refl|apply Hfinish, status_step_refl].
      * answered. apply Hfinish, updateMany_step.
        intros c Hc. right. split; [done|by left].
    + answered. apply status_step_refl.
  - destruct (Server.children_of (_id par) db).
    + answered. apply Hfinish, status_step_refl.
    + answered. apply Hfinish, updateMany_step.
      intros c [Hc1 Hc2]. right. split; [done|by right].
Qed.

Lemma mark_segment_steps now segNum st par db db' r child :
  Server.choose_segment (Z.max 0 (segNum - 1)) par db = inr child →
  Server.mark_segment now segNum st par db = (db', r) →
  Forall2 (status_step (segment_touches par child)) (docs db) (docs db').
Proof.
  intros Hc. unfold Server.mark_segment. cbv zeta. rewrite Hc.
  case_bool_decide; [answered; apply status_step_refl|].
  unfold Server.mark_child. cbv zeta.
  set (db1 := Mongo.findByIdAndUpdate (_id child) st db).
  assert (Forall2 (status_step (segment_touches par child))
            (docs db) (docs db1)) as H1.
  { apply updateMany_step. intros c Hid. by left. }
  destruct (Server.all_counted _); answered; [|done].
  eapply status_step_trans; [|exact H1|].
  2:{ apply (updateMany_step _ (λ c, _id c = _id par)). done. }
  intros c c' Hs Hc'. right.
  destruct Hs as [->|(_ & s & ->)]; by rewrite <- Hc'.
Qed.




(** ** Month and day phrases *)

Section Calendar.

Import Server.

Lemma month_index_range :
  map_Forall (λ _ i, 0 ≤ i ≤ 11) monthMapZero.
Proof. by apply (bool_decide_unpack _); vm_compute. Qed.

Lemma daysInMonth_bounds y m : 28 ≤ daysInMonth y m ≤ 31.
Proof.
  unfold daysInMonth.
  destruct m as [|p|p]; try lia.
  do 4 (try destruct p as [p|p|]); try lia; destruct (is_leap y); lia.
Qed.

Lemma daysInMonth_december y : daysInMonth y 11 = 31.
Proof. done. Qed.

(** Outside February the length of a month does not depend on the year;
    a leap year is not followed by a leap year. *)
Lemma daysInMonth_year y y' m : m ≠ 1 → daysInMonth y m = daysInMonth y' m.
Proof.
  intros Hm. unfold daysInMonth.
  destruct m as [|p|p]; try done.
  do 4 (try destruct p as [p|p|]); done.
Qed.

Lemma february_after_leap y :
  daysInMonth y 1 = 29 → daysInMonth (y + 1) 1 = 28.
Proof.
  unfold daysInMonth, is_leap. intros Hy.
  destruct (Z.eqb_spec (y mod 4) 0) as [H4|H4]; cbn [andb] in Hy; [|lia].
  destruct (Z.eqb_spec ((y + 1) mod 4) 0) as [H4'|H4']; cbn [andb]; [|done].
  exfalso. revert H4 H4'. Z.to_euclidean_division_equations. lia.
Qed.

Lemma roll_forward_fixed c :
  date c ≤ daysInMonth (year c) (month c) → roll_forward c = c.
Proof.
  intros Hd. unfold roll_forward.
  by destruct (Z.ltb_spec (daysInMonth (year c) (month c)) (date c)); [lia|].
Qed.

Lemma roll_forward_year c : year c ≤ year (roll_forward c).
Proof.
  unfold roll_forward.
  destruct (Z.ltb_spec (daysInMonth (year c) (month c)) (date c)); [|lia].
  destruct (Z.eqb_spec (month c) 11); cbn; lia.
Qed.

(** A day of the month that exists is taken as written. *)
Lemma make_date_valid y m d :
  1 ≤ d ≤ daysInMonth y m → make_date y m d = mkCivil y m d.
Proof.
  intros Hd. unfold make_date, roll_back. cbn [date].
  destruct (Z.ltb_spec d 1); [lia|].
  by do 3 rewrite (roll_forward_fixed (mkCivil y m d)) by (cbn; lia).
Qed.

(** The year of a normalised date: never before the year asked for,
    except day 0 of January, which is 31 December of the year before. *)
Lemma make_date_year y m d :
  0 ≤ m ≤ 11 → 0 ≤ d →
  y ≤ year (make_date y m d) ∨ make_date y m d = mkCivil (y - 1) 11 31.
Proof.
  intros Hm Hd. unfold make_date, roll_back. cbn [date year month].
  destruct (Z.ltb_spec d 1) as [Hlt|Hge].
  - assert (d = 0) as -> by lia.
    destruct (Z.eqb_spec m 0) as [->|Hm0].
    + right. rewrite daysInMonth_december, Z.add_0_l.
      by do 3 rewrite (roll_forward_fixed (mkCivil (y - 1) 11 31))
        by (cbn; lia).
    + left. rewrite Z.add_0_l.
      do 3 rewrite (roll_forward_fixed
                      (mkCivil y (m - 1) (daysInMonth y (m - 1))))
        by (cbn; lia).
      cbn. lia.
  - left.
    etransitivity; [|apply roll_forward_year].
    etransitivity; [|apply roll_forward_year].
    etransitivity; [|apply roll_forward_year]. cbn. lia.
Qed.

End Calendar.

Lemma february_length y :
  Server.daysInMonth y 1 = 28 ∨ Server.daysInMonth y 1 = 29.
Proof. unfold Server.daysInMonth. destruct (Server.is_leap y); auto. Qed.

(** The day of the month one year later, as [add] leaves it *)
Lemma add_year_valid y m d :
  1 ≤ d ≤ Server.daysInMonth y m →
  Server.add_year (Server.mkCivil y m d)
  = Server.mkCivil (y + 1) m (if decide (m = 1 ∧ d = 29) then 28 else d).
Proof.
  intros Hd. unfold Server.add_year. cbn [Server.year Server.month Server.date].
  f_equal. destruct (decide (m = 1 ∧ d = 29)) as [[-> ->]|Hn].
  - destruct (february_length y) as [Hf|Hf]; [lia|].
    rewrite (february_after_leap y Hf). lia.
  - destruct (decide (m = 1)) as [->|Hm].
    + destruct (february_length y), (february_length (y + 1)); lia.
    + rewrite (daysInMonth_year (y + 1) y m Hm). lia.
Qed.




(** * Further properties of the servers *)

(** ** Insertion and lookup *)

Lemma findById_absent id db :
  Forall (λ c, _id c ≠ id) (docs db) → Mongo.findById id db = None.
Proof.
  intros Hall. apply findOne_None. by apply Forall_forall.
Qed.

Lemma findById_app_l id db e :
  _id e ≠ id →
  Mongo.findById id {| docs := docs db ++ [e]; next_oid := N.succ (next_oid db) |}
  = Mongo.findById id db.
Proof.
  intros Hne. unfold Mongo.findById, Mongo.findOne, Mongo.find. cbn [docs].
  rewrite filter_app, (filter_cons_False _ e) by done.
  by rewrite filter_nil, app_nil_r.
Qed.

Lemma create_fresh db :
  store_wf db → Forall (λ c, _id c ≠ next_oid db) (docs db).
Proof.
  intros [_ Hall]. eapply Forall_impl; [exact Hall|].
  cbn. intros c [Hc _]. lia.
Qed.

Lemma create_store_wf (mk : N → Event) (db : DB) :
  store_wf db →
  _id (mk (next_oid db)) = next_oid db →
  (∀ p, segmentOf (mk (next_oid db)) = Some p → (p < next_oid db)%N) →
  store_wf (Mongo.create mk db).1.
Proof.
  intros Hwf Hid Href. pose proof (create_fresh db Hwf) as Hfresh.
  destruct Hwf as [Hnd Hall]. split; cbn [Mongo.create fst docs next_oid].
  - rewrite fmap_app. apply NoDup_app. split; [done|]. split.
    + intros x Hx Hx'. apply list_elem_of_singleton in Hx'.
      apply list_elem_of_fmap in Hx as (c & -> & Hc).
      rewrite Forall_forall in Hfresh. apply (Hfresh c Hc).
      by rewrite Hx', Hid.
    + apply NoDup_singleton.
  - apply Forall_app. split.
    + eapply Forall_impl; [exact Hall|]. cbn. intros c [Hc Hr].
      split; [lia|]. intros p Hp. specialize (Hr p Hp). lia.
    + apply Forall_singleton. split; [rewrite Hid; lia|].
      intros p Hp. specialize (Href p Hp). lia.
Qed.

(** X1.  In a well-formed collection a created document is found again
    under the id it was given, no other lookup changes, and the
    collection stays well-formed. *)
Theorem create_then_find (mk : N → Event) (db : DB)
    (Hwf : store_wf db)
    (Hid : _id (mk (next_oid db)) = next_oid db)
    (Href : ∀ p, segmentOf (mk (next_oid db)) = Some p → (p < next_oid db)%N) :
  Mongo.findById (_id (Mongo.create mk db).2) (Mongo.create mk db).1
  = Some (Mongo.create mk db).2
  ∧ (∀ id, id ≠ next_oid db →
       Mongo.findById id (Mongo.create mk db).1 = Mongo.findById id db)
  ∧ store_wf (Mongo.create mk db).1.
Proof.
  pose proof (create_fresh db Hwf) as Hfresh.
  split; [|split; [|by apply create_store_wf]]; cbn [Mongo.create fst snd].
  - unfold Mongo.findById, Mongo.findOne, Mongo.find. cbn [docs].
    rewrite filter_app, (filter_cons_True _ (mk (next_oid db))) by done.
    rewrite filter_nil.
    pose proof (findById_absent _ _ Hfresh) as Hn.
    unfold Mongo.findById, Mongo.findOne, Mongo.find in Hn.
    apply head_None in Hn. rewrite Hid. by rewrite Hn.
  - intros id Hne. apply findById_app_l. by rewrite Hid.
Qed.

Lemma create_then_find_witness :
  Mongo.findById 2 (Mongo.create (new_event "Review" 0 60000 high low medium 7)
                      db200).1
  = Some (new_event "Review" 0 60000 high low medium 7 2).
Proof.
  refine (proj1 (create_then_find
                   (new_event "Review" 0 60000 high low medium 7) db200 _ _ _)).
  - split; [by apply (bool_decide_unpack _); vm_compute|].
    apply Forall_singleton. split; [done|]. intros p Hp. discriminate Hp.
  - reflexivity.
  - intros p Hp. discriminate Hp.
Defined.

(** ** The layout of a segmentation plan *)

Section PlanLayout.

Variables (n baseSeg brk : Z).

(** The [j]-th slot of the loop, in closed form *)
Lemma plan_loop_lookup k : ∀ i r c j sl,
  0 ≤ r → i + Z.of_nat k = n →
  plan_loop k i n baseSeg brk r c !! j = Some sl →
  startMs sl = c + (Z.of_nat j * baseSeg + Z.min r (Z.of_nat j)) * 60000
               + Z.of_nat j * brk * 60000
  ∧ endMs sl = startMs sl
               + (baseSeg + (if Z.of_nat j <? r then 1 else 0)) * 60000.
Proof.
  induction k as [|k IH]; intros i r c j sl Hr Hi Hl; [done|].
  destruct j as [|j].
  - cbn in Hl. injection Hl as <-. cbn [startMs endMs].
    change (Z.of_nat 0) with 0. lia.
  - cbn [plan_loop lookup list_lookup] in Hl.
    pose proof (lookup_lt_Some _ _ _ Hl) as Hlen.
    rewrite plan_loop_length in Hlen.
    apply IH in Hl; [|destruct (Z.ltb_spec 0 r); lia|lia].
    destruct Hl as [Hs He]. split; [|rewrite He; clear He Hs].
    + rewrite Hs. destruct (Z.ltb_spec i (n - 1)); [|lia].
      destruct (Z.ltb_spec 0 r); lia.
    + f_equal. f_equal. f_equal.
      destruct (Z.ltb_spec 0 r);
        destruct (Z.ltb_spec (Z.of_nat j) (r - 1));
        destruct (Z.ltb_spec (Z.of_nat j) r);
        destruct (Z.ltb_spec (Z.of_nat (S j)) r); lia.
Qed.

End PlanLayout.

Lemma build_plan_lookup s n brk usable j sl :
  0 < n → 0 ≤ usable →
  build_plan s n brk usable !! j = Some sl →
  startMs sl = s + (Z.of_nat j * (usable / n)
                    + Z.min (usable mod n) (Z.of_nat j)) * 60000
               + Z.of_nat j * brk * 60000
  ∧ endMs sl = startMs sl
               + (usable / n
                  + (if Z.of_nat j <? usable mod n then 1 else 0)) * 60000.
Proof.
  intros Hn Hu. unfold build_plan. rewrite Z.rem_mod_nonneg by lia.
  pose proof (Z.mod_pos_bound usable n Hn).
  apply plan_loop_lookup; lia.
Qed.

(** X2.  Fairness: the segment at position [j] lasts [floor(usable / n)]
    minutes, plus one when [j] is below [usable mod n]; so the first
    [usable mod n] segments are one minute longer than the others. *)
Theorem segment_lengths_fair (s n brk usable : Z) (j : nat) (sl : Slot)
    (Hn : 0 < n) (Hu : 0 ≤ usable)
    (Hl : build_plan s n brk usable !! j = Some sl) :
  slot_minutes sl
  = usable / n + (if Z.of_nat j <? usable mod n then 1 else 0).
Proof.
  destruct (build_plan_lookup s n brk usable j sl Hn Hu Hl) as [_ He].
  unfold slot_minutes. rewrite He.
  replace (startMs sl + _ - startMs sl)
    with ((usable / n + (if Z.of_nat j <? usable mod n then 1 else 0)) * 60000)
    by lia.
  by rewrite Z.div_mul.
Qed.

Lemma segment_lengths_fair_witness :
  slot_minutes (mkSlot 0 3660000) = 182 / 3 + 1.
Proof.
  exact (segment_lengths_fair 0 3 10 182 0 (mkSlot 0 3660000)
           ltac:(lia) ltac:(lia) eq_refl).
Defined.

(** X3.  Layout: the first segment starts at the parent's start, each
    segment ends no earlier than it starts, and each next segment starts
    exactly one break after the end of the one before. *)
Theorem segments_back_to_back (s n brk usable : Z)
    (Hn : 0 < n) (Hu : 0 ≤ usable) :
  (startMs <$> build_plan s n brk usable !! 0%nat) = Some s
  ∧ (∀ j a, build_plan s n brk usable !! j = Some a → startMs a ≤ endMs a)
  ∧ (∀ j a b,
       build_plan s n brk usable !! j = Some a →
       build_plan s n brk usable !! S j = Some b →
       startMs b = endMs a + brk * 60000).
Proof.
  pose proof (Z.mod_pos_bound usable n Hn) as Hm.
  assert (0 ≤ usable / n) as Hb by (apply Z.div_pos; lia).
  split; [|split].
  - destruct (build_plan s n brk usable !! 0%nat) as [sl|] eqn:Hl.
    + apply build_plan_lookup in Hl as [Hs _]; [|done..].
      cbn. f_equal. rewrite Hs. change (Z.of_nat 0) with 0. lia.
    + apply lookup_ge_None in Hl.
      pose proof (build_plan_length s n brk usable ltac:(lia)). lia.
  - intros j a Ha. apply build_plan_lookup in Ha as [_ He]; [|done..].
    destruct (Z.of_nat j <? usable mod n); lia.
  - intros j a b Ha Hb'.
    apply build_plan_lookup in Ha as [Hsa Hea]; [|done..].
    apply build_plan_lookup in Hb' as [Hsb _]; [|done..].
    rewrite Hsb, Hea, Hsa.
    destruct (Z.ltb_spec (Z.of_nat j) (usable mod n)); lia.
Qed.

Lemma segments_back_to_back_witness :
  (startMs <$> build_plan 0 3 10 180 !! 0%nat) = Some 0.
Proof.
  exact (proj1 (segments_back_to_back 0 3 10 180 ltac:(lia) ltac:(lia))).
Defined.

(** X4.  Every segment of the plan has a positive length exactly when
    there is at least one usable minute per segment; with fewer, the last
    segments are empty (start = end). *)
Theorem segments_nonempty_iff (s n brk usable : Z)
    (Hn : 0 < n) (Hu : 0 ≤ usable) :
  Forall (λ sl, startMs sl < endMs sl) (build_plan s n brk usable)
  ↔ n ≤ usable.
Proof.
  pose proof (Z.mod_pos_bound usable n Hn) as Hm.
  rewrite Forall_lookup. split.
  - intros Hall. destruct (Z.le_gt_cases n usable) as [|Hlt]; [done|exfalso].
    assert (Z.to_nat (n - 1) < length (build_plan s n brk usable))%nat as Hlen.
    { pose proof (build_plan_length s n brk usable ltac:(lia)). lia. }
    apply lookup_lt_is_Some in Hlen as [sl Hl].
    specialize (Hall _ _ Hl).
    apply build_plan_lookup in Hl as [_ He]; [|done..].
    rewrite Z.div_small, Z.mod_small in He by lia.
    destruct (Z.ltb_spec (Z.of_nat (Z.to_nat (n - 1))) usable); lia.
  - intros Hle j sl Hl.
    apply build_plan_lookup in Hl as [_ He]; [|done..].
    assert (1 ≤ usable / n) by (apply Z.div_le_lower_bound; lia).
    destruct (Z.of_nat j <? usable mod n); lia.
Qed.

Lemma segments_nonempty_iff_witness :
  Forall (λ sl, startMs sl < endMs sl) (build_plan 0 3 10 180) ↔ 3 ≤ 180.
Proof. exact (segments_nonempty_iff 0 3 10 180 ltac:(lia) ltac:(lia)). Defined.

(** ** What a split inserts *)

Lemma create_segments_lookup par titleOf plan : ∀ i db db' cs,
  create_segments par titleOf i plan db = (db', cs) →
  ∀ j sl, plan !! j = Some sl →
    cs !! j
    = Some {| _id := next_oid db + N.of_nat j;
              title := titleOf (i + Z.of_nat j);
              start := startMs sl; end_ := endMs sl;
              importance := importance par; urgency := urgency par;
              difficulty := difficulty par; userId := userId par;
              status := None; isRecurring := false;
              segmentOf := Some (_id par);
              segmentIndex := Some (i + Z.of_nat j) |}.
Proof.
  induction plan as [|s0 plan IH]; intros i db db' cs Hc j sl Hl; [done|].
  cbn [create_segments Mongo.create] in Hc.
  destruct (create_segments par titleOf (i + 1) plan _) as [db2 cs2] eqn:Hr.
  injection Hc as <- <-. destruct j as [|j].
  - cbn in Hl. injection Hl as <-. cbn.
    rewrite N.add_0_r, Z.add_0_r. done.
  - change ((s0 :: plan) !! S j) with (plan !! j) in Hl.
    match goal with
    | |- (?c :: _) !! _ = _ => change ((c :: cs2) !! S j) with (cs2 !! j)
    end.
    rewrite (IH _ _ _ _ Hr j sl Hl). cbn [next_oid].
    f_equal. f_equal; [lia|f_equal; lia|f_equal; lia].
Qed.

Lemma create_segments_store_wf par titleOf plan : ∀ i db db' cs,
  store_wf db → (_id par < next_oid db)%N →
  create_segments par titleOf i plan db = (db', cs) → store_wf db'.
Proof.
  induction plan as [|s0 plan IH]; intros i db db' cs Hwf Hp Hc.
  - by injection Hc as <- <-.
  - cbn [create_segments] in Hc.
    destruct (Mongo.create _ db) as [db1 c] eqn:Hcr.
    destruct (create_segments par titleOf (i + 1) plan db1) as [db2 cs2] eqn:Hr.
    injection Hc as <- <-.
    apply (IH _ _ _ _) in Hr; [done| |].
    + apply (f_equal fst) in Hcr. cbn [fst] in Hcr. subst db1.
      apply create_store_wf; [done|done|].
      cbn. by intros p [= <-].
    + apply (f_equal fst) in Hcr. cbn in Hcr. subst db1. cbn. lia.
Qed.

(** X5.  An accepted split appends one child per segment and touches no
    existing document.  The child at position [j] gets the next fresh id,
    [segmentIndex = j], the parent's id as [segmentOf], the parent's owner,
    importance, urgency and difficulty, the slot's interval, and a null
    status; a well-formed collection stays well-formed. *)
Theorem split_children (par : Event) (n b : Z) (db : DB) (id : N)
    (titlePrefix : option string) (titles : list (option string))
    (Hrange : start par < end_ par) (Hn : 2 ≤ n) (Hb : 0 ≤ b)
    (Husable : 0 < totalMinutes par - (n - 1) * b)
    (Hfind : Mongo.findById id db = Some par) :
  ∃ db' cs,
    Server.split id (Some n) (Some b) titlePrefix titles db
    = (db', Json (Server.mkSplitResult (_id par) cs))
    ∧ docs db' = docs db ++ cs
    ∧ Z.of_nat (length cs) = n
    ∧ (∀ j c, cs !! j = Some c →
         _id c = (next_oid db + N.of_nat j)%N
         ∧ segmentIndex c = Some (Z.of_nat j)
         ∧ segmentOf c = Some (_id par)
         ∧ userId c = userId par
         ∧ importance c = importance par ∧ urgency c = urgency par
         ∧ difficulty c = difficulty par
         ∧ status c = None ∧ isRecurring c = false
         ∧ build_plan (start par) n b (totalMinutes par - (n - 1) * b) !! j
           = Some (slot_of c))
    ∧ (store_wf db → store_wf db').
Proof.
  unfold Server.split. rewrite Hfind.
  cbv zeta. cbn [default from_option Datatypes.id]. rewrite !Z.max_r by lia.
  fold (totalMinutes par).
  rewrite !bool_decide_eq_false_2 by lia.
  set (plan := build_plan (start par) n b (totalMinutes par - (n - 1) * b)).
  destruct (create_segments par _ 0 plan db) as [db' cs] eqn:Hc.
  pose proof (create_segments_spec par
    (Server.split_title (default (title par) titlePrefix) titles) plan 0 db)
    as Hspec.
  rewrite Hc in Hspec. destruct Hspec as (Hs & Hd & _ & _ & _).
  exists db', cs. split; [done|]. split; [done|].
  split.
  { rewrite <- (length_fmap slot_of), Hs. apply build_plan_length. lia. }
  split.
  - intros j c Hj.
    assert (is_Some (plan !! j)) as [sl Hsl].
    { apply lookup_lt_is_Some. rewrite <- Hs, length_fmap.
      by eapply lookup_lt_Some. }
    pose proof (create_segments_lookup _ _ _ _ _ _ _ Hc j sl Hsl) as Hcj.
    rewrite Hj in Hcj. injection Hcj as ->. cbn.
    repeat split; try done. rewrite Hsl. by destruct sl.
  - intros Hwf. eapply create_segments_store_wf; [done| |exact Hc].
    apply findOne_Some in Hfind as [Hin _].
    destruct Hwf as [_ Hall]. rewrite Forall_forall in Hall.
    by apply Hall.
Qed.

Lemma split_children_witness :
  ∃ db' cs,
    Server.split 1 (Some 3) (Some 10) None [] db200
    = (db', Json (Server.mkSplitResult 1 cs))
    ∧ docs db' = docs db200 ++ cs.
Proof.
  destruct (split_children task200 3 10 db200 1 None [])
    as (db' & cs & He & Hd & _);
    [by vm_compute|lia|lia|by vm_compute|by vm_compute|].
  exists db', cs. split; [exact He|exact Hd].
Defined.

(** ** Requests that are refused *)

(** X6.  A request that is refused writes nothing: whenever the status
    update, either split path, the create handler, the chat add, the chat
    edit or a chat mark answers with something else than its success
    reply, the collection is the one it started from. *)
Theorem refused_requests_write_nothing (db db' : DB) :
  (∀ id raw r, Server.patch_status id raw db = (db', r) →
               payload r = None → db' = db)
  ∧ (∀ id count brk tp titles r,
       Server.split id count brk tp titles db = (db', r) →
       payload r = None → db' = db)
  ∧ (∀ uid tm mCount mBreak r,
       Server.chat_split uid tm mCount mBreak db = (db', r) →
       payload r = None → db' = db)
  ∧ (∀ ttl s e imp urg diff uid allowDouble r,
       Server.post_events ttl s e imp urg diff uid allowDouble db = (db', r) →
       (∀ ev, r ≠ Created ev) → db' = db)
  ∧ (∀ tz now uid tr ttl imp urg diff r,
       Server.chat_add tz now uid tr ttl imp urg diff db = (db', r) →
       (∀ ev, r ≠ Server.AddedTask ev) → db' = db)
  ∧ (∀ tz now uid tm tr imp urg diff r,
       Server.chat_edit tz now uid tm tr imp urg diff db = (db', r) →
       (∀ ev, r ≠ Server.Rescheduled ev) → db' = db)
  ∧ (∀ now st par r,
       Server.mark_parent now st par db = (db', r) →
       mark_written r = false → db' = db)
  ∧ (∀ now segNum st par r,
       Server.mark_segment now segNum st par db = (db', r) →
       mark_written r = false → db' = db).
Proof.
  repeat split.
  - intros id raw r. unfold Server.patch_status.
    destruct (Server.parse_status raw); [|by answered].
    destruct (Mongo.findById id db) as [ev|]; [|by answered].
    destruct (match segmentOf ev with Some _ => _ | None => _ end)
      as [[[db2 pu] pa] f1].
    destruct (match segmentOf ev with Some _ => _ | None => _ end)
      as [db3 f]. by answered.
  - intros id count brk tp titles r. unfold Server.split.
    destruct (Mongo.findById id db) as [par|]; [|by answered]. cbv zeta.
    repeat case_bool_decide; try by answered.
    destruct (create_segments _ _ _ _ _). by answered.
  - intros uid tm mCount mBreak r. unfold Server.chat_split.
    destruct (Server.split_target uid tm db) as [ev|]; [|by answered].
    cbv zeta. repeat case_bool_decide; try by answered.
    destruct (create_segments _ _ _ _ _). by answered.
  - intros ttl s e imp urg diff uid allowDouble r. unfold Server.post_events.
    case_bool_decide; [by answered|].
    destruct (if allowDouble then None else _); [by answered|].
    cbn. answered. intros Hr. exfalso. by eapply Hr.
  - intros tz now uid tr ttl imp urg diff r. unfold Server.chat_add.
    destruct tr as [[s e]|]; [|by answered].
    repeat case_bool_decide; try by answered.
    destruct (Server.add_conflict uid s e db); [by answered|].
    cbn. answered. intros Hr. exfalso. by eapply Hr.
  - intros tz now uid tm tr imp urg diff r. unfold Server.chat_edit.
    destruct (Server.split_target uid tm db) as [ev|]; [|by answered].
    destruct tr as [[s e]|]; [|by answered].
    destruct (Server.edit_conflict _ _ _ _ _); [by answered|].
    answered. intros Hr. exfalso. by eapply Hr.
  - intros now st par r. unfold Server.mark_parent. cbv zeta.
    destruct st.
    + destruct (filter _ _); [|by answered].
      destruct (Server.children_of _ _); [|by answered].
      case_bool_decide; by answered.
    + destruct (Server.children_of _ _); by answered.
  - intros now segNum st par r. unfold Server.mark_segment. cbv zeta.
    destruct (Server.choose_segment _ _ _) as [reply|child].
    + answered. intros _. done.
    + case_bool_decide; [by answered|].
      unfold Server.mark_child. cbv zeta.
      destruct (Server.all_counted _); by answered.
Qed.

Lemma refused_requests_write_nothing_witness :
  (Server.chat_split 7 study_react (Some 2) None db179).1 = db179.
Proof.
  destruct (Server.chat_split 7 study_react (Some 2) None db179)
    as [db' r] eqn:He.
  cbn [fst].
  refine (proj1 (proj2 (proj2 (refused_requests_write_nothing db179 db')))
            _ _ _ _ _ He _).
  vm_compute in He. by injection He as <- <-.
Defined.

(** ** Cascades from a parent to its children *)

Lemma set_status_same st c : status c = st → set_status st c = c.
Proof. intros <-. by destruct c. Qed.

Lemma db_eq (db : DB) l :
  docs db = l → db = {| docs := l; next_oid := next_oid db |}.
Proof. intros <-. by destruct db. Qed.

(** X7.  Status update of a standalone or parent event in [part_000]:
    completed makes the event and those of its children whose status is
    null completed and leaves every other document alone, resolved
    children included; [finalized] tells whether there was such a child.
    Missed changes the event only. *)
Theorem patch_parent_cascade (db : DB) (id : N) (ev : Event)
    (Hev : Mongo.findById id db = Some ev)
    (Hroot : segmentOf ev = None) :
  (∃ r,
      Server.patch_status id "completed" db
      = ({| docs := cascade_completed id <$> docs db;
            next_oid := next_oid db |}, Json r)
      ∧ Server.parentUpdated r = false
      ∧ (Server.finalized r = true
         ↔ Exists (λ c, _id c ≠ id ∧ segmentOf c = Some id ∧ status c = None)
             (docs db)))
  ∧ (∃ r,
      Server.patch_status id "missed" db
      = ({| docs := mark_one id missed <$> docs db;
            next_oid := next_oid db |}, Json r)
      ∧ Server.finalized r = false).
Proof.
  pose proof (findOne_Some _ _ _ Hev) as [Hin Hid].
  split.
  - unfold Server.patch_status.
    change (Server.parse_status "completed") with (Some completed).
    rewrite Hev, Hroot. cbv zeta. rewrite Hid.
    set (pend := λ c : Event, segmentOf c = Some id ∧ status c = None).
    destruct (Mongo.find pend (Mongo.findByIdAndUpdate id completed db))
      as [|k ks] eqn:Hf.
    + eexists. split.
      { f_equal. unfold Mongo.findByIdAndUpdate, Mongo.updateMany. f_equal.
        apply list_fmap_ext. intros i c Hc. unfold cascade_completed.
        destruct (decide (_id c = id)) as [Hc1|Hc1]; [done|].
        rewrite decide_False; [done|]. intros Hp.
        apply (filter_nil_not_elem_of _ _ c Hf Hp).
        cbn [Mongo.findByIdAndUpdate Mongo.updateMany docs].
        apply list_elem_of_fmap. exists c.
        split; [by rewrite decide_False|by eapply list_elem_of_lookup_2]. }
      split; [reflexivity|].
      cbn. split; [done|]. intros He. exfalso.
      apply Exists_exists in He as (c & Hc & Hne & Hp).
      apply (filter_nil_not_elem_of _ _ c Hf Hp).
      cbn [Mongo.findByIdAndUpdate Mongo.updateMany docs].
      apply list_elem_of_fmap. exists c. split; [by rewrite decide_False|done].
    + eexists. split.
      { f_equal. unfold Mongo.findByIdAndUpdate, Mongo.updateMany.
        cbn [docs next_oid]. f_equal. rewrite <- list_fmap_compose.
        apply list_fmap_ext. intros i c Hc. unfold cascade_completed. cbn.
        destruct (decide (_id c = id)) as [Hc1|Hc1]; [|done].
        rewrite decide_False; [done|]. by intros [_ ?]. }
      split; [reflexivity|].
      cbn. split; [intros _|done].
      assert (k ∈ Mongo.find pend (Mongo.findByIdAndUpdate id completed db))
        as Hk by (rewrite Hf; left).
      apply list_elem_of_filter in Hk as [Hp Hk].
      cbn [Mongo.findByIdAndUpdate Mongo.updateMany docs] in Hk.
      apply list_elem_of_fmap in Hk as (c & -> & Hc).
      apply Exists_exists. exists c. split; [done|].
      destruct (decide (_id c = id)); [by destruct Hp|done].
  - unfold Server.patch_status.
    change (Server.parse_status "missed") with (Some missed).
    rewrite Hev, Hroot. cbv zeta. by eexists.
Qed.

Lemma patch_parent_cascade_witness :
  ∃ r,
    Server.patch_status 1 "completed"
      (family None (Some missed) None None)
    = (family (Some completed) (Some missed) (Some completed) (Some completed),
       Json r).
Proof.
  destruct (patch_parent_cascade (family None (Some missed) None None) 1
              (sample 1 "Study react" 0 (600 * 60000) None None None)
              eq_refl eq_refl) as [(r & He & _) _].
  exists r. exact He.
Defined.

(** X8.  Chat mark of a parent as completed: when it is accepted, the
    parent and every one of its children are completed afterwards, also
    the children that were missed before. *)
Theorem chat_completed_overwrites_children (now : Z) (par : Event)
    (db db' : DB) (k : nat)
    (Hmark : Server.mark_parent now completed par db
             = (db', Server.Marked (_id par) completed k)) :
  db' = {| docs := complete_family (_id par) <$> docs db;
           next_oid := next_oid db |}.
Proof.
  revert Hmark. unfold Server.mark_parent. cbv zeta.
  destruct (filter _ _); [|done].
  destruct (Server.children_of (_id par) db) as [|c cs] eqn:Hk.
  - case_bool_decide; [done|]. intros [= <- _].
    unfold Mongo.findByIdAndUpdate, Mongo.updateMany. f_equal.
    apply list_fmap_ext. intros i c Hc. unfold complete_family.
    destruct (decide (_id c = _id par)) as [Hid|Hid].
    + by rewrite decide_True by (by left).
    + rewrite decide_False; [done|]. intros [?|Hs]; [done|].
      apply (filter_nil_not_elem_of _ _ c Hk Hs).
      by eapply list_elem_of_lookup_2.
  - intros [= <- _].
    unfold Mongo.findByIdAndUpdate, Mongo.updateMany.
    cbn [docs next_oid]. f_equal. rewrite <- list_fmap_compose.
    apply list_fmap_ext. intros i x Hx. unfold complete_family. cbn.
    destruct (decide (segmentOf x = Some (_id par))) as [Hs|Hs]; cbn;
      destruct (decide (_id x = _id par)) as [Hid|Hid].
    + by rewrite decide_True by (by left).
    + by rewrite decide_True by (by right).
    + by rewrite decide_True by (by left).
    + rewrite decide_False; [done|]. by intros [?|?].
Qed.

Lemma chat_completed_overwrites_children_witness :
  (Server.mark_parent (600 * 60000) completed
     (sample 1 "Study react" 0 (600 * 60000) None None None)
     (family None (Some missed) None (Some completed))).1
  = family (Some completed) (Some completed) (Some completed) (Some completed).
Proof.
  rewrite (chat_completed_overwrites_children (600 * 60000)
             (sample 1 "Study react" 0 (600 * 60000) None None None)
             (family None (Some missed) None (Some completed))
             (family (Some completed) (Some completed) (Some completed)
                (Some completed)) 3).
  - reflexivity.
  - vm_compute. reflexivity.
Defined.

Lemma children_ids_after_update pid id st db :
  _id <$> Server.children_of pid (Mongo.findByIdAndUpdate id st db)
  = _id <$> Server.children_of pid db.
Proof.
  unfold Server.children_of, Mongo.find.
  cbn [Mongo.findByIdAndUpdate Mongo.updateMany docs].
  induction (docs db) as [|x l IH]; [done|].
  rewrite fmap_cons.
  destruct (decide (segmentOf x = Some pid)) as [Hs|Hs].
  - rewrite (filter_cons_True _ x) by done.
    rewrite filter_cons_True by (by destruct (decide (_id x = id))).
    rewrite !fmap_cons, IH. f_equal. by destruct (decide (_id x = id)).
  - rewrite (filter_cons_False _ x) by done.
    rewrite filter_cons_False by (by destruct (decide (_id x = id))).
    done.
Qed.

(** X9.  Status update of a standalone or parent event in
    [src/server.js] that is not recurring (the post-save hook of the
    schema acts on recurring birthday events only): completed makes the
    event and all its children completed, missed children included;
    missed changes the event only. *)
Theorem legacy_parent_cascade (db : DB) (id : N) (ev : Event)
    (Hev : Mongo.findById id db = Some ev)
    (Hroot : segmentOf ev = None)
    (Hplain : isRecurring ev = false) :
  (∃ r,
      Legacy.patch_status id "completed" db
      = ({| docs := complete_family id <$> docs db;
            next_oid := next_oid db |}, Json r)
      ∧ Legacy.updatedChildIds r = _id <$> Server.children_of id db)
  ∧ (∃ r,
      Legacy.patch_status id "missed" db
      = ({| docs := mark_one id missed <$> docs db;
            next_oid := next_oid db |}, Json r)).
Proof.
  pose proof (findOne_Some _ _ _ Hev) as [Hin Hid].
  split.
  - unfold Legacy.patch_status.
    change (Server.parse_status "completed") with (Some completed).
    rewrite Hev, Hroot. cbv zeta. rewrite Hid.
    pose proof (children_ids_after_update id id completed db) as Hids.
    unfold Server.children_of at 1 in Hids.
    destruct (Mongo.find (λ c, segmentOf c = Some id)
                (Mongo.findByIdAndUpdate id completed db)) as [|k ks] eqn:Hf.
    + eexists. split.
      { f_equal. unfold Mongo.findByIdAndUpdate, Mongo.updateMany. f_equal.
        apply list_fmap_ext. intros i c Hc. unfold complete_family.
        destruct (decide (_id c = id)) as [Hc1|Hc1].
        - by rewrite decide_True by (by left).
        - rewrite decide_False; [done|]. intros [?|Hs]; [done|].
          apply (filter_nil_not_elem_of _ _ c Hf Hs).
          cbn [Mongo.findByIdAndUpdate Mongo.updateMany docs].
          apply list_elem_of_fmap. exists c.
          split; [by rewrite decide_False|by eapply list_elem_of_lookup_2]. }
      cbn. by rewrite <- Hids.
    + eexists. split.
      { f_equal. unfold Mongo.findByIdAndUpdate, Mongo.updateMany.
        cbn [docs next_oid]. f_equal. rewrite <- list_fmap_compose.
        apply list_fmap_ext. intros i c Hc. unfold complete_family. cbn.
        destruct (decide (_id c = id)) as [Hc1|Hc1]; cbn.
        - destruct (decide (_ ∨ _)) as [_|Hn]; [|by destruct Hn; left].
          by destruct (decide (_ ∧ _)) as [[_ Hx]|_]; [destruct Hx|].
        - destruct (decide (_ ∨ _)) as [[?|Hs]|Hn]; [done| |].
          + destruct (decide (_ ∧ _)) as [_|Hx]; [done|].
            rewrite set_status_same; [done|].
            destruct (decide (status c = Some completed)); [done|].
            by destruct Hx.
          + destruct (decide (_ ∧ _)) as [[Hs _]|_]; [|done].
            by destruct Hn; right. }
      cbn. by rewrite <- Hids.
  - unfold Legacy.patch_status.
    change (Server.parse_status "missed") with (Some missed).
    rewrite Hev, Hroot. cbv zeta. by eexists.
Qed.

Lemma legacy_parent_cascade_witness :
  ∃ r,
    Legacy.patch_status 1 "completed"
      (family None (Some missed) None (Some completed))
    = (family (Some completed) (Some completed) (Some completed)
         (Some completed), Json r).
Proof.
  destruct (legacy_parent_cascade
              (family None (Some missed) None (Some completed)) 1
              (sample 1 "Study react" 0 (600 * 60000) None None None)
              eq_refl eq_refl eq_refl) as [(r & He & _) _].
  exists r. exact He.
Defined.



(** ** Deletion *)

Section Deletion.

Context (P : Event → Prop) `{∀ e, Decision (P e)}.

Lemma two_level_filter db :
  two_level db →
  two_level {| docs := filter P (docs db); next_oid := next_oid db |}.
Proof.
  rewrite !two_level_forall. cbn [docs]. intros Hinv c p Hc Hp.
  apply list_elem_of_filter in Hc as [_ Hc], Hp as [_ Hp]. by apply Hinv.
Qed.

Lemma store_wf_filter db :
  store_wf db →
  store_wf {| docs := filter P (docs db); next_oid := next_oid db |}.
Proof.
  intros [Hnd Hall]. split; cbn [docs next_oid].
  - eapply sublist_NoDup; [exact Hnd|].
    apply fmap_sublist, sublist_filter.
  - apply Forall_forall. intros c Hc.
    apply list_elem_of_filter in Hc as [_ Hc].
    rewrite Forall_forall in Hall. by apply Hall.
Qed.

End Deletion.

Lemma delete_event_docs id db ev :
  Mongo.findById id db = Some ev →
  (Server.delete_event id db).1
  = {| docs := filter (λ c, _id c ≠ id ∧ segmentOf c ≠ Some id) (docs db);
       next_oid := next_oid db |}.
Proof.
  intros Hev. unfold Server.delete_event. rewrite Hev.
  cbn [fst Mongo.deleteById Mongo.deleteMany docs next_oid]. f_equal.
  rewrite list_filter_filter. apply list_filter_iff. tauto.
Qed.

(** X11.  [DELETE /events/:id] always answers "Event deleted".  When the
    event exists it removes that event and every document naming it as
    parent, and nothing else; when it does not exist nothing is removed,
    not even documents that name the id as their parent.  Afterwards the
    id is not found, and a two-level, well-formed collection stays so. *)
Theorem delete_event_removes_family (db : DB) (id : N) :
  (Server.delete_event id db).2 = Json "Event deleted"
  ∧ Mongo.findById id (Server.delete_event id db).1 = None
  ∧ (∀ c, c ∈ docs (Server.delete_event id db).1
          ↔ c ∈ docs db
            ∧ (is_Some (Mongo.findById id db) →
               _id c ≠ id ∧ segmentOf c ≠ Some id))
  ∧ (two_level db → two_level (Server.delete_event id db).1)
  ∧ (store_wf db → store_wf (Server.delete_event id db).1).
Proof.
  destruct (Mongo.findById id db) as [ev|] eqn:Hev.
  - rewrite (delete_event_docs id db ev Hev).
    split; [unfold Server.delete_event; by rewrite Hev|].
    split; [|split; [|split]].
    + apply findById_absent. cbn [docs]. apply Forall_forall.
      intros c Hc. by apply list_elem_of_filter in Hc as [[? _] _].
    + intros c. cbn [docs]. rewrite list_elem_of_filter. split.
      * intros [? ?]. done.
      * intros [? Hi]. split; [|done]. by apply Hi.
    + apply two_level_filter.
    + apply store_wf_filter.
  - unfold Server.delete_event. rewrite Hev. cbn [fst snd].
    split; [done|]. split; [done|]. split; [|done].
    intros c. split; [|by intros [? _]].
    intros Hc. split; [done|]. by intros [? ?].
Qed.

(** X12.  The chat command "delete segments of <title>" removes exactly
    the documents naming the resolved parent as their parent and reports
    their number; "delete <title>" removes the designated event alone when
    it is a segment, and with all its segments when it is not. *)
Theorem chat_delete_effect (uid : N)
    (exactMatch titleMatch tokenMatch : string → bool) (db : DB) :
  (∀ par,
      Server.resolve_parent uid titleMatch tokenMatch db = Some par →
      Server.chat_delete uid true exactMatch titleMatch tokenMatch db
      = ({| docs := filter (λ c, segmentOf c ≠ Some (_id par)) (docs db);
            next_oid := next_oid db |},
         Server.DeletedSegments (_id par)
           (length (Server.children_of (_id par) db))))
  ∧ (∀ ev,
      Server.delete_target uid exactMatch titleMatch tokenMatch db = Some ev →
      (Server.chat_delete uid false exactMatch titleMatch tokenMatch db).1
      = {| docs := filter (λ c, _id c ≠ _id ev
                                ∧ (segmentOf ev = None →
                                   segmentOf c ≠ Some (_id ev))) (docs db);
           next_oid := next_oid db |}).
Proof.
  split.
  - intros par Hp. unfold Server.chat_delete. by rewrite Hp.
  - intros ev Ht. unfold Server.chat_delete. rewrite Ht.
    destruct (segmentOf ev) as [p|] eqn:Hs.
    + cbn [fst Mongo.deleteById Mongo.deleteMany docs next_oid]. f_equal.
      apply list_filter_iff. intros c. split; [done|by intros [? _]].
    + cbn [fst Mongo.deleteById Mongo.deleteMany docs next_oid]. f_equal.
      rewrite list_filter_filter. apply list_filter_iff. intros c.
      split; [by intros [? ?]|]. intros [? Hi]. split; [by apply Hi|done].
Qed.

Lemma chat_delete_effect_witness :
  Server.chat_delete 7 true study_react study_react (λ _, false) db400_split
  = ({| docs := filter (λ c, segmentOf c ≠ Some 1%N) (docs db400_split);
        next_oid := next_oid db400_split |},
     Server.DeletedSegments 1 2).
Proof.
  exact (proj1 (chat_delete_effect 7 study_react study_react (λ _, false)
                  db400_split) task400 eq_refl).
Defined.

(** X13.  Splitting an event that has no segments and then deleting its
    segments gives back the documents the collection had before. *)
Theorem split_then_delete_segments (par : Event) (db db' : DB) (id : N)
    (count brk : option Z) (titlePrefix : option string)
    (titles : list (option string)) (r : Response Server.SplitResult)
    (Hfind : Mongo.findById id db = Some par)
    (Hnone : Server.children_of (_id par) db = [])
    (Hsplit : Server.split id count brk titlePrefix titles db = (db', r)) :
  docs (Mongo.deleteMany (λ c, segmentOf c = Some (_id par)) db').1 = docs db.
Proof.
  assert (filter (λ c, ¬ segmentOf c = Some (_id par)) (docs db) = docs db)
    as Hkeep.
  { unfold Server.children_of, Mongo.find in Hnone.
    induction (docs db) as [|x l IH]; [done|].
    destruct (decide (segmentOf x = Some (_id par))) as [Hx|Hx].
    - by rewrite filter_cons_True in Hnone.
    - rewrite filter_cons_False in Hnone by done.
      rewrite filter_cons_True by done. by rewrite IH. }
  revert Hsplit. unfold Server.split. rewrite Hfind. cbv zeta.
  cbn [Mongo.deleteMany fst docs].
  repeat case_bool_decide; try by answered.
  destruct (create_segments _ _ _ _ _) as [db2 cs] eqn:Hc. answered.
  pose proof (create_segments_spec par
    (Server.split_title (default (title par) titlePrefix) titles)
    (build_plan (start par) (1 `max` default 0 count)
       (0 `max` default 0 brk)
       ((end_ par - start par) `div` 60000
        - (1 `max` default 0 count - 1) * 0 `max` default 0 brk)) 0 db)
    as Hspec.
  rewrite Hc in Hspec. destruct Hspec as (_ & Hd & _ & Hkids & _).
  rewrite Hd, filter_app, Hkeep.
  rewrite (filter_Forall_nil (λ c, ¬ segmentOf c = Some (_id par))),
    app_nil_r; [done|].
  eapply Forall_impl; [exact Hkids|]. cbn. intros c (Hs & _) Hn.
  exact (Hn Hs).
Qed.

Lemma split_then_delete_segments_witness :
  docs (Mongo.deleteMany (λ c, segmentOf c = Some 1%N) db400_split).1
  = docs db400.
Proof.
  refine (split_then_delete_segments task400 db400 db400_split 1
            (Some 2) (Some 0) None []
            (Server.split 1 (Some 2) (Some 0) None [] db400).2
            eq_refl eq_refl _).
  unfold db400_split.
  by destruct (Server.split 1 (Some 2) (Some 0) None [] db400).
Defined.

(** ** Time ranges of the chat endpoint *)

Lemma at_time_closed tz b H m :
  Server.at_time tz (Server.startOfDay tz b) H m
  = Server.startOfDay tz b + H * Server.MS_HOUR + m * Server.MS_MINUTE.
Proof.
  unfold Server.at_time, Server.set_millisecond, Server.set_second,
    Server.set_minute, Server.set_hour, Server.startOfDay, Server.local_time,
    Server.MS_DAY, Server.MS_HOUR, Server.MS_MINUTE.
  Z.to_euclidean_division_equations. lia.
Qed.

Lemma range_at_closed tz b H1 m1 H2 m2 :
  Server.range_at tz (Server.startOfDay tz b) H1 m1 H2 m2
  = if bool_decide (H1 * 60 + m1 < H2 * 60 + m2)
    then Some (Server.startOfDay tz b + (H1 * 60 + m1) * Server.MS_MINUTE,
               Server.startOfDay tz b + (H2 * 60 + m2) * Server.MS_MINUTE)
    else None.
Proof.
  unfold Server.range_at. cbv zeta. rewrite !at_time_closed.
  unfold Server.MS_HOUR, Server.MS_MINUTE.
  repeat case_bool_decide; try done; try lia. f_equal. f_equal; lia.
Qed.

Lemma parseTimeRange_range tz m b s e :
  Server.parseTimeRange tz m b = Some (s, e) →
  ∃ a1 a2, a1 < a2
    ∧ s = Server.startOfDay tz b + a1 * Server.MS_MINUTE
    ∧ e = Server.startOfDay tz b + a2 * Server.MS_MINUTE.
Proof.
  unfold Server.parseTimeRange. destruct m as [r|]; [|discriminate].
  cbn [mbind option_bind]. cbv zeta.
  repeat match goal with
         | |- context [let '(_, _) := ?p in _] => destruct p eqn:?
         end.
  rewrite range_at_closed.
  destruct (bool_decide (_ < _)) eqn:Hlt; [|done].
  apply bool_decide_eq_true in Hlt. intros [= <- <-]. eauto.
Qed.

Lemma parsed_range_bounds tz m b s e :
  Server.parseTimeRange tz m b = Some (s, e) →
  s < e ∧ (e - s) mod 60000 = 0.
Proof.
  intros (a1 & a2 & Hlt & -> & ->)%parseTimeRange_range.
  unfold Server.MS_MINUTE. split; [lia|].
  replace (_ - _) with ((a2 - a1) * 60000) by lia. by apply Z.mod_mul.
Qed.

Lemma local_time_on_grid tz b a :
  Server.local_time tz (Server.startOfDay tz b + a * Server.MS_MINUTE)
    mod Server.MS_MINUTE = 0.
Proof.
  unfold Server.startOfDay, Server.local_time, Server.MS_DAY,
    Server.MS_MINUTE.
  Z.to_euclidean_division_equations. lia.
Qed.

(** X14.  A range that [parseTimeRange] returns has its end after its
    start, both at a whole minute of the local clock (seconds and
    milliseconds zero), so its length is a whole number of minutes. *)
Theorem parsed_range_whole_minutes (tz : Z) (m : option Server.RangeMatch)
    (baseDay s e : Z)
    (Hparse : Server.parseTimeRange tz m baseDay = Some (s, e)) :
  s < e
  ∧ Server.local_time tz s mod Server.MS_MINUTE = 0
  ∧ Server.local_time tz e mod Server.MS_MINUTE = 0
  ∧ (e - s) mod Server.MS_MINUTE = 0.
Proof.
  apply parseTimeRange_range in Hparse as (a1 & a2 & Hlt & -> & ->).
  split; [unfold Server.MS_MINUTE; lia|].
  split; [apply local_time_on_grid|]. split; [apply local_time_on_grid|].
  replace (_ - _) with ((a2 - a1) * Server.MS_MINUTE) by lia.
  apply Z.mod_mul. done.
Qed.

Lemma parsed_range_whole_minutes_witness :
  21600000 < 28800000
  ∧ Server.local_time manila 21600000 mod Server.MS_MINUTE = 0
  ∧ Server.local_time manila 28800000 mod Server.MS_MINUTE = 0
  ∧ (28800000 - 21600000) mod Server.MS_MINUTE = 0.
Proof.
  apply (parsed_range_whole_minutes manila (Some range_2_4pm) 1000).
  reflexivity.
Defined.

(** X15.  With no meridiem on either side the start hour is taken as
    written, on the 24-hour clock: the second adjustment of the source,
    which would move the start into the afternoon, can never apply.  The
    end hour is moved by twelve hours exactly when it is at most 11 and
    not after a start hour of at most 12; so [2-4] is 02:00 to 04:00 and
    [4-2] is 04:00 to 14:00. *)
Theorem bare_hours_keep_the_start (tz : Z) (r : Server.RangeMatch)
    (baseDay : Z)
    (Hap1 : Server.rm_ap1 r = None) (Hap2 : Server.rm_ap2 r = None)
    (Hh2 : 0 ≤ Server.rm_h2 r) :
  Server.parseTimeRange tz (Some r) baseDay
  = Server.range_at tz (Server.startOfDay tz baseDay)
      (Server.rm_h1 r) (default 0 (Server.rm_min1 r))
      (if bool_decide (Server.rm_h2 r ≤ Server.rm_h1 r
                       ∧ Server.rm_h1 r ≤ 12 ∧ Server.rm_h2 r ≤ 11)
       then Server.rm_h2 r + 12 else Server.rm_h2 r)
      (default 0 (Server.rm_min2 r)).
Proof.
  destruct r as [h1 m1 ap1 h2 m2 ap2]. cbn in Hap1, Hap2, Hh2. subst.
  unfold Server.parseTimeRange. cbn [mbind option_bind]. cbv zeta.
  cbn [Server.rm_h1 Server.rm_h2 Server.rm_min1 Server.rm_min2
       Server.rm_ap1 Server.rm_ap2 Server.to24].
  rewrite (bool_decide_eq_false_2 (is_Some None ∧ _))
    by (intros [[? [=]] _]).
  rewrite (bool_decide_eq_false_2 (_ ∧ is_Some None ∧ _))
    by (intros (_ & [? [=]] & _)).
  rewrite (bool_decide_eq_true_2 (None = None ∧ None = None)) by done.
  repeat case_bool_decide; try reflexivity; exfalso; lia.
Qed.

Lemma bare_hours_keep_the_start_witness :
  Server.parseTimeRange manila (Some range_4_2) 1000
  = Server.range_at manila (Server.startOfDay manila 1000) 4 0 14 0
  ∧ Server.parseTimeRange manila (Some range_2_4) 1000
    = Server.range_at manila (Server.startOfDay manila 1000) 2 0 4 0.
Proof.
  split.
  - apply (bare_hours_keep_the_start manila range_4_2 1000); [done|done|].
    cbn. lia.
  - apply (bare_hours_keep_the_start manila range_2_4 1000); [done|done|].
    cbn. lia.
Defined.

(** X16.  When exactly one side of the range carries a meridiem and the
    hour of the other side is at most 12, both hours are read with that
    meridiem.  The range is then accepted exactly when, within that half
    of the day, the start comes before the end: a range written across
    noon, like [11-1pm], is refused. *)
Theorem one_meridiem_is_shared (tz : Z) (r : Server.RangeMatch)
    (baseDay : Z) (a : Server.Meridiem)
    (Hone : (Server.rm_ap1 r = Some a ∧ Server.rm_ap2 r = None
             ∧ Server.rm_h2 r ≤ 12)
            ∨ (Server.rm_ap1 r = None ∧ Server.rm_ap2 r = Some a
               ∧ Server.rm_h1 r ≤ 12)) :
  Server.parseTimeRange tz (Some r) baseDay
  = Server.range_at tz (Server.startOfDay tz baseDay)
      (Server.to24 (Server.rm_h1 r) (Some a)) (default 0 (Server.rm_min1 r))
      (Server.to24 (Server.rm_h2 r) (Some a)) (default 0 (Server.rm_min2 r))
  ∧ (is_Some (Server.parseTimeRange tz (Some r) baseDay)
     ↔ Z.rem (Server.rm_h1 r) 12 * 60 + default 0 (Server.rm_min1 r)
       < Z.rem (Server.rm_h2 r) 12 * 60 + default 0 (Server.rm_min2 r)).
Proof.
  assert (Server.parseTimeRange tz (Some r) baseDay
          = Server.range_at tz (Server.startOfDay tz baseDay)
              (Server.to24 (Server.rm_h1 r) (Some a))
              (default 0 (Server.rm_min1 r))
              (Server.to24 (Server.rm_h2 r) (Some a))
              (default 0 (Server.rm_min2 r))) as Heq.
  { destruct r as [h1 m1 ap1 h2 m2 ap2]. cbn in Hone.
    unfold Server.parseTimeRange. cbn [mbind option_bind]. cbv zeta.
    cbn [Server.rm_h1 Server.rm_h2 Server.rm_min1 Server.rm_min2
         Server.rm_ap1 Server.rm_ap2].
    destruct Hone as [(-> & -> & Hh)|(-> & -> & Hh)].
    - rewrite (bool_decide_eq_true_2 (is_Some (Some a) ∧ _)) by eauto.
      rewrite (bool_decide_eq_false_2 (Some a = None ∧ _))
        by (by intros [[=] _]).
      done.
    - rewrite (bool_decide_eq_false_2 (is_Some None ∧ _))
        by (intros [[? [=]] _]).
      rewrite (bool_decide_eq_true_2 (None = None ∧ is_Some (Some a) ∧ _))
        by eauto.
      rewrite (bool_decide_eq_false_2 (None = None ∧ Some a = None))
        by (by intros [_ [=]]).
      done. }
  split; [exact Heq|]. rewrite Heq, range_at_closed.
  unfold Server.to24. destruct a; case_bool_decide; split; intros Hx;
    first [by eauto | lia | by destruct Hx as [? [=]] | exfalso; lia].
Qed.

Lemma one_meridiem_is_shared_witness :
  Server.parseTimeRange manila (Some range_11_1pm) 1000 = None.
Proof.
  destruct (one_meridiem_is_shared manila range_11_1pm 1000 Server.pm)
    as [-> _].
  - right. cbn. split; [done|]. split; [done|lia].
  - reflexivity.
Defined.

Lemma findById_created db e :
  store_wf db → _id e = next_oid db →
  Mongo.findById (_id e)
    {| docs := docs db ++ [e]; next_oid := N.succ (next_oid db) |} = Some e.
Proof.
  intros Hwf Hid. pose proof (create_fresh db Hwf) as Hfresh.
  unfold Mongo.findById, Mongo.findOne, Mongo.find. cbn [docs].
  rewrite filter_app, (filter_cons_True _ e), filter_nil by done.
  pose proof (findById_absent _ _ Hfresh) as Hn.
  unfold Mongo.findById, Mongo.findOne, Mongo.find in Hn.
  apply head_None in Hn. rewrite Hid. by rewrite Hn.
Qed.

(** X17.  The ADD_TASK branch of the chat, fed with what [parseTimeRange]
    returns: its second check of the range never answers, and a task it
    adds starts after now, ends after it starts, lasts a whole number of
    minutes, is pending and standalone, and is the one document appended
    to the collection. *)
Theorem chat_add_parsed (tz now : Z) (uid : N)
    (m : option Server.RangeMatch) (baseDay : Z) (ttl : string)
    (imp urg : Level) (diff : Difficulty) (db : DB) :
  let r := Server.chat_add tz now uid
             (Server.parseTimeRange tz m baseDay) ttl imp urg diff db in
  r.2 ≠ Server.ChatMessage "ADD_TASK"
          "Invalid time range: end must be after start."
  ∧ ∀ ev, r.2 = Server.AddedTask ev →
      now < start ev < end_ ev
      ∧ (end_ ev - start ev) mod 60000 = 0
      ∧ title ev = ttl ∧ userId ev = uid
      ∧ status ev = None ∧ segmentOf ev = None
      ∧ _id ev = next_oid db
      ∧ r.1 = {| docs := docs db ++ [ev]; next_oid := N.succ (next_oid db) |}.
Proof.
  cbv zeta. unfold Server.chat_add.
  destruct (Server.parseTimeRange tz m baseDay) as [[s e]|] eqn:Hp;
    [|split; [done|by intros ev [=]]].
  apply parsed_range_bounds in Hp as [Hlt Hmod].
  rewrite (bool_decide_eq_false_2 (¬ s < e)) by lia.
  case_bool_decide; [split; [done|by intros ev [=]]|].
  destruct (Server.add_conflict uid s e db);
    [split; [done|by intros ev [=]]|].
  cbn [Mongo.create fst snd]. split; [done|].
  intros ev [= <-]. cbn. repeat split; try done; lia.
Qed.

(** X18.  A task added through the chat splits without remainder: for
    every accepted split request on it, the segments are [n], their
    minutes and the breaks add up to the minutes of the task, and the last
    segment ends exactly where the task ends. *)
Theorem chat_added_task_splits_exactly (tz now : Z) (uid : N)
    (m : option Server.RangeMatch) (baseDay : Z) (ttl : string)
    (imp urg : Level) (diff : Difficulty) (db db' : DB) (ev : Event)
    (n b : Z) (titlePrefix : option string) (titles : list (option string))
    (Hwf : store_wf db)
    (Hadd : Server.chat_add tz now uid
              (Server.parseTimeRange tz m baseDay) ttl imp urg diff db
            = (db', Server.AddedTask ev))
    (Hn : 2 ≤ n) (Hb : 0 ≤ b)
    (Husable : 0 < totalMinutes ev - (n - 1) * b) :
  ∃ db'' cs,
    Server.split (_id ev) (Some n) (Some b) titlePrefix titles db'
    = (db'', Json (Server.mkSplitResult (_id ev) cs))
    ∧ Z.of_nat (length cs) = n
    ∧ total_segment_minutes cs + (n - 1) * b = totalMinutes ev
    ∧ totalMinutes ev * 60000 = end_ ev - start ev
    ∧ end_ <$> last cs = Some (end_ ev).
Proof.
  unfold Server.chat_add in Hadd.
  destruct (Server.parseTimeRange tz m baseDay) as [[s e]|] eqn:Hp;
    [|done].
  apply parsed_range_bounds in Hp as [Hlt Hmod].
  rewrite (bool_decide_eq_false_2 (¬ s < e)) in Hadd by lia.
  case_bool_decide; [done|].
  destruct (Server.add_conflict uid s e db); [done|].
  cbn [Mongo.create] in Hadd. injection Hadd as <- <-.
  set (ev := new_event ttl s e imp urg diff uid (next_oid db)) in *.
  assert (Mongo.findById (_id ev)
            {| docs := docs db ++ [ev]; next_oid := N.succ (next_oid db) |}
          = Some ev) as Hf by (by apply findById_created).
  destruct (split_accepts ev n b _ (_id ev) titlePrefix titles
              Hlt Hn Hb Husable Hf) as (db'' & cs & He & _ & Hs).
  pose proof (conserves_plan ev n b cs Hn Hb Husable Hs) as (Hl & Ht & Hlast).
  pose proof (last_end_bounds ev) as [_ Hex].
  specialize (Hex Hmod).
  exists db'', cs. repeat split; [done..|lia|by rewrite Hlast, Hex].
Qed.

Lemma chat_added_task_splits_exactly_witness :
  ∃ db'' cs,
    Server.split 2 (Some 2) (Some 0) None []
      (Server.chat_add manila 0 7
         (Server.parseTimeRange manila (Some range_2_4pm) 1000)
         "Gym" high low medium db200).1
    = (db'', Json (Server.mkSplitResult 2 cs))
    ∧ Z.of_nat (length cs) = 2
    ∧ total_segment_minutes cs + (2 - 1) * 0 = 120
    ∧ 120 * 60000 = 28800000 - 21600000
    ∧ end_ <$> last cs = Some 28800000.
Proof.
  refine (chat_added_task_splits_exactly manila 0 7 (Some range_2_4pm) 1000
            "Gym" high low medium db200
            (Server.chat_add manila 0 7
               (Server.parseTimeRange manila (Some range_2_4pm) 1000)
               "Gym" high low medium db200).1
            (new_event "Gym" 21600000 28800000 high low medium 7 2)
            2 0 None [] _ _ _ _ _).
  - split; [by apply (bool_decide_unpack _); vm_compute|].
    apply Forall_singleton. split; [done|]. intros p Hp. discriminate Hp.
  - reflexivity.
  - lia.
  - lia.
  - reflexivity.
Defined.

(** ** The schedule of a day and the week of the reports *)

#[local] Instance start_le_total : Total Server.start_le.
Proof. intros a b. unfold Server.start_le. lia. Qed.

#[local] Instance start_le_trans : Transitive Server.start_le.
Proof. intros a b c. unfold Server.start_le. lia. Qed.

Lemma local_day_le_endOfDay tz s t :
  s ≤ Server.endOfDay tz t ↔ Server.local_day tz s ≤ Server.local_day tz t.
Proof.
  unfold Server.endOfDay, Server.startOfDay, Server.local_time,
    Server.local_day, Server.MS_DAY.
  Z.to_euclidean_division_equations. lia.
Qed.

Lemma local_day_ge_startOfDay tz s t :
  Server.startOfDay tz t ≤ s ↔ Server.local_day tz t ≤ Server.local_day tz s.
Proof.
  unfold Server.startOfDay, Server.local_time, Server.local_day,
    Server.MS_DAY.
  Z.to_euclidean_division_equations. lia.
Qed.

(** X19.  The SCHEDULE branch lists, in ascending order of start, each
    matching document once; a document of the user whose end is not
    before its start is listed exactly when the requested local date is
    neither before the local date of its start nor after the local date
    of its end (so a task ending at midnight is also listed for the day
    that begins then). *)
Theorem schedule_lists_the_day (tz : Z) (uid : N) (targetDay : Z) (db : DB) :
  let l := Server.chat_schedule tz uid targetDay db in
  StronglySorted Server.start_le l
  ∧ l ≡ₚ filter (Server.schedule_query uid (Server.startOfDay tz targetDay)
                   (Server.endOfDay tz targetDay)) (docs db)
  ∧ ∀ ev, start ev ≤ end_ ev →
      (ev ∈ l ↔
       ev ∈ docs db ∧ userId ev = uid
       ∧ Server.local_day tz (start ev) ≤ Server.local_day tz targetDay
       ∧ Server.local_day tz targetDay ≤ Server.local_day tz (end_ ev)).
Proof.
  cbv zeta. unfold Server.chat_schedule. cbv zeta. unfold Mongo.find.
  split; [apply StronglySorted_merge_sort; apply _|].
  split; [apply merge_sort_Permutation|].
  intros ev Hle. rewrite merge_sort_Permutation, list_elem_of_filter.
  unfold Server.schedule_query.
  rewrite <- (local_day_le_endOfDay tz (start ev) targetDay).
  rewrite <- (local_day_ge_startOfDay tz (end_ ev) targetDay).
  assert (Server.startOfDay tz targetDay ≤ Server.endOfDay tz targetDay)
    by (unfold Server.endOfDay, Server.MS_DAY; lia).
  split.
  - intros [[Hu Hor] Hin]. repeat split; [done|done|lia|lia].
  - intros (Hin & Hu & Hs & He). repeat split; [done| |done].
    destruct (decide (Server.startOfDay tz targetDay ≤ start ev));
      [by left|].
    destruct (decide (end_ ev ≤ Server.endOfDay tz targetDay));
      [right; left; lia|right; right; lia].
Qed.

(** X20.  The window of the weekly dashboard and of the productivity
    report starts at the local midnight of a Monday, ends with the last
    millisecond of the following Sunday, contains the present moment, and
    matches exactly the documents of the user whose end falls on one of
    those seven local dates. *)
Theorem week_window_monday_to_sunday (tz now : Z) :
  Server.day_of_week tz (Server.windowStart tz now) = 1
  ∧ Server.local_time tz (Server.windowStart tz now) = 0
  ∧ Server.windowEnd tz now
    = Server.windowStart tz now + 7 * Server.MS_DAY - 1
  ∧ Server.windowStart tz now ≤ now ≤ Server.windowEnd tz now
  ∧ ∀ uid ev,
      Server.weekly_match tz now uid ev ↔
      userId ev = uid
      ∧ Server.local_day tz (Server.windowStart tz now)
        ≤ Server.local_day tz (end_ ev)
        ≤ Server.local_day tz (Server.windowStart tz now) + 6.
Proof.
  unfold Server.weekly_match, Server.windowEnd, Server.windowStart,
    Server.endOfDay, Server.monday_of, Server.day_of_week.
  cbv zeta.
  unfold Server.startOfDay, Server.local_time, Server.local_day,
    Server.MS_DAY.
  repeat split; intros; Z.to_euclidean_division_equations; lia.
Qed.

(** ** The weekly aggregation *)

Lemma sumZ_cons (x : Z) (xs : list Z) :
  Server.sumZ (x :: xs) = x + Server.sumZ xs.
Proof. reflexivity. Qed.

Lemma sumZ_plus {A} (a b : A → Z) (ks : list A) :
  Server.sumZ ((λ k, a k + b k) <$> ks)
  = Server.sumZ (a <$> ks) + Server.sumZ (b <$> ks).
Proof.
  induction ks as [|k ks IH]; [done|]. rewrite !fmap_cons, !sumZ_cons. lia.
Qed.

Lemma sumZ_ext {A} (a b : A → Z) (ks : list A) :
  (∀ k, k ∈ ks → a k = b k) →
  Server.sumZ (a <$> ks) = Server.sumZ (b <$> ks).
Proof.
  induction ks as [|k ks IH]; intros Hab; [done|].
  rewrite !fmap_cons, !sumZ_cons, (Hab k) by left. rewrite IH; [done|].
  intros k' Hk'. apply Hab. by right.
Qed.

Lemma sumZ_zero {A} (ks : list A) :
  Server.sumZ ((λ _, 0) <$> ks) = 0.
Proof.
  induction ks as [|k ks IH]; [done|]. rewrite fmap_cons, sumZ_cons. lia.
Qed.

Lemma sumZ_indicator {A} (Q : A → Prop) `{∀ k, Decision (Q k)}
    (ks : list A) :
  Server.sumZ ((λ k, if decide (Q k) then 1 else 0) <$> ks)
  = Z.of_nat (length (filter Q ks)).
Proof.
  induction ks as [|k ks IH]; [done|].
  rewrite fmap_cons, sumZ_cons, IH, filter_cons.
  destruct (decide (Q k)); cbn [length]; lia.
Qed.

Lemma sumZ_one_hot {A} `{EqDecision A} (a : A) (ks : list A) :
  NoDup ks → a ∈ ks →
  Server.sumZ ((λ k, if decide (a = k) then 1 else 0) <$> ks) = 1.
Proof.
  intros Hnd. induction Hnd as [|k ks Hk Hnd IH]; intros Hin.
  - by apply elem_of_nil in Hin.
  - rewrite fmap_cons, sumZ_cons. destruct (decide (a = k)) as [->|Hne].
    + rewrite (sumZ_ext _ (λ _, 0)), sumZ_zero; [done|].
      intros k' Hk'. destruct (decide (k = k')) as [->|]; done.
    + apply elem_of_cons in Hin as [?|Hin]; [done|]. rewrite IH; done.
Qed.

(** The groups partition the documents: summing a count over the keys of
    the groups counts each document once *)
Lemma sumZ_groups {A K} `{EqDecision K} (f : A → K) (P : A → Prop)
    `{∀ x, Decision (P x)} (ks : list K) (l : list A) :
  NoDup ks → (∀ x, x ∈ l → P x → f x ∈ ks) →
  Server.sumZ ((λ k, Z.of_nat (length (filter (λ x, f x = k ∧ P x) l)))
               <$> ks)
  = Z.of_nat (length (filter P l)).
Proof.
  intros Hnd. induction l as [|x l IH]; intros Hin.
  - cbn. apply sumZ_zero.
  - rewrite (sumZ_ext _ (λ k, (if decide (f x = k ∧ P x) then 1 else 0)
                + Z.of_nat (length (filter (λ x, f x = k ∧ P x) l)))).
    2:{ intros k _. rewrite filter_cons.
        destruct (decide (f x = k ∧ P x)); cbn [length]; lia. }
    rewrite sumZ_plus, IH by (intros y Hy; apply Hin; by right).
    rewrite filter_cons. destruct (decide (P x)) as [HP|HP].
    + rewrite (sumZ_ext _ (λ k, if decide (f x = k) then 1 else 0)).
      2:{ intros k _. destruct (decide (f x = k ∧ P x)), (decide (f x = k));
            try done; exfalso; tauto. }
      rewrite sumZ_one_hot; [cbn [length]; lia|done|].
      apply Hin; [left|done].
    + rewrite (sumZ_ext _ (λ _, 0)), sumZ_zero; [lia|].
      intros k _. destruct (decide (f x = k ∧ P x)); [exfalso; tauto|done].
Qed.

Lemma filter_all_iff {A} (P Q : A → Prop) `{∀ x, Decision (P x)}
    `{∀ x, Decision (Q x)} (g : list A) :
  length (filter (λ x, P x ∧ Q x) g) = length (filter P g)
  ↔ Forall (λ x, P x → Q x) g.
Proof.
  induction g as [|x g IH]; [by split; [constructor|]|].
  pose proof (length_filter (λ x, P x ∧ Q x) g) as Hb1.
  assert (length (filter (λ x, P x ∧ Q x) g) ≤ length (filter P g))%nat
    as Hb2.
  { clear IH Hb1. induction g as [|y g IH]; [done|].
    rewrite !filter_cons.
    destruct (decide (P y ∧ Q y)), (decide (P y)); cbn [length];
      [lia|exfalso; tauto|lia|lia]. }
  rewrite !filter_cons, Forall_cons.
  destruct (decide (P x ∧ Q x)) as [[HP HQ]|Hn], (decide (P x)) as [HP'|HP'];
    cbn [length]; try done.
  - rewrite <- IH. split; [intros; split; [done|lia]|intros [_ ?]; lia].
  - split; [lia|]. intros [HQ _]. destruct Hn. auto.
  - rewrite <- IH. split; [intros; split; [done|lia]|intros [_ ?]; lia].
Qed.

Section Weekly.
Context (tz : Z) (l : list Event) (d : Z).

(** The key of the first [$group], and the keys of all groups *)
Local Abbreviation key :=
  (λ ev : Event, (Server.parentId_of ev, Server.dayKey tz ev)).
Local Abbreviation keys := (remove_dups (key <$> l)).

(** Counts of the standalone documents of day [d] *)
Local Abbreviation Pc :=
  (λ ev : Event, segmentOf ev = None ∧ Server.isCompleted ev
                 ∧ Server.dayKey tz ev = d).
Local Abbreviation Pm :=
  (λ ev : Event, segmentOf ev = None ∧ ¬ Server.isCompleted ev
                 ∧ Server.dayKey tz ev = d).

Lemma has_children_iff (p : N) :
  0 < Server.sum_cond Server.isChild (filter (λ ev, key ev = (p, d)) l)
  ↔ p ∈ split_parents_on tz l d.
Proof.
  unfold Server.sum_cond, split_parents_on.
  rewrite elem_of_remove_dups, list_elem_of_omap. split.
  - intros Hpos.
    destruct (filter Server.isChild (filter (λ ev, key ev = (p, d)) l))
      as [|x g] eqn:Hg; [cbn in Hpos; lia|].
    assert (x ∈ filter Server.isChild (filter (λ ev, key ev = (p, d)) l))
      as Hx by (rewrite Hg; left).
    apply list_elem_of_filter in Hx as [Hc Hx].
    apply list_elem_of_filter in Hx as [Hk Hx].
    exists x. split; [done|]. injection Hk as Hp Hd.
    rewrite decide_True by done. unfold Server.isChild in Hc.
    unfold Server.parentId_of in Hp.
    destruct (segmentOf x) as [q|]; [|done]. cbn in Hp. by subst.
  - intros (x & Hx & Hs).
    destruct (decide (Server.dayKey tz x = d)) as [Hd|]; [|done].
    assert (x ∈ filter Server.isChild (filter (λ ev, key ev = (p, d)) l))
      as Hin.
    { apply list_elem_of_filter. split.
      - unfold Server.isChild. by rewrite Hs.
      - apply list_elem_of_filter. split; [|done].
        unfold Server.parentId_of. by rewrite Hs, Hd. }
    destruct (filter Server.isChild _) as [|y g];
      [by apply elem_of_nil in Hin|cbn [length]; lia].
Qed.

Lemma children_done_iff (p : N) :
  Server.sum_cond (λ ev, Server.isChild ev ∧ Server.isCompleted ev)
    (filter (λ ev, key ev = (p, d)) l)
  = Server.sum_cond Server.isChild (filter (λ ev, key ev = (p, d)) l)
  ↔ segments_done_on tz l d p.
Proof.
  unfold Server.sum_cond, segments_done_on.
  rewrite Nat2Z.inj_iff, filter_all_iff, !Forall_forall. split.
  - intros Hall x Hx Hs Hd. apply Hall.
    + apply list_elem_of_filter. split; [|done].
      unfold Server.parentId_of. by rewrite Hs, Hd.
    + unfold Server.isChild. by rewrite Hs.
  - intros Hall x [Hk Hx]%list_elem_of_filter Hc. injection Hk as Hp Hd.
    apply Hall; [done| |done]. unfold Server.isChild in Hc.
    unfold Server.parentId_of in Hp.
    destruct (segmentOf x) as [q|]; [|done]. cbn in Hp. by subst.
Qed.

Lemma standalone_counts (p : N) :
  Server.sum_cond (λ ev, ¬ Server.isChild ev ∧ Server.isCompleted ev)
    (filter (λ ev, key ev = (p, d)) l)
  = Z.of_nat (length (filter (λ ev, key ev = (p, d) ∧ Pc ev) l))
  ∧ Server.sum_cond (λ ev, ¬ Server.isChild ev)
      (filter (λ ev, key ev = (p, d)) l)
    = Z.of_nat (length (filter (λ ev, key ev = (p, d) ∧ Pc ev) l))
      + Z.of_nat (length (filter (λ ev, key ev = (p, d) ∧ Pm ev) l)).
Proof.
  unfold Server.sum_cond, Server.isChild, Server.isCompleted.
  induction l as [|x g IH]; [done|]. destruct IH as [IH1 IH2].
  rewrite !(filter_cons _ x).
  destruct (decide (key x = (p, d))) as [Hk|Hk].
  - injection Hk as Hp Hd. rewrite !(filter_cons _ x).
    destruct (segmentOf x) as [q|] eqn:Hs,
      (decide (status x = Some completed)) as [Hst|Hst];
      repeat (destruct (decide _) as [?|?];
              try (exfalso; rewrite ?Hp, ?Hd in *; intuition congruence));
      cbn [length]; lia.
  - repeat (destruct (decide _) as [?|?];
            try (exfalso; intuition congruence)); done.
Qed.

Lemma group_row_counts (p : N) :
  Server.group_row tz l (p, d)
  = Server.mkRow d
      ((if decide (p ∈ split_parents_on tz l d ∧ segments_done_on tz l d p)
        then 1 else 0)
       + Z.of_nat (length (filter (λ ev, key ev = (p, d) ∧ Pc ev) l)))
      ((if decide (p ∈ split_parents_on tz l d
                   ∧ ¬ segments_done_on tz l d p)
        then 1 else 0)
       + Z.of_nat (length (filter (λ ev, key ev = (p, d) ∧ Pm ev) l))).
Proof.
  unfold Server.group_row. cbv zeta. cbn [snd].
  pose proof (has_children_iff p) as Hc.
  pose proof (children_done_iff p) as Hd.
  destruct (standalone_counts p) as [-> ->].
  set (tc := Server.sum_cond Server.isChild _) in *.
  set (cc := Server.sum_cond (λ ev, Server.isChild ev ∧ _) _) in *.
  set (a := Z.of_nat (length (filter (λ ev, _ ∧ Pc ev) l))).
  set (b := Z.of_nat (length (filter (λ ev, _ ∧ Pm ev) l))).
  assert (0 ≤ a ∧ 0 ≤ b) as [Ha Hb] by (split; apply Nat2Z.is_nonneg).
  assert ((if 0 <? a + b then a else 0) = a) as ->
    by (destruct (Z.ltb_spec 0 (a + b)); lia).
  assert ((if 0 <? a + b then a + b - a else 0) = b) as ->
    by (destruct (Z.ltb_spec 0 (a + b)); lia).
  f_equal; f_equal.
  - destruct (Z.ltb_spec 0 tc), (Z.eqb_spec cc tc),
      (decide (p ∈ split_parents_on tz l d ∧ segments_done_on tz l d p))
      as [[? ?]|Hn]; try done; exfalso; intuition lia.
  - destruct (Z.ltb_spec 0 tc), (Z.eqb_spec cc tc),
      (decide (p ∈ split_parents_on tz l d ∧ ¬ segments_done_on tz l d p))
      as [[? ?]|Hn]; try done; exfalso; intuition lia.
Qed.

Lemma key_of_parent (p : N) :
  p ∈ split_parents_on tz l d → (p, d) ∈ keys.
Proof.
  unfold split_parents_on.
  rewrite !elem_of_remove_dups, list_elem_of_omap, list_elem_of_fmap.
  intros (x & Hx & Hs). exists x. split; [|done].
  destruct (decide (Server.dayKey tz x = d)) as [Hd|]; [|done].
  unfold Server.parentId_of. by rewrite Hs, Hd.
Qed.

Lemma parents_count (Q : N → Prop) `{∀ p, Decision (Q p)} :
  length (filter (λ k : N * Z, k.1 ∈ split_parents_on tz l d ∧ Q k.1)
            (filter (λ k : N * Z, k.2 = d) keys))
  = length (filter Q (split_parents_on tz l d)).
Proof.
  rewrite <- (length_fmap fst). apply Permutation_length.
  apply NoDup_Permutation.
  - apply NoDup_fmap_2_strong.
    + intros [p1 d1] [p2 d2].
      intros [_ [Hd1 _]%list_elem_of_filter]%list_elem_of_filter.
      intros [_ [Hd2 _]%list_elem_of_filter]%list_elem_of_filter.
      cbn in *. by intros ->; subst.
    + apply NoDup_filter, NoDup_filter, NoDup_remove_dups.
  - apply NoDup_filter. unfold split_parents_on. apply NoDup_remove_dups.
  - intros p. rewrite list_elem_of_fmap, list_elem_of_filter. split.
    + intros ([p' d'] & -> & [[Hp HQ] _]%list_elem_of_filter). done.
    + intros [HQ Hp]. exists (p, d). split; [done|].
      apply list_elem_of_filter. split; [done|].
      apply list_elem_of_filter. split; [done|]. by apply key_of_parent.
Qed.

Lemma filter_day_rows (ks : list (N * Z)) :
  filter (λ r, Server.r_day r = d) (Server.group_row tz l <$> ks)
  = Server.group_row tz l <$> filter (λ k : N * Z, k.2 = d) ks.
Proof.
  induction ks as [|k ks IH]; [done|].
  rewrite fmap_cons, !filter_cons, IH.
  change (Server.r_day (Server.group_row tz l k)) with k.2.
  by destruct (decide (k.2 = d)).
Qed.

(** The two sums of the second [$group] for day [d] *)
Lemma day_sums (P : Event → Prop) `{∀ x, Decision (P x)}
    (Q : N → Prop) `{∀ p, Decision (Q p)} (proj : Server.Row → Z) :
  (∀ p, proj (Server.group_row tz l (p, d))
        = (if decide (p ∈ split_parents_on tz l d ∧ Q p) then 1 else 0)
          + Z.of_nat (length (filter (λ ev, key ev = (p, d) ∧ P ev) l))) →
  (∀ x, P x → Server.dayKey tz x = d) →
  Server.sumZ (proj <$> filter (λ r, Server.r_day r = d)
                          (Server.group_stage tz l))
  = Z.of_nat (length (filter P l))
    + Z.of_nat (length (filter Q (split_parents_on tz l d))).
Proof.
  intros Hrow HP. unfold Server.group_stage.
  rewrite filter_day_rows, <- list_fmap_compose.
  rewrite (sumZ_ext _
    (λ k : N * Z,
       (if decide (k.1 ∈ split_parents_on tz l d ∧ Q k.1) then 1 else 0)
       + Z.of_nat (length (filter (λ ev, key ev = k ∧ P ev) l)))).
  2:{ intros [p d'] [Hd _]%list_elem_of_filter. cbn in Hd. subst d'.
      cbn. apply Hrow. }
  rewrite sumZ_plus, sumZ_indicator, parents_count.
  rewrite (sumZ_groups key P).
  - lia.
  - apply NoDup_filter, NoDup_remove_dups.
  - intros x Hx HPx. apply list_elem_of_filter. split.
    + cbn. by apply HP.
    + apply elem_of_remove_dups, list_elem_of_fmap. by exists x.
Qed.

End Weekly.

Lemma head_filter_day (F : Z → Server.Row) (d : Z) (ds : list Z) :
  (∀ d', Server.r_day (F d') = d') →
  head (filter (λ r, Server.r_day r = d) (F <$> ds))
  = if decide (d ∈ ds) then Some (F d) else None.
Proof.
  intros HF. induction ds as [|d' ds IH].
  - cbn. destruct (decide (d ∈ [])) as [Hin|]; [|done].
    by apply elem_of_nil in Hin.
  - rewrite fmap_cons, filter_cons, HF.
    destruct (decide (d' = d)) as [->|Hne].
    + cbn [head]. rewrite decide_True; [done|left].
    + rewrite IH. destruct (decide (d ∈ ds)) as [Hin|Hin].
      * rewrite decide_True; [done|by right].
      * rewrite decide_False; [done|].
        intros [?|?]%elem_of_cons; done.
Qed.

Lemma day_bucket (rows : list Server.Row) (d : Z) :
  match head (filter (λ r, Server.r_day r = d) (Server.day_stage rows)) with
  | Some r => Server.mkRow d (Server.r_completed r) (Server.r_missed r)
  | None => Server.mkRow d 0 0
  end
  = Server.mkRow d
      (Server.sumZ (Server.r_completed
                    <$> filter (λ r, Server.r_day r = d) rows))
      (Server.sumZ (Server.r_missed
                    <$> filter (λ r, Server.r_day r = d) rows)).
Proof.
  unfold Server.day_stage. rewrite head_filter_day by done.
  destruct (decide (d ∈ remove_dups (Server.r_day <$> rows))) as [Hin|Hin];
    [done|].
  replace (filter (λ r, Server.r_day r = d) rows) with (@nil Server.Row);
    [done|].
  symmetry. apply filter_Forall_nil, Forall_forall.
  intros r Hr Hd. apply Hin, elem_of_remove_dups, list_elem_of_fmap.
  by exists r.
Qed.

Lemma weekly_bucket_sums (tz now : Z) (uid : N) (db : DB) (i : nat) :
  (i < 7)%nat →
  let d := Server.local_day tz (Server.monday_of tz now) + Z.of_nat i in
  let rows := Server.group_stage tz (week_matched tz now uid db) in
  Server.weekly_buckets tz now uid db !! i
  = Some (Server.mkRow d
      (Server.sumZ (Server.r_completed
                    <$> filter (λ r, Server.r_day r = d) rows))
      (Server.sumZ (Server.r_missed
                    <$> filter (λ r, Server.r_day r = d) rows))).
Proof.
  intros Hi. cbv zeta. unfold Server.weekly_buckets, week_matched. cbv zeta.
  rewrite list_lookup_fmap, lookup_seqZ_lt by lia.
  cbn [fmap option_fmap option_map]. f_equal. rewrite Z.add_0_l.
  apply day_bucket.
Qed.

(** What the sums of a day count *)
Lemma day_counts (tz : Z) (l : list Event) (d : Z) :
  Server.sumZ (Server.r_completed
               <$> filter (λ r, Server.r_day r = d) (Server.group_stage tz l))
  = Z.of_nat (length (filter (λ ev, segmentOf ev = None
                                    ∧ Server.isCompleted ev
                                    ∧ Server.dayKey tz ev = d) l))
    + Z.of_nat (length (filter (segments_done_on tz l d)
                          (split_parents_on tz l d)))
  ∧ Server.sumZ (Server.r_missed
                 <$> filter (λ r, Server.r_day r = d)
                       (Server.group_stage tz l))
    = Z.of_nat (length (filter (λ ev, segmentOf ev = None
                                      ∧ ¬ Server.isCompleted ev
                                      ∧ Server.dayKey tz ev = d) l))
      + Z.of_nat (length (filter (λ p, ¬ segments_done_on tz l d p)
                            (split_parents_on tz l d))).
Proof.
  split.
  - apply (day_sums tz _ _ _ (segments_done_on tz _ _) Server.r_completed).
    + intros p. by rewrite group_row_counts.
    + by intros x (_ & _ & ?).
  - apply (day_sums tz _ _ _ (λ p, ¬ segments_done_on tz _ _ p)
             Server.r_missed).
    + intros p. by rewrite group_row_counts.
    + by intros x (_ & _ & ?).
Qed.

Lemma weekly_bucket_row (tz now : Z) (uid : N) (db : DB) (i : nat)
    (Hi : (i < 7)%nat) :
  let matched := week_matched tz now uid db in
  let d := Server.local_day tz (Server.monday_of tz now) + Z.of_nat i in
  Server.weekly_buckets tz now uid db !! i
  = Some (Server.mkRow d
      (Server.sum_cond
         (λ ev, segmentOf ev = None ∧ Server.isCompleted ev
                ∧ Server.dayKey tz ev = d) matched
       + Z.of_nat (length (filter (segments_done_on tz matched d)
                             (split_parents_on tz matched d))))
      (Server.sum_cond
         (λ ev, segmentOf ev = None ∧ ¬ Server.isCompleted ev
                ∧ Server.dayKey tz ev = d) matched
       + Z.of_nat (length (filter (λ p, ¬ segments_done_on tz matched d p)
                             (split_parents_on tz matched d))))).
Proof.
  cbv zeta. rewrite weekly_bucket_sums by done. unfold Server.sum_cond.
  by destruct (day_counts tz (week_matched tz now uid db)
                 (Server.local_day tz (Server.monday_of tz now)
                  + Z.of_nat i)) as [-> ->].
Qed.

(** X21.  The bucket of each of the seven days of the weekly dashboard,
    for the documents [matched] by the window.  Its [completed] is the
    number of documents without [segmentOf] that end on that day and are
    completed, plus the number of tasks all of whose segments ending on
    that day are completed; its [missed] is the number of documents
    without [segmentOf] that end on that day and are not completed, the
    pending ones included, plus the number of tasks with a segment ending
    on that day that is not completed.  The parent document of a split
    task is among the documents without [segmentOf]: it is counted
    beside its segments. *)
Theorem weekly_bucket_counts (tz now : Z) (uid : N) (db : DB) (i : nat)
    (Hi : (i < 7)%nat) :
  let matched := week_matched tz now uid db in
  let d := Server.local_day tz (Server.monday_of tz now) + Z.of_nat i in
  Server.weekly_buckets tz now uid db !! i
  = Some (Server.mkRow d
      (Server.sum_cond
         (λ ev, segmentOf ev = None ∧ Server.isCompleted ev
                ∧ Server.dayKey tz ev = d) matched
       + Z.of_nat (length (filter (segments_done_on tz matched d)
                             (split_parents_on tz matched d))))
      (Server.sum_cond
         (λ ev, segmentOf ev = None ∧ ¬ Server.isCompleted ev
                ∧ Server.dayKey tz ev = d) matched
       + Z.of_nat (length (filter (λ p, ¬ segments_done_on tz matched d p)
                             (split_parents_on tz matched d))))).
Proof.
  cbv zeta. rewrite weekly_bucket_sums by done. unfold Server.sum_cond.
  f_equal. f_equal.
  - apply (day_sums tz _ _ _ (segments_done_on tz _ _) Server.r_completed).
    + intros p. by rewrite group_row_counts.
    + by intros x (_ & _ & ?).
  - apply (day_sums tz _ _ _ (λ p, ¬ segments_done_on tz _ _ p)
             Server.r_missed).
    + intros p. by rewrite group_row_counts.
    + by intros x (_ & _ & ?).
Qed.

Lemma weekly_bucket_counts_witness :
  Server.weekly_buckets manila 1000 7 db_week !! 3%nat
  = Some (Server.mkRow 0 2 0)
  ∧ Server.weekly_buckets manila 1000 7 db_week !! 4%nat
    = Some (Server.mkRow 1 0 1).
Proof.
  split.
  - rewrite (weekly_bucket_counts manila 1000 7 db_week 3) by lia.
    reflexivity.
  - rewrite (weekly_bucket_counts manila 1000 7 db_week 4) by lia.
    reflexivity.
Defined.

(** ** The EDIT_TASK branch of the chat *)

Section Replace.
Context (k : N) (v : Event) (Hv : _id v = k).

Lemma findById_replace_other (id : N) (db : DB) :
  id ≠ k →
  Mongo.findById id
    {| docs := (λ d, if decide (_id d = k) then v else d) <$> docs db;
       next_oid := next_oid db |}
  = Mongo.findById id db.
Proof.
  intros Hne. unfold Mongo.findById, Mongo.findOne, Mongo.find. cbn [docs].
  induction (docs db) as [|x l IH]; [done|].
  rewrite fmap_cons. destruct (decide (_id x = k)) as [Hx|Hx].
  - rewrite !filter_cons_False by congruence. done.
  - destruct (decide (_id x = id)) as [Hx'|Hx'].
    + by rewrite !filter_cons_True by done.
    + by rewrite !filter_cons_False by done.
Qed.

Lemma findById_replace_same (db : DB) (c : Event) :
  c ∈ docs db → _id c = k →
  Mongo.findById k
    {| docs := (λ d, if decide (_id d = k) then v else d) <$> docs db;
       next_oid := next_oid db |}
  = Some v.
Proof.
  intros Hc Hid. unfold Mongo.findById, Mongo.findOne, Mongo.find.
  cbn [docs].
  induction (docs db) as [|x l IH]; [by apply elem_of_nil in Hc|].
  rewrite fmap_cons. destruct (decide (_id x = k)) as [Hx|Hx].
  - by rewrite filter_cons_True by done.
  - rewrite filter_cons_False by done.
    apply elem_of_cons in Hc as [->|Hc]; [done|]. by apply IH.
Qed.

Lemma replace_keeps_ids (l : list Event) :
  _id <$> ((λ d, if decide (_id d = k) then v else d) <$> l) = _id <$> l.
Proof.
  rewrite <- list_fmap_compose. apply list_fmap_ext. intros i x _. cbn.
  destruct (decide (_id x = k)); congruence.
Qed.

End Replace.

(** X22.  The EDIT_TASK branch of the chat, fed with a range of
    [parseTimeRange] that is free of an exact conflict, is accepted
    whatever the present moment is, a start in the past included.  It
    moves the designated task alone: the task keeps its id, title, owner,
    parent and its null status and takes the new range, a whole number of
    minutes long; every other document, the segments of the task
    included, stays as it is. *)
Theorem chat_edit_moves_only_the_task (tz now : Z) (uid : N)
    (titleMatch : string → bool) (m : option Server.RangeMatch)
    (baseDay s e : Z) (imp urg : Level) (diff : Difficulty) (db : DB)
    (ev : Event)
    (Htarget : Server.split_target uid titleMatch db = Some ev)
    (Hparse : Server.parseTimeRange tz m baseDay = Some (s, e))
    (Hfree : Server.edit_conflict uid (_id ev) s e db = None) :
  ∃ db' ev',
    Server.chat_edit tz now uid titleMatch
      (Server.parseTimeRange tz m baseDay) imp urg diff db
    = (db', Server.Rescheduled ev')
    ∧ _id ev' = _id ev ∧ title ev' = title ev ∧ userId ev' = uid
    ∧ segmentOf ev' = segmentOf ev ∧ status ev' = None
    ∧ start ev' = s ∧ end_ ev' = e
    ∧ s < e ∧ (e - s) mod 60000 = 0
    ∧ Mongo.findById (_id ev) db' = Some ev'
    ∧ (∀ id, id ≠ _id ev → Mongo.findById id db' = Mongo.findById id db)
    ∧ (∀ c, c ∈ docs db → _id c ≠ _id ev → c ∈ docs db')
    ∧ _id <$> docs db' = _id <$> docs db.
Proof.
  pose proof (split_target_elem_of _ _ _ _ Htarget) as (Hin & Hu & _ & Hst).
  pose proof (parsed_range_bounds _ _ _ _ _ Hparse) as [Hlt Hmod].
  unfold Server.chat_edit. rewrite Htarget, Hparse, Hfree.
  eexists _, _. split; [reflexivity|].
  cbn [Server.reschedule _id title userId segmentOf status start end_ docs].
  split_and!; try done.
  - by apply (findById_replace_same (_id ev)
                (Server.reschedule s e imp urg diff ev) eq_refl db ev).
  - intros id Hne.
    by apply (findById_replace_other (_id ev)
                (Server.reschedule s e imp urg diff ev)).
  - intros c Hc Hne. apply list_elem_of_fmap. exists c.
    by rewrite decide_False.
  - by apply (replace_keeps_ids (_id ev)
                (Server.reschedule s e imp urg diff ev)).
Qed.

Lemma chat_edit_moves_only_the_task_witness :
  ∃ db' ev',
    Server.chat_edit manila 86400000 7 study_react
      (Server.parseTimeRange manila (Some range_2_4pm) 1000)
      high high hard db200
    = (db', Server.Rescheduled ev')
    ∧ _id ev' = 1%N ∧ title ev' = "Study react" ∧ userId ev' = 7%N
    ∧ segmentOf ev' = None ∧ status ev' = None
    ∧ start ev' = 21600000 ∧ end_ ev' = 28800000
    ∧ 21600000 < 28800000 ∧ (28800000 - 21600000) mod 60000 = 0
    ∧ Mongo.findById 1 db' = Some ev'
    ∧ (∀ id, id ≠ 1%N → Mongo.findById id db' = Mongo.findById id db200)
    ∧ (∀ c, c ∈ docs db200 → _id c ≠ 1%N → c ∈ docs db')
    ∧ _id <$> docs db' = _id <$> docs db200.
Proof.
  apply (chat_edit_moves_only_the_task manila 86400000 7 study_react
           (Some range_2_4pm) 1000 21600000 28800000 high high hard db200
           task200); reflexivity.
Defined.

(** ** The split of [src/server.js] *)

Lemma create_segments_ext par (f g : Z → string) plan : ∀ i db,
  (∀ j, f j = g j) →
  create_segments par f i plan db = create_segments par g i plan db.
Proof.
  induction plan as [|sl plan IH]; intros i db Hfg; [done|].
  cbn [create_segments Mongo.create]. by rewrite Hfg, (IH _ _ Hfg).
Qed.

Lemma split_title_nil baseTitle i :
  Server.split_title baseTitle [] i = segment_title baseTitle i.
Proof. reflexivity. Qed.

Lemma duration_loop_spec (e len brk : Z) :
  1 ≤ len → 0 ≤ brk →
  ∀ guard cursor,
    let pl := Legacy.duration_loop guard e len brk cursor in
    (∀ j sl, pl !! j = Some sl →
       startMs sl = cursor + Z.of_nat j * (len * 60000 + brk * 60000)
       ∧ endMs sl = Z.min e (startMs sl + len * 60000)
       ∧ startMs sl < e)
    ∧ (length pl ≤ guard)%nat
    ∧ (cursor < e → (0 < guard)%nat → pl ≠ [])
    ∧ ((length pl < guard)%nat →
       match last pl with
       | Some sl => e ≤ endMs sl + brk * 60000
       | None => e ≤ cursor
       end).
Proof.
  intros Hlen Hbrk. induction guard as [|guard IH]; intros cursor; cbv zeta.
  - cbn. split_and!; [done|lia|lia|lia].
  - cbn [Legacy.duration_loop]. case_bool_decide as Hc; [|cbn; split_and!];
      [|done|lia|lia|intros; lia].
    rewrite bool_decide_eq_false_2 by lia.
    specialize (IH (Z.min e (cursor + len * 60 * 1000) + brk * 60 * 1000)).
    cbv zeta in IH. destruct IH as (Hl & Hn & _ & Hlast).
    split_and!.
    + intros [|j] sl Hj.
      * injection Hj as <-. cbn. split_and!; lia.
      * apply Hl in Hj as (-> & -> & Hlt). split_and!; [|done|].
        -- lia.
        -- lia.
    + cbn [length]. lia.
    + done.
    + cbn [length]. intros Hg.
      destruct (Legacy.duration_loop guard e len brk _) as [|sl pl] eqn:Hpl.
      * cbn. cbn in Hlast. specialize (Hlast ltac:(lia)). cbn. lia.
      * specialize (Hlast ltac:(cbn [length] in *; lia)).
        rewrite last_cons_cons.
        destruct (last (sl :: pl)) eqn:Hla; [done|].
        by apply last_None in Hla.
Qed.

(** X23.  Split by count in [src/server.js], for a parent lasting at least
    a minute.  With a count of two or more it does what the split of
    [part_000] does without custom titles: the same reply and the same
    collection.  With a count below two, which [part_000] refuses, it
    creates a single segment, from the parent's start over the parent's
    whole minutes. *)
Theorem legacy_split_by_count (db : DB) (id : N) (par : Event)
    (count segmentMinutes brk : option Z) (titlePrefix : option string)
    (Hfind : Mongo.findById id db = Some par)
    (Hmin : 60000 ≤ end_ par - start par) :
  (2 ≤ default 0 count →
   Legacy.split id Legacy.byCount count segmentMinutes brk titlePrefix db
   = Server.split id count brk titlePrefix [] db)
  ∧ (default 0 count ≤ 1 →
     Server.split id count brk titlePrefix [] db
     = (db, Error 400 "Nothing to split (count must be >= 2)")
     ∧ ∃ db' c,
         Legacy.split id Legacy.byCount count segmentMinutes brk
           titlePrefix db
         = (db', Json (Server.mkSplitResult (_id par) [c]))
         ∧ docs db' = docs db ++ [c]
         ∧ start c = start par
         ∧ end_ c = start par + totalMinutes par * 60000
         ∧ segmentOf c = Some (_id par) ∧ segmentIndex c = Some 0
         ∧ status c = None).
Proof.
  assert (1 ≤ totalMinutes par) as Htot.
  { unfold totalMinutes. apply Z.div_le_lower_bound; lia. }
  unfold totalMinutes in *.
  unfold Legacy.split, Server.split. rewrite Hfind. cbv zeta.
  change (60 * 1000) with 60000.
  rewrite (bool_decide_eq_false_2 (¬ start par < end_ par)) by lia.
  rewrite (bool_decide_eq_false_2 (_ / 60000 ≤ 0)) by lia.
  split.
  - intros Hn. rewrite (Z.max_r 1 (default 0 count)) by lia.
    rewrite (bool_decide_eq_false_2 (default 0 count < 2)) by lia.
    case_bool_decide; [done|].
    pose proof (create_segments_ext par
                  (Server.split_title (default (title par) titlePrefix) [])
                  (segment_title (default (title par) titlePrefix))
                  (build_plan (start par) (default 0 count)
                     (Z.max 0 (default 0 brk))
                     ((end_ par - start par) / 60000
                      - (default 0 count - 1) * Z.max 0 (default 0 brk)))
                  0 db
                  (split_title_nil (default (title par) titlePrefix)))
      as Hext.
    by destruct Hext.
  - intros Hn. rewrite (Z.max_l 1 (default 0 count)) by lia.
    rewrite (bool_decide_eq_true_2 (1 < 2)) by lia. split; [done|].
    replace ((1 - 1) * Z.max 0 (default 0 brk)) with 0 by lia.
    rewrite Z.sub_0_r. rewrite bool_decide_eq_false_2 by lia.
    unfold build_plan. rewrite Z.div_1_r, Z.rem_1_r.
    change (Z.to_nat 1) with 1%nat.
    cbn [plan_loop create_segments Mongo.create].
    eexists _, _. split; [reflexivity|]. cbn. split_and!; try done.
    f_equal. lia.
Qed.

Lemma legacy_split_by_count_witness :
  Legacy.split 1 Legacy.byCount (Some 2) None (Some 10) None db200
  = Server.split 1 (Some 2) (Some 10) None [] db200
  ∧ ∃ db' c,
      Legacy.split 1 Legacy.byCount (Some 1) None (Some 10) None db200
      = (db', Json (Server.mkSplitResult 1 [c]))
      ∧ start c = 0 ∧ end_ c = 200 * 60000.
Proof.
  destruct (legacy_split_by_count db200 1 task200 (Some 2) None (Some 10)
              None eq_refl ltac:(cbn; lia)) as [Hsame _].
  destruct (legacy_split_by_count db200 1 task200 (Some 1) None (Some 10)
              None eq_refl ltac:(cbn; lia)) as [_ Hone].
  split; [apply Hsame; cbn; lia|].
  destruct Hone as (_ & db' & c & He & _ & Hs & Hend & _); [cbn; lia|].
  exists db', c. split; [exact He|]. split; [exact Hs|].
  rewrite Hend. reflexivity.
Defined.

(** X24.  Split by duration in [src/server.js], for a parent lasting at
    least a minute: it never answers that no segment fits.  Segment [j]
    starts [j] lengths and breaks after the parent's start and lasts the
    requested length, cut off at the parent's end; there are at most
    10000 segments, and with fewer than that the parent's end is no more
    than one break after the end of the last segment: with no break the
    last segment ends exactly where the parent ends, to the
    millisecond. *)
Theorem legacy_split_by_duration (db : DB) (id : N) (par : Event)
    (count segmentMinutes brk : option Z) (titlePrefix : option string)
    (Hfind : Mongo.findById id db = Some par)
    (Hmin : 60000 ≤ end_ par - start par) :
  let L := Z.max 1 (default 0 segmentMinutes) * 60000 in
  let B := Z.max 0 (default 0 brk) * 60000 in
  ∃ db' cs,
    Legacy.split id Legacy.byDuration count segmentMinutes brk titlePrefix db
    = (db', Json (Server.mkSplitResult (_id par) cs))
    ∧ docs db' = docs db ++ cs
    ∧ cs ≠ []
    ∧ (∀ j c, cs !! j = Some c →
         start c = start par + Z.of_nat j * (L + B)
         ∧ end_ c = Z.min (end_ par) (start c + L)
         ∧ start c < end_ c ≤ end_ par
         ∧ segmentOf c = Some (_id par))
    ∧ Z.of_nat (length cs) ≤ 10000
    ∧ (Z.of_nat (length cs) < 10000 →
       ∃ c, last cs = Some c ∧ end_ c ≤ end_ par ≤ end_ c + B).
Proof.
  cbv zeta.
  assert (1 ≤ (end_ par - start par) / 60000) as Htot
    by (apply Z.div_le_lower_bound; lia).
  unfold Legacy.split. rewrite Hfind. cbv zeta.
  change (60 * 1000) with 60000.
  rewrite (bool_decide_eq_false_2 (¬ start par < end_ par)) by lia.
  rewrite (bool_decide_eq_false_2 (_ / 60000 ≤ 0)) by lia.
  set (len := Z.max 1 (default 0 segmentMinutes)).
  set (b := Z.max 0 (default 0 brk)).
  destruct (duration_loop_spec (end_ par) len b ltac:(lia) ltac:(lia)
              (Z.to_nat 10000) (start par)) as (Hl & Hn & Hne & Hlast).
  destruct (Legacy.duration_loop (Z.to_nat 10000) (end_ par) len b
              (start par)) as [|sl pl] eqn:Hpl;
    [exfalso; apply Hne; [lia|lia|done]|].
  pose proof (create_segments_spec par
    (segment_title (default (title par) titlePrefix)) (sl :: pl) 0 db) as Hc.
  destruct (create_segments _ _ _ _ _) as [db' cs].
  destruct Hc as (Hs & Hd & _ & Hkids & _).
  exists db', cs. split; [done|]. split; [done|].
  assert (length cs = length (sl :: pl)) as Hlen
    by (by rewrite <- Hs, length_fmap).
  split_and!.
  - intros ->. done.
  - intros j c Hj.
    assert ((sl :: pl) !! j = Some (slot_of c)) as Hj'
      by (by rewrite <- Hs, list_lookup_fmap, Hj).
    apply Hl in Hj' as (Hst & Hen & Hlt).
    cbn [slot_of startMs endMs] in Hst, Hen, Hlt.
    rewrite Forall_lookup in Hkids. destruct (Hkids j c Hj) as (Hseg & _).
    split_and!; [lia|lia|lia|lia|done].
  - lia.
  - intros Hcap. specialize (Hlast ltac:(lia)).
    destruct (last cs) as [c|] eqn:Hla.
    + exists c. split; [done|].
      assert (last (sl :: pl) = Some (slot_of c)) as Hla'
        by (by rewrite <- Hs, fmap_last, Hla).
      rewrite Hla' in Hlast. cbn [slot_of startMs endMs] in Hlast.
      apply last_Some_elem_of, list_elem_of_lookup in Hla as [j Hj].
      assert ((sl :: pl) !! j = Some (slot_of c)) as Hj'
        by (by rewrite <- Hs, list_lookup_fmap, Hj).
      apply Hl in Hj' as (_ & Hen & _). cbn [slot_of startMs endMs] in Hen.
      lia.
    + apply last_None in Hla. subst cs. done.
Qed.

Lemma legacy_split_by_duration_witness :
  ∃ db' cs,
    Legacy.split 1 Legacy.byDuration None (Some 90) None None db200
    = (db', Json (Server.mkSplitResult 1 cs))
    ∧ length cs = 3%nat
    ∧ end_ <$> last cs = Some (200 * 60000).
Proof.
  destruct (legacy_split_by_duration db200 1 task200 None (Some 90) None
              None eq_refl ltac:(cbn; lia))
    as (db' & cs & He & _).
  exists db', cs. split; [exact He|].
  vm_compute in He. injection He as _ <-. split; reflexivity.
Defined.

(** ** The last seven days of [src/server.js] *)

Section LastSevenDays.
Context (tz D0 : Z).

Lemma count_event_step (bs : list Server.Row) (ev : Event) :
  consecutive D0 bs →
  consecutive D0 (Legacy.count_event tz bs ev)
  ∧ ∀ i b, bs !! i = Some b →
      Legacy.count_event tz bs ev !! i
      = Some (Server.mkRow (D0 + Z.of_nat i)
          (Server.r_completed b
           + (if decide (status ev = Some completed
                         ∧ Server.local_day tz (end_ ev) = D0 + Z.of_nat i)
              then 1 else 0))
          (Server.r_missed b
           + (if decide (status ev = Some missed
                         ∧ Server.local_day tz (end_ ev) = D0 + Z.of_nat i)
              then 1 else 0))).
Proof.
  intros Hcons. unfold Legacy.count_event. cbv zeta.
  destruct (list_find _ bs) as [[j bj]|] eqn:Hfind.
  - apply list_find_Some in Hfind as (Hj & Hday & _).
    pose proof (Hcons j bj Hj) as Hdj. split.
    + intros i b Hi. destruct (decide (i = j)) as [->|Hne].
      * rewrite list_lookup_insert_eq in Hi by (by eapply lookup_lt_Some).
        injection Hi as <-.
        destruct (decide (status ev = Some completed)),
          (decide (status ev = Some missed)); cbn; done.
      * rewrite list_lookup_insert_ne in Hi by done. by apply Hcons.
    + intros i b Hi. destruct (decide (i = j)) as [->|Hne].
      * rewrite list_lookup_insert_eq by (by eapply lookup_lt_Some).
        rewrite Hi in Hj. injection Hj as <-. f_equal.
        destruct b as [bd bc bm]. cbn in *. subst bd.
        destruct (decide (status ev = Some completed)) as [Hc|Hc],
          (decide (status ev = Some missed)) as [Hm|Hm];
          try congruence; cbn;
          repeat (destruct (decide (_ ∧ _)) as [[? ?]|?]);
          try (exfalso; intuition (congruence || lia)); try congruence;
          f_equal; lia.
      * rewrite list_lookup_insert_ne by done. rewrite Hi.
        pose proof (Hcons i b Hi) as Hdi. f_equal.
        destruct b as [bd bc bm]. cbn in *. subst bd.
        rewrite !decide_False by (intros [_ ?]; lia). f_equal; lia.
  - apply list_find_None in Hfind. split; [done|].
    intros i b Hi. pose proof (Hcons i b Hi) as Hdi. rewrite Hi. f_equal.
    rewrite Forall_forall in Hfind.
    assert (Server.r_day b ≠ Server.local_day tz (end_ ev)) as Hne
      by (apply Hfind; by eapply list_elem_of_lookup_2).
    destruct b as [bd bc bm]. cbn in *. subst bd.
    rewrite !decide_False by (intros [_ ?]; lia). f_equal; lia.
Qed.

Lemma count_event_fold (l : list Event) : ∀ bs,
  consecutive D0 bs →
  ∀ i b, bs !! i = Some b →
    foldl (Legacy.count_event tz) bs l !! i
    = Some (Server.mkRow (D0 + Z.of_nat i)
        (Server.r_completed b
         + Z.of_nat (length (filter
             (λ ev, status ev = Some completed
                    ∧ Server.local_day tz (end_ ev) = D0 + Z.of_nat i) l)))
        (Server.r_missed b
         + Z.of_nat (length (filter
             (λ ev, status ev = Some missed
                    ∧ Server.local_day tz (end_ ev) = D0 + Z.of_nat i) l)))).
Proof.
  induction l as [|ev l IH]; intros bs Hcons i b Hi.
  - cbn. rewrite Hi. f_equal. pose proof (Hcons i b Hi).
    destruct b as [bd bc bm]. cbn in *. subst bd. f_equal; lia.
  - cbn [foldl]. destruct (count_event_step bs ev Hcons) as [Hcons' Hstep].
    rewrite (IH _ Hcons' i _ (Hstep i b Hi)). f_equal.
    cbn [Server.r_completed Server.r_missed]. rewrite !filter_cons.
    f_equal; repeat (destruct (decide (_ ∧ _))); cbn [length]; lia.
Qed.

End LastSevenDays.

Lemma no_children_iff (db : DB) (ev : Event) :
  _id ev ∉ Legacy.parentIdsWithChildren db
  ↔ Forall (λ c, segmentOf c ≠ Some (_id ev)) (docs db).
Proof.
  unfold Legacy.parentIdsWithChildren, Mongo.find.
  rewrite list_elem_of_omap, Forall_forall. split.
  - intros Hno c Hc Hs. apply Hno. exists c. split; [|done].
    apply list_elem_of_filter. split; [by rewrite Hs|done].
  - intros Hall (c & [_ Hc]%list_elem_of_filter & Hs). by apply (Hall c).
Qed.

(** X25.  The weekly dashboard of [src/server.js] has one bucket for each
    of the last seven local days, today last.  The bucket of a day counts
    as completed, and as missed, exactly the events of the user with that
    status that end on that day and that no document names as its parent;
    pending events and parents of segments are counted nowhere, segments
    are counted one by one. *)
Theorem legacy_weekly_counts (tz now : Z) (uid : N) (db : DB) (i : nat)
    (Hi : (i < 7)%nat) :
  let d := Server.local_day tz now - 6 + Z.of_nat i in
  Legacy.dashboard_weekly tz now uid db !! i
  = Some (Server.mkRow d
      (Z.of_nat (length (filter (counted_on tz uid db d completed)
                           (docs db))))
      (Z.of_nat (length (filter (counted_on tz uid db d missed)
                           (docs db))))).
Proof.
  cbv zeta. unfold Legacy.dashboard_weekly. cbv zeta.
  set (bs := (λ k : Z, Server.mkRow _ 0 0) <$> seqZ 0 7).
  assert (consecutive (Server.local_day tz now - 6) bs) as Hcons.
  { intros j b. unfold bs. rewrite list_lookup_fmap.
    destruct (seqZ 0 7 !! j) as [k|] eqn:Hk; [|done].
    apply lookup_seqZ in Hk as [-> _]. intros [= <-]. cbn.
    unfold Server.startOfDay, Server.local_time, Server.local_day,
      Server.MS_DAY.
    Z.to_euclidean_division_equations. lia. }
  assert (bs !! i = Some (Server.mkRow
            (Server.local_day tz now - 6 + Z.of_nat i) 0 0)) as Hb.
  { pose proof (Hcons i) as Hd. unfold bs in *.
    rewrite list_lookup_fmap, lookup_seqZ_lt by lia.
    rewrite list_lookup_fmap, lookup_seqZ_lt in Hd by lia.
    cbn in *. f_equal. f_equal. by apply (Hd _ eq_refl). }
  rewrite (count_event_fold tz _ _ bs Hcons i _ Hb).
  cbn [Server.r_completed Server.r_missed]. rewrite !Z.add_0_l.
  unfold Legacy.owned, Mongo.find. cbv zeta.
  rewrite !list_filter_filter.
  assert (∀ st ev,
    ((status ev = Some st
      ∧ Server.local_day tz (end_ ev)
        = Server.local_day tz now - 6 + Z.of_nat i)
     ∧ _id ev ∉ Legacy.parentIdsWithChildren db)
    ∧ userId ev = uid
    ∧ (Server.startOfDay tz
         (Server.startOfDay tz now - 6 * Server.MS_DAY) ≤ end_ ev
       ∧ end_ ev ≤ Server.endOfDay tz (Server.startOfDay tz now))
    ∧ (status ev = Some completed ∨ status ev = Some missed)
    ↔ counted_on tz uid db
        (Server.local_day tz now - 6 + Z.of_nat i) st ev) as Hiff.
  { intros st ev. unfold counted_on. rewrite no_children_iff.
    split.
    - intros ([[Hs Hd] Hno] & Hu & _ & _). done.
    - intros (Hu & Hs & Hd & Hno). split_and!; try done.
      + revert Hd. unfold Server.startOfDay, Server.local_time,
          Server.local_day, Server.MS_DAY.
        Z.to_euclidean_division_equations. lia.
      + revert Hd. unfold Server.endOfDay, Server.startOfDay,
          Server.local_time, Server.local_day, Server.MS_DAY.
        Z.to_euclidean_division_equations. lia.
      + destruct st; [by left|by right]. }
  by rewrite (list_filter_iff _ _ _ (Hiff completed)),
    (list_filter_iff _ _ _ (Hiff missed)).
Qed.

Lemma legacy_weekly_counts_witness :
  Legacy.dashboard_weekly manila 90000000 7 db_days !! 5%nat
  = Some (Server.mkRow 0 1 1)
  ∧ Legacy.dashboard_weekly manila 90000000 7 db_days !! 6%nat
    = Some (Server.mkRow 1 0 1).
Proof.
  split.
  - rewrite (legacy_weekly_counts manila 90000000 7 db_days 5) by lia.
    reflexivity.
  - rewrite (legacy_weekly_counts manila 90000000 7 db_days 6) by lia.
    reflexivity.
Defined.

(** ** Identifiers *)

Lemma split_dash_head_no_dash (s : string) :
  includes_dash (split_dash_head s) = false.
Proof.
  induction s as [|c r IH]; [done|]. cbn.
  destruct (Ascii.eqb c "-") eqn:Hc; [done|]. cbn. by rewrite Hc.
Qed.

Lemma split_dash_head_fixed (s : string) :
  includes_dash s = false → split_dash_head s = s.
Proof.
  induction s as [|c r IH]; [done|]. cbn.
  destruct (Ascii.eqb c "-"); [done|]. intros Hr. by rewrite IH.
Qed.

Lemma split_dash_head_append (s suffix : string) :
  includes_dash s = false →
  split_dash_head (s +:+ "-" +:+ suffix) = s.
Proof.
  induction s as [|c r IH]; [done|]. intros Hno.
  change (String c r +:+ "-" +:+ suffix)
    with (String c (r +:+ "-" +:+ suffix)).
  cbn [split_dash_head includes_dash] in Hno |- *.
  destruct (Ascii.eqb c "-"); [done|]. by rewrite IH.
Qed.

(** X26.  The two definitions of [baseId] agree on every string.  The
    result has no dash, an id without a dash is returned as it is, so
    [baseId] is idempotent, and it undoes the composition of an instance
    id: from an id without a dash followed by a dash and any suffix it
    gives back the id. *)
Theorem baseId_variants_agree (v : string) :
  Legacy.baseId v = Server.baseId v
  ∧ includes_dash (Server.baseId v) = false
  ∧ (includes_dash v = false → Server.baseId v = v)
  ∧ Server.baseId (Server.baseId v) = Server.baseId v
  ∧ ∀ suffix, Server.baseId (Server.baseId v +:+ "-" +:+ suffix)
              = Server.baseId v.
Proof.
  unfold Legacy.baseId, Server.baseId. split_and!.
  - destruct (includes_dash v) eqn:Hv; [done|].
    by rewrite split_dash_head_fixed.
  - apply split_dash_head_no_dash.
  - apply split_dash_head_fixed.
  - apply split_dash_head_fixed, split_dash_head_no_dash.
  - intros suffix. apply split_dash_head_append, split_dash_head_no_dash.
Qed.

(** ** Share requests *)

(** X27.  Answering a share request with "replace", for an incoming event
    whose end is after its start: every event of the recipient that
    overlaps the incoming one is deleted, whatever its status and whether
    it is a parent or a segment, and nothing else is; the recipient gets a
    pending, standalone copy of the incoming event, which afterwards is
    the only event of the recipient overlapping that interval, the one
    the conflict query of the create handler reports.  With "keep" the
    copy is added and nothing is deleted. *)
Theorem replace_leaves_only_the_incoming (src : Event) (recipient : N)
    (db : DB) (Hrange : start src < end_ src) :
  let ev := Legacy.incoming src recipient (next_oid db) in
  (∃ db',
      Legacy.respond Legacy.replace (Some src) recipient db
      = (db', Legacy.Replaced ev)
      ∧ (∀ c, c ∈ docs db' ↔
           c = ev
           ∨ (c ∈ docs db
              ∧ ¬ (userId c = recipient ∧ start c < end_ src
                   ∧ start src < end_ c)))
      ∧ (∀ c, c ∈ docs db' → userId c = recipient →
           start c < end_ src → start src < end_ c → c = ev)
      ∧ Legacy.conflict_query recipient (start src) (end_ src) db' = Some ev)
  ∧ (∃ db',
      Legacy.respond Legacy.keep (Some src) recipient db
      = (db', Legacy.Kept ev)
      ∧ docs db' = docs db ++ [ev])
  ∧ userId ev = recipient ∧ start ev = start src ∧ end_ ev = end_ src
  ∧ title ev = title src ∧ status ev = None ∧ segmentOf ev = None.
Proof.
  cbv zeta. split_and!; try done.
  - unfold Legacy.respond. cbn [Mongo.deleteMany Mongo.create docs next_oid].
    eexists. split; [reflexivity|]. cbn [docs].
    assert (∀ c, c ∈ filter (λ e, ¬ (userId e = recipient
                                     ∧ start e < end_ src
                                     ∧ start src < end_ e)) (docs db)
                      ++ [Legacy.incoming src recipient (next_oid db)]
                 ↔ c = Legacy.incoming src recipient (next_oid db)
                   ∨ (c ∈ docs db
                      ∧ ¬ (userId c = recipient ∧ start c < end_ src
                           ∧ start src < end_ c))) as Hmem.
    { intros c.
      rewrite elem_of_app, list_elem_of_filter, list_elem_of_singleton.
      tauto. }
    split_and!.
    + exact Hmem.
    + intros c Hc Hu Hs He. apply Hmem in Hc as [->|[_ Hn]]; [done|].
      destruct Hn. done.
    + unfold Legacy.conflict_query, Mongo.findOne, Mongo.find. cbn [docs].
      rewrite filter_app, list_filter_filter.
      rewrite (filter_Forall_nil _ (docs db)).
      * rewrite filter_cons_True; [done|]. cbn. done.
      * apply Forall_forall. intros c _. tauto.
  - unfold Legacy.respond. cbn [Mongo.create]. eauto.
Qed.

Lemma replace_leaves_only_the_incoming_witness :
  Legacy.conflict_query 7 0 (200 * 60000)
    (Legacy.respond Legacy.replace (Some task200) 7 db200).1
  = Some (Legacy.incoming task200 7 2).
Proof.
  destruct (replace_leaves_only_the_incoming task200 7 db200
              ltac:(cbn; lia)) as [(db' & He & _ & _ & Hq) _].
  rewrite He. exact Hq.
Defined.

(** ** The verdict of the productivity report *)

Lemma sumZ_lookup_le (l : list Z) (i : nat) (x : Z) :
  Forall (λ y, 0 ≤ y) l → l !! i = Some x → 0 ≤ x ≤ Server.sumZ l.
Proof.
  intros Hall. revert i. induction Hall as [|y l Hy Hall IH]; intros i Hi.
  - done.
  - rewrite sumZ_cons.
    assert (0 ≤ Server.sumZ l) as Hs.
    { clear IH Hi. induction Hall as [|z l Hz Hall IH]; [done|].
      rewrite sumZ_cons. lia. }
    destruct i as [|i]; [injection Hi as <-; lia|].
    specialize (IH i Hi). lia.
Qed.

Lemma week_day_index (tz now : Z) (uid : N) (ev : Event) :
  Server.weekly_match tz now uid ev →
  ∃ i : nat, (i < 7)%nat
    ∧ Server.dayKey tz ev
      = Server.local_day tz (Server.monday_of tz now) + Z.of_nat i.
Proof.
  intros (_ & Hs & He).
  exists (Z.to_nat (Server.dayKey tz ev
                    - Server.local_day tz (Server.monday_of tz now))).
  revert Hs He.
  unfold Server.dayKey, Server.windowEnd, Server.windowStart,
    Server.endOfDay, Server.monday_of, Server.day_of_week.
  cbv zeta.
  unfold Server.startOfDay, Server.local_time, Server.local_day,
    Server.MS_DAY.
  intros Hs He. split; Z.to_euclidean_division_equations; lia.
Qed.

Lemma weekly_buckets_nonneg (tz now : Z) (uid : N) (db : DB) :
  Forall (λ b, 0 ≤ Server.r_completed b ∧ 0 ≤ Server.r_missed b)
    (Server.weekly_buckets tz now uid db).
Proof.
  apply Forall_lookup. intros i b Hb.
  assert (i < 7)%nat as Hi.
  { apply lookup_lt_Some in Hb. unfold Server.weekly_buckets in Hb.
    cbv zeta in Hb. rewrite length_fmap, length_seqZ in Hb. lia. }
  rewrite (weekly_bucket_row tz now uid db i Hi) in Hb. injection Hb as <-.
  unfold Server.sum_cond. cbn [Server.r_completed Server.r_missed]. lia.
Qed.

(** X28.  The productivity report says "No data yet." exactly when no
    document of the user ends in the week of the report; as soon as one
    does, whatever its status, some bucket counts it and the verdict is
    one of the two others. *)
Theorem no_data_iff_empty_week (tz now : Z) (uid : N) (db : DB) :
  Server.verdict (Server.weekly_buckets tz now uid db) = Server.NoData
  ↔ week_matched tz now uid db = [].
Proof.
  split.
  - intros Hv. destruct (week_matched tz now uid db) as [|ev l] eqn:Hm;
      [done|exfalso].
    assert (ev ∈ week_matched tz now uid db) as Hin by (rewrite Hm; left).
    assert (Server.weekly_match tz now uid ev) as Hw.
    { unfold week_matched, Mongo.find in Hin.
      by apply list_elem_of_filter in Hin as [? _]. }
    destruct (week_day_index tz now uid ev Hw) as (i & Hi & Hd).
    pose proof (weekly_bucket_row tz now uid db i Hi) as Hrow.
    cbv zeta in Hrow. rewrite <- Hd in Hrow.
    pose proof (weekly_buckets_nonneg tz now uid db) as Hnn.
    set (bs := Server.weekly_buckets tz now uid db) in *.
    assert (Forall (λ y, 0 ≤ y) (Server.r_completed <$> bs)) as Hc
      by (apply Forall_fmap; eapply Forall_impl; [exact Hnn|]; cbn; tauto).
    assert (Forall (λ y, 0 ≤ y) (Server.r_missed <$> bs)) as Hmi
      by (apply Forall_fmap; eapply Forall_impl; [exact Hnn|]; cbn; tauto).
    pose proof (sumZ_lookup_le _ i _ Hc
                  ltac:(by rewrite list_lookup_fmap, Hrow)) as Hc'.
    pose proof (sumZ_lookup_le _ i _ Hmi
                  ltac:(by rewrite list_lookup_fmap, Hrow)) as Hm'.
    cbn [Server.r_completed Server.r_missed] in Hc', Hm'.
    assert (1 ≤ Server.sumZ (Server.r_completed <$> bs)
                + Server.sumZ (Server.r_missed <$> bs)) as Hpos.
    { unfold Server.sum_cond in Hc', Hm'.
      set (m := week_matched tz now uid db) in *.
      set (d := Server.dayKey tz ev) in *.
      destruct (segmentOf ev) as [p|] eqn:Hs.
      - assert (p ∈ split_parents_on tz m d) as Hp.
        { unfold split_parents_on.
          apply elem_of_remove_dups, list_elem_of_omap. exists ev.
          split; [done|]. by rewrite decide_True. }
        destruct (decide (segments_done_on tz m d p)) as [Hdone|Hdone].
        + assert (p ∈ filter (segments_done_on tz m d)
                        (split_parents_on tz m d)) as Hf
            by (by apply list_elem_of_filter).
          destruct (filter (segments_done_on tz m d) _);
            [by apply elem_of_nil in Hf|cbn [length] in Hc'; lia].
        + assert (p ∈ filter (λ p, ¬ segments_done_on tz m d p)
                        (split_parents_on tz m d)) as Hf
            by (by apply list_elem_of_filter).
          destruct (filter (λ p, ¬ segments_done_on tz m d p) _);
            [by apply elem_of_nil in Hf|cbn [length] in Hm'; lia].
      - destruct (decide (Server.isCompleted ev)) as [Hdone|Hdone].
        + assert (ev ∈ filter (λ ev, segmentOf ev = None
                                ∧ Server.isCompleted ev
                                ∧ Server.dayKey tz ev = d) m) as Hf
            by (by apply list_elem_of_filter).
          destruct (filter (λ ev, segmentOf ev = None
                                  ∧ Server.isCompleted ev ∧ _) m);
            [by apply elem_of_nil in Hf|cbn [length] in Hc'; lia].
        + assert (ev ∈ filter (λ ev, segmentOf ev = None
                                ∧ ¬ Server.isCompleted ev
                                ∧ Server.dayKey tz ev = d) m) as Hf
            by (by apply list_elem_of_filter).
          destruct (filter (λ ev, segmentOf ev = None
                                  ∧ ¬ Server.isCompleted ev ∧ _) m);
            [by apply elem_of_nil in Hf|cbn [length] in Hm'; lia]. }
    revert Hv. unfold Server.verdict. cbv zeta.
    destruct (Z.eqb_spec (Server.sumZ (Server.r_completed <$> bs)
                          + Server.sumZ (Server.r_missed <$> bs)) 0);
      [lia|]. by destruct (_ <=? _).
  - intros Hm. unfold week_matched in Hm.
    unfold Server.weekly_buckets. cbv zeta. rewrite Hm. reflexivity.
Qed.
